(** * Blog CMS front-end script (static/js/main.js): model and properties

    The script is a flat collection of page initializers and three
    utility functions.  The first part models it, following the file:

    - [JSString]: JavaScript strings as sequences of UTF-16 code units,
      with [String.prototype.trim] and number formatting;
    - [NearLimit]: the floating-point comparison of the comment
      counter, in exact integer arithmetic;
    - [TimeAgo]: the relative-time formatter;
    - [Debounce]: the debounce closure over a timer queue;
    - [JS], [Clipboard]: computations that may throw, and the async
      clipboard helper with its try/catch;
    - [Page]: the DOM, the listener registry, the timers and the six
      initializers with their event handlers.

    The second part states and proves the properties: [TimeAgoProps],
    [ClipboardProps], [DebounceProps], [JSStringProps], [PageProps] and
    [CounterProps], and then [TimeAgoMore], [DebounceMore],
    [NearLimitProps], [PageMore], [PreviewProps] and [LoadProps]. *)

From Stdlib Require Import ZArith NArith Lia Bool Ascii String List Permutation.
From Stdlib Require Import DecimalString.
From stdpp Require Import base option list strings gmap.

Set Warnings "-register-all".

Local Open Scope Z_scope.

(** ** JavaScript strings *)

Module JSString.

(** A JavaScript string is a finite sequence of 16-bit code units. *)
Definition jsstring := list N.

(** A source literal (ASCII only in this script). *)
Definition lit (s : string) : jsstring :=
  List.map N_of_ascii (list_ascii_of_string s).

(** ECMAScript WhiteSpace and LineTerminator code points, the ones
  [trim] strips: TAB, LF, VT, FF, CR, SP, NBSP, U+1680,
  U+2000..U+200A, LS, PS, U+202F, U+205F, U+3000 and the BOM. *)
Definition is_space (c : N) : bool :=
  ((9 <=? c) && (c <=? 13) || (c =? 32) || (c =? 160) || (c =? 5760)
   || (8192 <=? c) && (c <=? 8202) || (c =? 8232) || (c =? 8233)
   || (c =? 8239) || (c =? 8287) || (c =? 12288) || (c =? 65279))%N.

Fixpoint trimStart (s : jsstring) : jsstring :=
  match s with
  | c :: s' => if is_space c then trimStart s' else s
  | [] => []
  end.

Definition trimEnd (s : jsstring) : jsstring :=
  List.rev (trimStart (List.rev s)).

(** [s.trim()] *)
Definition trim (s : jsstring) : jsstring := trimEnd (trimStart s).

(** [String(n)] for an integral number. *)
Definition of_Z (n : Z) : jsstring :=
  lit (NilZero.string_of_int (Z.to_int n)).

Definition of_nat (n : nat) : jsstring := of_Z (Z.of_nat n).

End JSString.

Import JSString.

(** ** Floating point: the comparison with [maxLength * 0.9] *)

Module NearLimit.

(** The double nearest to 0.9 is [nine_tenths / 2^53]. *)
Definition nine_tenths : Z := 8106479329266893.

(** A natural number rounded to 53 significant bits, to the nearest
    and to the even one on a tie, as the arithmetic of doubles rounds
    an exact result. *)
Definition round53 (n : Z) : Z :=
  let k := Z.log2 n - 52 in
  if k <=? 0 then n
  else
    let q := n / 2 ^ k in
    let r := n mod 2 ^ k in
    let half := 2 ^ (k - 1) in
    (if (half <? r) || ((r =? half) && Z.odd q) then q + 1 else q) * 2 ^ k.

(** [current > m * 0.9] for natural numbers below 2^53, which are
    doubles exactly: the product [m * nine_tenths / 2^53] is rounded
    and compared with [current], both scaled by 2^53. *)
Definition exceeds (current m : Z) : bool :=
  round53 (m * nine_tenths) <? current * 2 ^ 53.

(** The number that a string of ASCII digits denotes. *)
Definition is_digit (c : N) : bool := ((48 <=? c) && (c <=? 57))%N.

Fixpoint digits_from (acc : Z) (s : jsstring) : option Z :=
  match s with
  | [] => Some acc
  | c :: s' =>
      if is_digit c then digits_from (10 * acc + Z.of_N (c - 48)) s' else None
  end.

Definition digits (s : jsstring) : option Z :=
  match s with
  | [] => None
  | _ :: _ => digits_from 0 s
  end.

(** [current > maxLength * 0.9] where [maxLength] is a string of digits
    for a number below 2^53.  What the comparison gives for any other
    string (a sign, a fraction, an exponent, blanks, a larger number)
    is left to [other]. *)
Definition near_limit (other : nat -> jsstring -> bool)
    (current : nat) (maxLength : jsstring) : bool :=
  match digits maxLength with
  | Some m =>
      if m <? 2 ^ 53 then exceeds (Z.of_nat current) m
      else other current maxLength
  | None => other current maxLength
  end.

End NearLimit.

(** ** 8. Utility functions: timeAgo *)

Module TimeAgo.

(** A JavaScript number that is either integral or NaN.  Time values
  are integral milliseconds; an unparsable date has time value NaN. *)
Definition number := option Z.

Definition NaN : number := None.

(** [a - b] *)
Definition sub (a b : number) : number :=
  match a, b with
  | Some x, Some y => Some (x - y)
  | _, _ => NaN
  end.

(** [Math.floor(a / k)] for a positive integral constant [k]. *)
Definition floor_div (a : number) (k : Z) : number :=
  match a with
  | Some x => Some (x / k)
  | None => NaN
  end.

(** [a < k] and [a > k]: every comparison with NaN is false. *)
Definition lt (a : number) (k : Z) : bool :=
  match a with
  | Some x => x <? k
  | None => false
  end.

Definition gt (a : number) (k : Z) : bool :=
  match a with
  | Some x => x >? k
  | None => false
  end.

(** [`${a}`] *)
Definition to_string (a : number) : jsstring :=
  match a with
  | Some x => of_Z x
  | None => lit "NaN"
  end.

Section WithLocale.

(** [Date.prototype.toLocaleDateString] depends on the host locale;
    it is a parameter of the model. *)
Variable toLocaleDateString : number -> jsstring.

(** [`${n} unit${n > 1 ? 's' : ''} ago`] *)
Definition phrase (n : number) (unit : string) : jsstring :=
  to_string n ++ lit " " ++ lit unit
    ++ (if gt n 1 then lit "s" else lit "") ++ lit " ago".

(** [timeAgo(date)], with [now] the time value of [new Date()] and
    [past] the time value of [new Date(date)]. *)
Definition timeAgo (now : Z) (past : number) : jsstring :=
  let diffMs := sub (Some now) past in
  let diffSecs := floor_div diffMs 1000 in
  let diffMins := floor_div diffSecs 60 in
  let diffHours := floor_div diffMins 60 in
  let diffDays := floor_div diffHours 24 in
  if lt diffSecs 60 then lit "just now"
  else if lt diffMins 60 then phrase diffMins "minute"
  else if lt diffHours 24 then phrase diffHours "hour"
  else if lt diffDays 7 then phrase diffDays "day"
  else toLocaleDateString past.

End WithLocale.

End TimeAgo.


(** ** 8. Utility functions: debounce *)

Module Debounce.

Section WithArgs.

(** The argument list [...args] of a call; the wrapped [func] is opaque,
    so the model records each of its invocations with the time of the
    invocation and the arguments it received. *)
Context {A : Type}.

(** A pending timer: the handle [setTimeout] returned, the time at which
    it is due, and the arguments captured by its [later] closure. *)
Record timer := Timer { handle : nat; due : nat; captured : A }.

(** The state reachable from one [debounce(func, wait)] closure: the
    clock and timer queue of the event loop (in milliseconds), the
    closure variable [timeout] ([None] is [undefined]) and the log of
    invocations of [func]. *)
Record state := State {
  clock : nat;
  fresh : nat;
  pending : list timer;
  timeout : option nat;
  invoked : list (nat * A)
}.

(** [debounce(func, wait)]: [let timeout;], nothing scheduled yet. *)
Definition debounce (t0 : nat) : state :=
  {| clock := t0; fresh := 1; pending := []; timeout := None; invoked := [] |}.

(** [clearTimeout(h)]: drops the timer with that handle, and does
    nothing for [undefined] or for a handle that is not pending. *)
Definition clearTimeout (h : option nat) (s : state) : state :=
  match h with
  | None => s
  | Some k =>
      {| clock := clock s; fresh := fresh s;
         pending := List.filter (fun tm => negb (Nat.eqb (handle tm) k)) (pending s);
         timeout := timeout s; invoked := invoked s |}
  end.

(** The delay a timer gets: [setTimeout] converts its second argument
    to a signed 32-bit integer, modulo 2^32, and takes a negative
    result as 0.  A [wait] of 2^31 or more does not wait that long. *)
Definition delay_of (wait : nat) : nat :=
  let w := (N.of_nat wait mod 4294967296)%N in
  if (w <? 2147483648)%N then N.to_nat w else 0%nat.

(** [setTimeout(later, wait)], [later] closing over [args]. *)
Definition setTimeout (args : A) (wait : nat) (s : state) : nat * state :=
  (fresh s,
   {| clock := clock s; fresh := S (fresh s);
      pending := pending s ++ [Timer (fresh s) (clock s + delay_of wait) args];
      timeout := timeout s; invoked := invoked s |}).

(** [func(...args)] *)
Definition func (args : A) (s : state) : state :=
  {| clock := clock s; fresh := fresh s; pending := pending s;
     timeout := timeout s; invoked := invoked s ++ [(clock s, args)] |}.

(** [later = () => { clearTimeout(timeout); func(...args); }] *)
Definition later (args : A) (s : state) : state :=
  func args (clearTimeout (timeout s) s).

(** [executedFunction(...args)] *)
Definition executedFunction (wait : nat) (args : A) (s : state) : state :=
  let s1 := clearTimeout (timeout s) s in
  let '(h, s2) := setTimeout args wait s1 in
  {| clock := clock s2; fresh := fresh s2; pending := pending s2;
     timeout := Some h; invoked := invoked s2 |}.

(** *** The event loop *)

(** The pending timer that fires first: the least due time, the earliest
    registered among equals. *)
Fixpoint earliest (l : list timer) : option timer :=
  match l with
  | [] => None
  | tm :: l' =>
      match earliest l' with
      | Some tm' => if Nat.ltb (due tm') (due tm) then Some tm' else Some tm
      | None => Some tm
      end
  end.

(** Fire one timer: it leaves the queue, the clock moves to its due time
    and its callback runs. *)
Definition fire (tm : timer) (s : state) : state :=
  later (captured tm)
    {| clock := Nat.max (clock s) (due tm); fresh := fresh s;
       pending := List.filter (fun x => negb (Nat.eqb (handle x) (handle tm))) (pending s);
       timeout := timeout s; invoked := invoked s |}.

(** Run the timers due up to time [t], at most [n] of them. *)
Fixpoint run_timers (n : nat) (t : nat) (s : state) : state :=
  match n with
  | O => s
  | S n' =>
      match earliest (pending s) with
      | Some tm => if Nat.leb (due tm) t then run_timers n' t (fire tm s) else s
      | None => s
      end
  end.

(** Let time pass until [t].  No callback of this closure schedules a
    timer, so the number of pending timers bounds the number of steps. *)
Definition advance (t : nat) (s : state) : state :=
  let s' := run_timers (length (pending s)) t s in
  {| clock := Nat.max (clock s') t; fresh := fresh s'; pending := pending s';
     timeout := timeout s'; invoked := invoked s' |}.

(** Time passes until a call is made at [t]: the timers due before [t]
    have fired.  A timer due at [t] itself has not: its callback runs
    in a task of its own, after the code that is running, so the calls
    made in one task all meet the timer of the call before them. *)
Definition arrive (t : nat) (s : state) : state :=
  let s' := match t with O => s | S t' => advance t' s end in
  {| clock := Nat.max (clock s') t; fresh := fresh s'; pending := pending s';
     timeout := timeout s'; invoked := invoked s' |}.

(** A sequence of calls [(t, args)] of the debounced function, each made
    when the clock reaches [t]. *)
Fixpoint calls (wait : nat) (cs : list (nat * A)) (s : state) : state :=
  match cs with
  | [] => s
  | (t, args) :: cs' => calls wait cs' (executedFunction wait args (arrive t s))
  end.



(** The state a call made at time [t] may meet: at most one timer is
    pending, the one [timeout] names, and it is due after [t]. *)
Definition armed_after (t : nat) (s : state) : Prop :=
  (clock s <= t)%nat /\
  (pending s = [] \/
   exists h d a, pending s = [Timer h d a] /\ timeout s = Some h /\ (t < d)%nat).




(** The states of a closure [debounce(func, wait)] that calls and the
    passing of time lead to. *)
Inductive reachable (wait : nat) : state -> Prop :=
  | reach_start t0 : reachable wait (debounce t0)
  | reach_call s a : reachable wait s -> reachable wait (executedFunction wait a s)
  | reach_time s t : reachable wait s -> reachable wait (advance t s).

End WithArgs.

Arguments timer : clear implicits.
Arguments state : clear implicits.

End Debounce.

(** ** Exceptions, the console and computations that may throw *)

Module JS.

(** A thrown value or rejection reason; the script never inspects it. *)
Inductive error :=
  | TypeError (msg : string)
  | ReferenceError (msg : string)
  | DOMException (name : string).

(** One line written to the console. *)
Inductive console_entry :=
  | Log (msg : jsstring)
  | Error (msg : jsstring) (err : error).

(** A computation over a state [S] that returns a value or throws; the
    state reached is kept either way. *)
Definition M (S X : Type) : Type := S -> (X + error) * S.

Definition ret {S X} (x : X) : M S X := fun s => (inl x, s).

Definition throw {S X} (e : error) : M S X := fun s => (inr e, s).

Definition bind {S X Y} (m : M S X) (k : X -> M S Y) : M S Y :=
  fun s => match m s with
           | (inl x, s') => k x s'
           | (inr e, s') => (inr e, s')
           end.

(** [try { body } catch (err) { handler }] *)
Definition try_catch {S X} (body : M S X) (handler : error -> M S X) : M S X :=
  fun s => match body s with
           | (inl x, s') => (inl x, s')
           | (inr e, s') => handler e s'
           end.

(** Read and write the state. *)
Definition gets {S X} (f : S -> X) : M S X := fun s => (inl (f s), s).

Definition modify {S} (f : S -> S) : M S unit := fun s => (inl tt, f s).

(** [list.forEach(x => body)] *)
Fixpoint forEach {S X} (l : list X) (body : X -> M S unit) : M S unit :=
  match l with
  | [] => ret tt
  | x :: l' => bind (body x) (fun _ => forEach l' body)
  end.

Module Notations.
Notation "'let*' x ':=' m 'in' k" := (bind m (fun x => k))
  (at level 10, x name, m at level 100, k at level 200).
Notation "m ';;' k" := (bind m (fun _ => k))
  (at level 100, k at level 200, right associativity).
End Notations.

End JS.

(** ** 8. Utility functions: copyToClipboard *)

Module Clipboard.

Import JS JS.Notations.

(** The browser around the helper: the console, the system clipboard,
    the number of [writeText] calls made so far, and the fate of each
    call ([denied n = Some err] when the [n]-th call fails with [err]:
    no clipboard in an insecure context, permission refused, ...). *)
Record browser := Browser {
  console : list console_entry;
  clipboard : jsstring;
  writes : nat;
  denied : nat -> option error
}.

Definition M := JS.M browser.

(** [await navigator.clipboard.writeText(text)]: a failed call throws at
    the [await], a successful one replaces the clipboard contents. *)
Definition writeText (text : jsstring) : M unit :=
  fun b =>
    let b' := {| console := console b; clipboard := clipboard b;
                 writes := S (writes b); denied := denied b |} in
    match denied b (writes b) with
    | Some err => (inr err, b')
    | None => (inl tt, {| console := console b'; clipboard := text;
                          writes := writes b'; denied := denied b' |})
    end.

Definition console_log (msg : jsstring) : M unit :=
  fun b => (inl tt, {| console := console b ++ [Log msg]; clipboard := clipboard b;
                       writes := writes b; denied := denied b |}).

Definition console_error (msg : jsstring) (err : error) : M unit :=
  fun b => (inl tt, {| console := console b ++ [Error msg err]; clipboard := clipboard b;
                       writes := writes b; denied := denied b |}).

(** How the promise returned by an async function settles. *)
Inductive settled := Fulfilled | Rejected (reason : error).

(** [async function f() { body }]: the promise is fulfilled when the
    body completes and rejected with what the body throws. *)
Definition async (body : M unit) (b : browser) : settled * browser :=
  match body b with
  | (inl _, b') => (Fulfilled, b')
  | (inr e, b') => (Rejected e, b')
  end.

(** [copyToClipboard(text)] *)
Definition copyToClipboard (text : jsstring) : browser -> settled * browser :=
  async
    (try_catch
       (writeText text ;; console_log (lit "Copied to clipboard"))
       (fun err => console_error (lit "Failed to copy:") err)).

End Clipboard.

(** ** The page: DOM, listeners, timers *)

Module Page.

Import JS JS.Notations.

(** *** DOM nodes *)

(** Every node has an identity; a variable holding a node holds this. *)
Definition node_id := nat.

(** An entry of an [<input type="file">]'s [files] list. *)
Record file := File { file_name : jsstring; file_type : jsstring }.

(** What the script reads and writes on an element.  [tagName] is the
    lower-case local name, as selectors spell it. *)
Record element := Element {
  tagName : string;
  attrs : gmap string jsstring;
  classList : list string;
  style : gmap string jsstring;
  value : jsstring;
  files : list file;
  isContentEditable : bool
}.

(** [document.createElement(tag)] before any property is set. *)
Definition blank (tag : string) : element :=
  {| tagName := tag; attrs := ∅; classList := []; style := ∅;
     value := []; files := []; isContentEditable := false |}.

Inductive node :=
  | Text (id : node_id) (data : jsstring)
  | Elem (id : node_id) (e : element) (children : list node).

Definition id_of (n : node) : node_id :=
  match n with
  | Text i _ => i
  | Elem i _ _ => i
  end.

Definition children_of (n : node) : list node :=
  match n with
  | Text _ _ => []
  | Elem _ _ kids => kids
  end.

(** Identities of all the nodes of a subtree, in document order. *)
Fixpoint ids (n : node) : list node_id :=
  match n with
  | Text i _ => [i]
  | Elem i _ kids => i :: List.flat_map ids kids
  end.

(** An element as a query sees it: its identity, its data and its
    ancestors, the nearest first. *)
Record entry := Entry {
  ent_id : node_id;
  ent_elem : element;
  ent_ancestors : list (node_id * element)
}.

(** The elements of a subtree in document order, the subtree's root
    included, below the ancestors [anc]. *)
Fixpoint elements_in (anc : list (node_id * element)) (n : node) : list entry :=
  match n with
  | Text _ _ => []
  | Elem i e kids =>
      Entry i e anc :: List.flat_map (elements_in ((i, e) :: anc)) kids
  end.

(** *** Element setters *)

Definition set_attr (k : string) (v : jsstring) (e : element) : element :=
  {| tagName := tagName e; attrs := <[k := v]> (attrs e); classList := classList e;
     style := style e; value := value e; files := files e;
     isContentEditable := isContentEditable e |}.

Definition set_classList (cs : list string) (e : element) : element :=
  {| tagName := tagName e; attrs := attrs e; classList := cs;
     style := style e; value := value e; files := files e;
     isContentEditable := isContentEditable e |}.

Definition set_style (k : string) (v : jsstring) (e : element) : element :=
  {| tagName := tagName e; attrs := attrs e; classList := classList e;
     style := <[k := v]> (style e); value := value e; files := files e;
     isContentEditable := isContentEditable e |}.

(** [el.style.cssText = text]: the declarations of [text] replace the
    inline style. *)
Definition set_cssText (decls : list (string * jsstring)) (e : element) : element :=
  {| tagName := tagName e; attrs := attrs e; classList := classList e;
     style := list_to_map decls; value := value e; files := files e;
     isContentEditable := isContentEditable e |}.

(** [classList.contains], [add], [remove] and [toggle]. *)
Definition has_class (c : string) (e : element) : bool :=
  existsb (String.eqb c) (classList e).

Definition add_class (c : string) (e : element) : element :=
  if has_class c e then e else set_classList (classList e ++ [c]) e.

Definition remove_class (c : string) (e : element) : element :=
  set_classList (List.filter (fun x => negb (String.eqb c x)) (classList e)) e.

Definition toggle_class (c : string) (e : element) : element :=
  if has_class c e then remove_class c e else add_class c e.

(** *** Selectors *)

(** [s] occurs in [t] at the start ([startsWith]) or anywhere. *)
Fixpoint starts_with (s t : jsstring) : bool :=
  match s, t with
  | [], _ => true
  | a :: s', b :: t' => N.eqb a b && starts_with s' t'
  | _ :: _, [] => false
  end.

Fixpoint includes (s t : jsstring) : bool :=
  starts_with s t ||
  match t with
  | [] => false
  | _ :: t' => includes s t'
  end.

Definition jsstring_eqb (s t : jsstring) : bool :=
  bool_decide (s = t).

(** ASCII lower case of a code unit and of a string. *)
Definition lower (c : N) : N :=
  if ((65 <=? c) && (c <=? 90))%N then (c + 32)%N else c.

Definition to_lower (s : jsstring) : jsstring := List.map lower s.

(** The attributes whose values a selector compares without regard to
    ASCII case on the elements of an HTML document; the values of the
    others, [name] among them, are compared as they are written. *)
Definition case_insensitive_attrs : list string :=
  ["accept"; "accept-charset"; "align"; "alink"; "axis"; "bgcolor"; "charset";
   "checked"; "clear"; "codetype"; "color"; "compact"; "declare"; "defer";
   "dir"; "direction"; "disabled"; "enctype"; "face"; "frame"; "hreflang";
   "http-equiv"; "lang"; "language"; "link"; "media"; "method"; "multiple";
   "nohref"; "noresize"; "noshade"; "nowrap"; "readonly"; "rel"; "rev";
   "rules"; "scope"; "scrolling"; "selected"; "shape"; "target"; "text";
   "type"; "valign"; "valuetype"; "vlink"].

(** A value as an attribute selector on [name] compares it. *)
Definition folded (name : string) (v : jsstring) : jsstring :=
  if existsb (String.eqb name) case_insensitive_attrs then to_lower v else v.

(** The simple selectors the script uses: [tag], [.class],
    [[name="v"]], [[name*="v"]] and [:not(.class)]. *)
Inductive simple :=
  | Tag (t : string)
  | Class (c : string)
  | AttrIs (name : string) (v : string)
  | AttrHas (name : string) (v : string)
  | NotClass (c : string).

Definition matches_simple (s : simple) (e : element) : bool :=
  match s with
  | Tag t => String.eqb t (tagName e)
  | Class c => has_class c e
  | AttrIs k v =>
      match attrs e !! k with
      | Some x => jsstring_eqb (folded k x) (folded k (lit v))
      | None => false
      end
  | AttrHas k v =>
      match attrs e !! k with
      | Some x => includes (folded k (lit v)) (folded k x)
      | None => false
      end
  | NotClass c => negb (has_class c e)
  end.

(** A compound selector is a conjunction of simple selectors. *)
Definition compound := list simple.

Definition matches_compound (c : compound) (e : element) : bool :=
  forallb (fun s => matches_simple s e) c.

(** A complex selector: the compound for the element itself, and the
    compounds its ancestors must match, read right to left (the
    descendant combinator). *)
Record complex := Complex { subject : compound; context : list compound }.

(** Some chain of ancestors, going outwards, matches the compounds. *)
Fixpoint matches_context (cs : list compound) (anc : list (node_id * element)) : bool :=
  match cs with
  | [] => true
  | c :: cs' =>
      (fix search (l : list (node_id * element)) : bool :=
         match l with
         | [] => false
         | (_, a) :: l' =>
             (matches_compound c a && matches_context cs' l') || search l'
         end) anc
  end.

Definition matches_complex (c : complex) (x : entry) : bool :=
  matches_compound (subject c) (ent_elem x)
  && matches_context (context c) (ent_ancestors x).

(** A selector list: the alternatives separated by commas. *)
Definition selector := list complex.

Definition matches (sel : selector) (x : entry) : bool :=
  existsb (fun c => matches_complex c x) sel.

(** The selectors of the script. *)
Definition sel_search_inputs : selector :=    (* input[type="search"], input[name="q"] *)
  [Complex [Tag "input"; AttrIs "type" "search"] [];
   Complex [Tag "input"; AttrIs "name" "q"] []].

Definition sel_navbar_search : selector :=    (* .navbar input[type="search"] *)
  [Complex [Tag "input"; AttrIs "type" "search"] [[Class "navbar"]]].

Definition sel_form : selector :=             (* form *)
  [Complex [Tag "form"] []].

Definition sel_reply_btn : selector :=        (* .reply-btn *)
  [Complex [Class "reply-btn"] []].

Definition sel_content_input : selector :=    (* input[name="content"] *)
  [Complex [Tag "input"; AttrIs "name" "content"] []].

Definition sel_content_textarea : selector := (* textarea[name="content"] *)
  [Complex [Tag "textarea"; AttrIs "name" "content"] []].

Definition sel_image_inputs : selector :=     (* input[type="file"][accept*="image"] *)
  [Complex [Tag "input"; AttrIs "type" "file"; AttrHas "accept" "image"] []].

Definition sel_image_preview : selector :=    (* .image-preview *)
  [Complex [Class "image-preview"] []].

Definition sel_alerts : selector :=           (* .alert:not(.alert-permanent) *)
  [Complex [Class "alert"; NotClass "alert-permanent"] []].

(** *** Reading the tree *)

(** The entry of the element [i] of the document [root]. *)
Definition entry_of (i : node_id) (root : node) : option entry :=
  List.find (fun x => Nat.eqb (ent_id x) i) (elements_in [] root).

(** The first answer that [f] gives along a list. *)
Section FirstSome.

Context {X Y : Type} (f : X -> option Y).

Fixpoint first_some (l : list X) : option Y :=
  match l with
  | [] => None
  | x :: l' =>
      match f x with
      | Some y => Some y
      | None => first_some l'
      end
  end.

End FirstSome.

(** The subtree rooted at the node [i]. *)
Fixpoint find_node (i : node_id) (n : node) : option node :=
  if Nat.eqb (id_of n) i then Some n
  else match n with
       | Text _ _ => None
       | Elem _ _ kids => first_some (find_node i) kids
       end.

(** The siblings after [i] in a list of children. *)
Fixpoint after (i : node_id) (l : list node) : option (list node) :=
  match l with
  | [] => None
  | k :: l' => if Nat.eqb (id_of k) i then Some l' else after i l'
  end.

(** The siblings that follow the node [i], [None] when [i] is not below
    [n]. *)
Fixpoint following (i : node_id) (n : node) : option (list node) :=
  match n with
  | Text _ _ => None
  | Elem _ _ kids =>
      match after i kids with
      | Some r => Some r
      | None => first_some (following i) kids
      end
  end.

(** The element that has the node [i] among its children. *)
Fixpoint parent_of (i : node_id) (n : node) : option node_id :=
  match n with
  | Text _ _ => None
  | Elem p _ kids =>
      if existsb (fun k => Nat.eqb (id_of k) i) kids then Some p
      else first_some (parent_of i) kids
  end.

(** The first element of a list of nodes. *)
Fixpoint first_element (l : list node) : option (node_id * element) :=
  match l with
  | [] => None
  | Text _ _ :: l' => first_element l'
  | Elem i e _ :: _ => Some (i, e)
  end.

(** *** Changing the tree *)

(** Apply [f] to the data of the element [i]. *)
Fixpoint update (i : node_id) (f : element -> element) (n : node) : node :=
  match n with
  | Text _ _ => n
  | Elem j e kids =>
      Elem j (if Nat.eqb j i then f e else e) (List.map (update i f) kids)
  end.

(** Apply [g] to the list of children of the element [i]. *)
Fixpoint alter_children (i : node_id) (g : list node -> list node) (n : node) : node :=
  match n with
  | Text _ _ => n
  | Elem j e kids =>
      if Nat.eqb j i then Elem j e (g kids)
      else Elem j e (List.map (alter_children i g) kids)
  end.

(** Put [c] before the child [r], or last when [r] is [null]. *)
Fixpoint put_before (c : node) (r : option node_id) (l : list node) : list node :=
  match r, l with
  | Some i, k :: l' =>
      if Nat.eqb (id_of k) i then c :: k :: l' else k :: put_before c r l'
  | _, [] => [c]
  | None, k :: l' => k :: put_before c r l'
  end.

(** Take the node [i] out of the subtree (it stays if it is the root). *)
Fixpoint detach (i : node_id) (n : node) : node :=
  match n with
  | Text _ _ => n
  | Elem j e kids =>
      Elem j e
        ((fix rest (l : list node) : list node :=
            match l with
            | [] => []
            | k :: l' =>
                if Nat.eqb (id_of k) i then rest l' else detach i k :: rest l'
            end) kids)
  end.

(** *** The world of the page *)

(** What a listener is attached to. *)
Inductive target :=
  | Document
  | Window
  | Node (i : node_id).

(** The function expressions of the script passed to
    [addEventListener] (or assigned to [onload]), with the variables
    each one closes over. *)
Inductive handler :=
  | OnSearchInput                         (* line 51 *)
  | OnSearchSubmit (input : node_id)      (* line 58 *)
  | OnSlashKey                            (* line 68 *)
  | OnReplyClick                          (* line 94 *)
  | OnCommentInput (maxLength : jsstring) (* line 125 *)
  | OnImageChange                         (* line 155 *)
  | OnPreviewLoad                         (* line 173 *)
  | OnScroll (button : node_id)           (* line 220 *)
  | OnScrollTopClick                      (* line 229 *)
  | OnMouseEnter                          (* line 237 *)
  | OnMouseLeave                          (* line 240 *)
  | OnMetaInput (charCount : node_id).    (* line 289 *)

(** The arrow functions passed to [setTimeout]. *)
Inductive callback :=
  | AutoHide (alert : node_id)            (* line 258 *)
  | RemoveAlert (alert : node_id).        (* line 266 *)

(** The global [bootstrap]: not declared at all, declared without the
    [Alert] component, or loaded, in which case [instance a] tells
    whether [Alert.getOrCreateInstance(a)] returns an instance. *)
Inductive framework :=
  | NoGlobal
  | NoAlert
  | Loaded (instance : node_id -> bool).

Definition target_eqb (a b : target) : bool :=
  match a, b with
  | Document, Document => true
  | Window, Window => true
  | Node i, Node j => Nat.eqb i j
  | _, _ => false
  end.

Record timer := Timer { handle : nat; due : nat; action : callback }.

Record listener := Listener { on : target; type : string; run : handler }.

Record world := World {
  document : node;                (* the root element and all below it *)
  next_node : node_id;            (* identity of the next node created *)
  activeElement : option node_id;
  listeners : list listener;      (* in registration order *)
  now : nat;                      (* milliseconds *)
  next_timer : nat;
  timers : list timer;
  prevented : bool;               (* defaultPrevented of the event dispatched *)
  scrollY : Z;
  console : list console_entry;
  object_urls : list jsstring;    (* URLs created and not yet revoked *)
  next_url : nat;
  bootstrap : framework;
  closed : list node_id;          (* alerts handed to Bootstrap's close() *)
  focusable : node -> node_id -> bool
                                  (* whether an element of the document can
                                     take focus: it is rendered and not
                                     disabled, which rests on the style
                                     sheets of the page *)
}.

Definition with_document (f : node -> node) (w : world) : world :=
  {| document := f (document w); next_node := next_node w;
     activeElement := activeElement w; listeners := listeners w; now := now w;
     next_timer := next_timer w; timers := timers w; prevented := prevented w;
     scrollY := scrollY w; console := console w; object_urls := object_urls w;
     next_url := next_url w; bootstrap := bootstrap w; closed := closed w;
     focusable := focusable w |}.

Definition with_next_node (i : node_id) (w : world) : world :=
  {| document := document w; next_node := i;
     activeElement := activeElement w; listeners := listeners w; now := now w;
     next_timer := next_timer w; timers := timers w; prevented := prevented w;
     scrollY := scrollY w; console := console w; object_urls := object_urls w;
     next_url := next_url w; bootstrap := bootstrap w; closed := closed w;
     focusable := focusable w |}.

Definition with_activeElement (a : option node_id) (w : world) : world :=
  {| document := document w; next_node := next_node w;
     activeElement := a; listeners := listeners w; now := now w;
     next_timer := next_timer w; timers := timers w; prevented := prevented w;
     scrollY := scrollY w; console := console w; object_urls := object_urls w;
     next_url := next_url w; bootstrap := bootstrap w; closed := closed w;
     focusable := focusable w |}.

Definition with_listeners (l : list listener) (w : world) : world :=
  {| document := document w; next_node := next_node w;
     activeElement := activeElement w; listeners := l; now := now w;
     next_timer := next_timer w; timers := timers w; prevented := prevented w;
     scrollY := scrollY w; console := console w; object_urls := object_urls w;
     next_url := next_url w; bootstrap := bootstrap w; closed := closed w;
     focusable := focusable w |}.

Definition with_timers (k : nat) (l : list timer) (w : world) : world :=
  {| document := document w; next_node := next_node w;
     activeElement := activeElement w; listeners := listeners w; now := now w;
     next_timer := k; timers := l; prevented := prevented w;
     scrollY := scrollY w; console := console w; object_urls := object_urls w;
     next_url := next_url w; bootstrap := bootstrap w; closed := closed w;
     focusable := focusable w |}.

Definition with_prevented (b : bool) (w : world) : world :=
  {| document := document w; next_node := next_node w;
     activeElement := activeElement w; listeners := listeners w; now := now w;
     next_timer := next_timer w; timers := timers w; prevented := b;
     scrollY := scrollY w; console := console w; object_urls := object_urls w;
     next_url := next_url w; bootstrap := bootstrap w; closed := closed w;
     focusable := focusable w |}.

Definition with_scrollY (y : Z) (w : world) : world :=
  {| document := document w; next_node := next_node w;
     activeElement := activeElement w; listeners := listeners w; now := now w;
     next_timer := next_timer w; timers := timers w; prevented := prevented w;
     scrollY := y; console := console w; object_urls := object_urls w;
     next_url := next_url w; bootstrap := bootstrap w; closed := closed w;
     focusable := focusable w |}.

Definition with_console (l : list console_entry) (w : world) : world :=
  {| document := document w; next_node := next_node w;
     activeElement := activeElement w; listeners := listeners w; now := now w;
     next_timer := next_timer w; timers := timers w; prevented := prevented w;
     scrollY := scrollY w; console := l; object_urls := object_urls w;
     next_url := next_url w; bootstrap := bootstrap w; closed := closed w;
     focusable := focusable w |}.

Definition with_object_urls (k : nat) (l : list jsstring) (w : world) : world :=
  {| document := document w; next_node := next_node w;
     activeElement := activeElement w; listeners := listeners w; now := now w;
     next_timer := next_timer w; timers := timers w; prevented := prevented w;
     scrollY := scrollY w; console := console w; object_urls := l;
     next_url := k; bootstrap := bootstrap w; closed := closed w;
     focusable := focusable w |}.

Definition with_closed (l : list node_id) (w : world) : world :=
  {| document := document w; next_node := next_node w;
     activeElement := activeElement w; listeners := listeners w; now := now w;
     next_timer := next_timer w; timers := timers w; prevented := prevented w;
     scrollY := scrollY w; console := console w; object_urls := object_urls w;
     next_url := next_url w; bootstrap := bootstrap w; closed := l;
     focusable := focusable w |}.

Definition M := JS.M world.

(** *** The DOM interface *)

(** The identities of the entries that match, in document order. *)
Definition select (sel : selector) (l : list entry) : list node_id :=
  List.map ent_id (List.filter (matches sel) l).

(** [document.querySelectorAll(sel)] and [document.querySelector(sel)] *)
Definition querySelectorAll (sel : selector) : M (list node_id) :=
  gets (fun w => select sel (elements_in [] (document w))).

Definition querySelector (sel : selector) : M (option node_id) :=
  gets (fun w => head (select sel (elements_in [] (document w)))).

(** The elements strictly below the element [i]. *)
Definition descendants (i : node_id) (root : node) : list entry :=
  match entry_of i root, find_node i root with
  | Some x, Some (Elem _ e kids) =>
      List.flat_map (elements_in ((i, e) :: ent_ancestors x)) kids
  | _, _ => []
  end.

(** [el.querySelector(sel)] *)
Definition querySelectorIn (i : node_id) (sel : selector) : M (option node_id) :=
  gets (fun w => head (select sel (descendants i (document w)))).

Definition has_id (s : jsstring) (x : entry) : bool :=
  match attrs (ent_elem x) !! "id" with
  | Some v => jsstring_eqb v s
  | None => false
  end.

(** [document.getElementById(s)] *)
Definition getElementById (s : jsstring) : M (option node_id) :=
  gets (fun w => ent_id <$> List.find (has_id s) (elements_in [] (document w))).

(** The data of the element [i].  The model keeps the nodes of the
    document only; a node that has left it reads as a blank element. *)
Definition element_at (i : node_id) (w : world) : element :=
  match entry_of i (document w) with
  | Some x => ent_elem x
  | None => blank ""
  end.

(** Read a property of an element. *)
Definition prop {X} (i : node_id) (f : element -> X) : M X :=
  gets (fun w => f (element_at i w)).

(** What [el.value] reads: a string on the form controls, a number on
    [li], [meter] and [progress], and [undefined] on every other
    element, which has no such property. *)
Inductive value_read :=
  | StringValue (s : jsstring)
  | NumberValue
  | NoValue.

Definition has_string_value (e : element) : bool :=
  existsb (String.eqb (tagName e))
    ["input"; "textarea"; "select"; "button"; "option"; "output"; "data"; "param"].

Definition has_number_value (e : element) : bool :=
  existsb (String.eqb (tagName e)) ["li"; "meter"; "progress"].

Definition read_value (e : element) : value_read :=
  if has_string_value e then StringValue (value e)
  else if has_number_value e then NumberValue
  else NoValue.

(** [el.value.length] where [el] may be any element: the length of a
    string, [undefined] for a number, and a TypeError where there is
    no value to read [length] from. *)
Definition value_length (i : node_id) : M (option nat) :=
  fun w =>
    match read_value (element_at i w) with
    | StringValue s => (inl (Some (length s)), w)
    | NumberValue => (inl None, w)
    | NoValue => (inr (TypeError "Cannot read properties of undefined"), w)
    end.

(** What [textContent = n] writes, [n] being such a length: the digits
    of a number, and no text for [undefined], which the setter takes
    as [null]. *)
Definition length_text (n : option nat) : jsstring :=
  match n with
  | Some k => of_nat k
  | None => []
  end.

(** The ancestors as entries, each with its own ancestors. *)
Fixpoint chain (l : list (node_id * element)) : list entry :=
  match l with
  | [] => []
  | (i, e) :: l' => Entry i e l' :: chain l'
  end.

(** [el.closest(sel)]: the element itself or its nearest ancestor that
    matches. *)
Definition closest_in (i : node_id) (sel : selector) (root : node) : option node_id :=
  match entry_of i root with
  | Some x => head (select sel (x :: chain (ent_ancestors x)))
  | None => None
  end.

Definition closest (i : node_id) (sel : selector) : M (option node_id) :=
  gets (fun w => closest_in i sel (document w)).

(** [el.parentNode], [el.nextSibling] and [el.nextElementSibling] *)
Definition parentNode (i : node_id) : M (option node_id) :=
  gets (fun w => parent_of i (document w)).

Definition nextSibling (i : node_id) : M (option node_id) :=
  gets (fun w =>
          match following i (document w) with
          | Some (k :: _) => Some (id_of k)
          | _ => None
          end).

Definition nextElementSibling (i : node_id) : M (option node_id) :=
  gets (fun w =>
          match following i (document w) with
          | Some l => fst <$> first_element l
          | None => None
          end).

(** Reading a property of [null] or [undefined] throws. *)
Definition deref {X} (o : option X) : M X :=
  match o with
  | Some x => ret x
  | None => throw (TypeError "Cannot read properties of null")
  end.

(** Write the data of the element [i]. *)
Definition set (i : node_id) (f : element -> element) : M unit :=
  modify (with_document (update i f)).

(** [document.createElement(tag)]: a new node outside the document,
    held by a local variable until it is inserted. *)
Definition createElement (tag : string) : M node :=
  fun w => (inl (Elem (next_node w) (blank tag) []),
            with_next_node (S (next_node w)) w).

(** Set properties of a node held by a local variable. *)
Definition edit (f : element -> element) (n : node) : node :=
  match n with
  | Elem i e kids => Elem i (f e) kids
  | Text _ _ => n
  end.

(** The children that [textContent = s] leaves: one text node, or none
    for the empty string. *)
Definition text_nodes (s : jsstring) : M (list node) :=
  match s with
  | [] => ret []
  | _ => fun w => (inl [Text (next_node w) s], with_next_node (S (next_node w)) w)
  end.

(** [n.textContent = s] on a local node and on an element of the
    document. *)
Definition with_textContent (s : jsstring) (n : node) : M node :=
  let* kids := text_nodes s in
  ret (match n with
       | Elem i e _ => Elem i e kids
       | Text _ _ => n
       end).

Definition set_textContent (i : node_id) (s : jsstring) : M unit :=
  let* kids := text_nodes s in
  modify (with_document (alter_children i (fun _ => kids))).

(** [el.innerHTML = html], [kids] being the nodes [html] parses to. *)
Definition set_innerHTML (i : node_id) (kids : list node) : M unit :=
  modify (with_document (alter_children i (fun _ => kids))).

(** [parent.appendChild(c)] *)
Definition appendChild (p : node_id) (c : node) : M unit :=
  modify (with_document (alter_children p (put_before c None))).

(** [parent.insertBefore(c, r)]: [r] must be a child of [parent] or
    [null]. *)
Definition insertBefore (p : node_id) (c : node) (r : option node_id) : M unit :=
  fun w =>
    let kids := match find_node p (document w) with
                | Some n => children_of n
                | None => []
                end in
    match r with
    | Some i =>
        if existsb (fun k => Nat.eqb (id_of k) i) kids
        then modify (with_document (alter_children p (put_before c r))) w
        else throw (DOMException "NotFoundError") w
    | None => modify (with_document (alter_children p (put_before c r))) w
    end.

(** [el.remove()] *)
Definition remove (i : node_id) : M unit :=
  modify (with_document (detach i)).

(** [el.focus()]: the element becomes the active element if it can
    take focus, and nothing happens otherwise. *)
Definition focus (i : node_id) : M unit :=
  modify (fun w => if focusable w (document w) i
                   then with_activeElement (Some i) w else w).

(** [target.addEventListener(type, h)] *)
Definition addEventListener (t : target) (ty : string) (h : handler) : M unit :=
  modify (fun w => with_listeners (listeners w ++ [Listener t ty h]) w).

(** [setTimeout(cb, delay)] *)
Definition setTimeout (cb : callback) (delay : nat) : M nat :=
  fun w => (inl (next_timer w),
            with_timers (S (next_timer w))
              (timers w ++ [Timer (next_timer w) (now w + delay) cb]) w).

(** [e.preventDefault()] *)
Definition preventDefault : M unit := modify (with_prevented true).

Definition console_log (msg : jsstring) : M unit :=
  modify (fun w => with_console (console w ++ [Log msg]) w).

(** [URL.createObjectURL(file)] and [URL.revokeObjectURL(url)] *)
Definition createObjectURL (f : file) : M jsstring :=
  fun w => let url := lit "blob:" ++ of_nat (next_url w) in
           (inl url, with_object_urls (S (next_url w)) (object_urls w ++ [url]) w).

Definition revokeObjectURL (url : jsstring) : M unit :=
  modify (fun w => with_object_urls (next_url w)
                     (List.filter (fun u => negb (jsstring_eqb u url)) (object_urls w)) w).

(** [document.body]: the first [body] child of the root element. *)
Definition body : M (option node_id) :=
  gets (fun w => ent_id <$>
          List.find (fun x => String.eqb (tagName (ent_elem x)) "body")
            (List.flat_map (fun k => match k with
                                     | Elem i e _ => [Entry i e []]
                                     | Text _ _ => []
                                     end) (children_of (document w)))).

(** *** Event handlers and timer callbacks *)

(** What the handlers read of an event object. *)
Record event := Event { key : jsstring; event_target : target }.

(** [this] inside a handler attached to an element. *)
Definition this_element (this : target) : M node_id :=
  match this with
  | Node i => ret i
  | _ => throw (TypeError "not an element")
  end.

(** [isInputFocused()] *)
Definition isInputFocused : M bool :=
  let* active := gets activeElement in
  match active with
  | Some a =>
      prop a (fun e => String.eqb (tagName e) "input"
                       || String.eqb (tagName e) "textarea"
                       || String.eqb (tagName e) "select"
                       || isContentEditable e)
  | None => ret false
  end.

Section Handlers.

(** [current > maxLength * 0.9], [maxLength] being the attribute string
    or 1000: a floating-point comparison after a string-to-number
    conversion, left abstract. *)
Variable near_limit : nat -> jsstring -> bool.

Definition run_handler (h : handler) (this : target) (e : event) : M unit :=
  match h with
  | OnSearchInput => ret tt
  | OnSearchSubmit input =>
      let* v := prop input value in
      match trim v with
      | [] => preventDefault ;; focus input
      | _ => ret tt
      end
  | OnSlashKey =>
      let* focused := isInputFocused in
      if jsstring_eqb (key e) (lit "/") && negb focused then
        preventDefault ;;
        let* mainSearch := querySelector sel_navbar_search in
        match mainSearch with
        | Some i => focus i
        | None => ret tt
        end
      else ret tt
  | OnReplyClick =>
      let* btn := this_element this in
      let* commentId := prop btn (fun e => attrs e !! "data-comment-id") in
      let* replyForm :=
        getElementById (lit "reply-form-" ++ default (lit "undefined") commentId) in
      match replyForm with
      | Some f =>
          set f (toggle_class "d-none") ;;
          let* hidden := prop f (has_class "d-none") in
          if negb hidden then
            let* input := querySelectorIn f sel_content_input in
            match input with
            | Some i => focus i
            | None => ret tt
            end
          else ret tt
      | None => ret tt
      end
  | OnCommentInput maxLength =>
      let* textarea := this_element this in
      let* counter := nextElementSibling textarea in
      match counter with
      | Some c =>
          let* is_counter := prop c (has_class "char-counter") in
          if is_counter then
            let* current := prop textarea (fun e => length (value e)) in
            set_textContent c (of_nat current ++ lit "/" ++ maxLength) ;;
            if near_limit current maxLength
            then set c (add_class "text-danger")
            else set c (remove_class "text-danger")
          else ret tt
      | None => ret tt
      end
  | OnImageChange =>
      let* input := this_element this in
      let* tgt := this_element (event_target e) in
      let* selected := prop tgt files in
      match selected with
      | f :: _ =>
          if starts_with (lit "image/") (file_type f) then
            let* parent := parentNode input in
            let* p := deref parent in
            let* found := querySelectorIn p sel_image_preview in
            let* preview :=
              match found with
              | Some i => ret i
              | None =>
                  let* d := createElement "div" in
                  appendChild p (edit (set_classList ["image-preview"; "mt-2"]) d) ;;
                  ret (id_of d)
              end in
            let* img := createElement "img" in
            let* url := createObjectURL f in
            addEventListener (Node (id_of img)) "load" OnPreviewLoad ;;
            set_innerHTML preview [] ;;
            appendChild preview
              (edit (set_style "max-height" (lit "200px"))
                 (edit (set_classList ["img-thumbnail"])
                    (edit (set_attr "src" url) img))) ;;
            let* fileName := createElement "small" in
            let* fileName :=
              with_textContent (file_name f)
                (edit (set_classList ["d-block"; "text-muted"; "mt-1"]) fileName) in
            appendChild preview fileName
          else ret tt
      | [] => ret tt
      end
  | OnPreviewLoad =>
      let* img := this_element this in
      let* src := prop img (fun e => attrs e !! "src") in
      revokeObjectURL (default [] src)
  | OnScroll button =>
      let* y := gets scrollY in
      if y >? 300
      then set button (set_style "display" (lit "block"))
      else set button (set_style "display" (lit "none"))
  | OnScrollTopClick => modify (with_scrollY 0)
  | OnMouseEnter =>
      let* button := this_element this in
      set button (set_style "opacity" (lit "1"))
  | OnMouseLeave =>
      let* button := this_element this in
      set button (set_style "opacity" (lit "0.8"))
  | OnMetaInput charCount =>
      let* metaDesc := this_element this in
      let* n := value_length metaDesc in
      set_textContent charCount (length_text n)
  end.

(** An exception that leaves a listener is reported on the console and
    the remaining listeners still run. *)
Definition report (err : error) : M unit :=
  modify (fun w => with_console (console w ++ [Error (lit "Uncaught") err]) w).

(** Dispatch an event of type [ty] at [t]: its listeners run in
    registration order on a fresh event object. *)
Definition dispatch (t : target) (ty : string) (e : event) : M unit :=
  modify (with_prevented false) ;;
  let* ls := gets listeners in
  forEach
    (List.filter (fun l => target_eqb (on l) t && String.eqb (type l) ty) ls)
    (fun l => try_catch (run_handler (run l) t e) report).

End Handlers.

Definition run_callback (cb : callback) : M unit :=
  match cb with
  | AutoHide alert =>
      let* global := gets bootstrap in
      match global with
      | NoGlobal => throw (ReferenceError "bootstrap is not defined")
      | NoAlert => throw (TypeError "Cannot read properties of undefined")
      | Loaded instance =>
          if instance alert then
            modify (fun w => with_closed (closed w ++ [alert]) w)
          else
            set alert (set_style "transition" (lit "opacity 0.3s")) ;;
            set alert (set_style "opacity" (lit "0")) ;;
            let* _ := setTimeout (RemoveAlert alert) 300 in
            ret tt
      end
  | RemoveAlert alert => remove alert
  end.

(** *** The initializers *)

(** 2. Search enhancement *)
Definition initSearchEnhancement : M unit :=
  let* searchInputs := querySelectorAll sel_search_inputs in
  forEach searchInputs (fun input =>
    addEventListener (Node input) "input" OnSearchInput ;;
    let* form := closest input sel_form in
    match form with
    | Some f => addEventListener (Node f) "submit" (OnSearchSubmit input)
    | None => ret tt
    end) ;;
  addEventListener Document "keydown" OnSlashKey.

(** [textarea.getAttribute('maxlength') || 1000], as the template
    literals print it: the empty string is falsy too. *)
Definition maxLength_of (e : element) : jsstring :=
  match attrs e !! "maxlength" with
  | Some (c :: s) => c :: s
  | _ => lit "1000"
  end.

(** The body of [commentTextareas.forEach]. *)
Definition attach_counter (textarea : node_id) : M unit :=
  let* maxLength := prop textarea maxLength_of in
  let* next := nextElementSibling textarea in
  let* present :=
    match next with
    | Some n => prop n (has_class "char-counter")
    | None => ret false
    end in
  (if negb present then
     let* counter := createElement "small" in
     let* counter :=
       with_textContent (lit "0/" ++ maxLength)
         (edit (set_classList ["char-counter"; "text-muted"; "d-block"; "text-end"])
            counter) in
     let* parent := parentNode textarea in
     let* p := deref parent in
     let* r := nextSibling textarea in
     insertBefore p counter r
   else ret tt) ;;
  addEventListener (Node textarea) "input" (OnCommentInput maxLength).

(** 3. Comment system *)
Definition initCommentSystem : M unit :=
  let* replyButtons := querySelectorAll sel_reply_btn in
  forEach replyButtons (fun btn =>
    addEventListener (Node btn) "click" OnReplyClick) ;;
  let* commentTextareas := querySelectorAll sel_content_textarea in
  forEach commentTextareas attach_counter.

(** 4. Image preview *)
Definition initImagePreview : M unit :=
  let* imageInputs := querySelectorAll sel_image_inputs in
  forEach imageInputs (fun input =>
    addEventListener (Node input) "change" OnImageChange).

(** The declarations of the button's [cssText]. *)
Definition scroll_button_css : list (string * jsstring) :=
  [("position", lit "fixed"); ("bottom", lit "20px"); ("right", lit "20px");
   ("width", lit "45px"); ("height", lit "45px"); ("border-radius", lit "50%");
   ("display", lit "none"); ("z-index", lit "1000"); ("opacity", lit "0.8");
   ("transition", lit "opacity 0.2s")].

(** 5. Scroll to top *)
Definition initScrollToTop : M unit :=
  let* button := createElement "button" in
  let* icon := createElement "i" in
  let button :=
    edit (set_cssText scroll_button_css)
      (edit (set_attr "aria-label" (lit "Scroll to top"))
         (edit (set_classList ["btn"; "btn-primary"; "btn-scroll-top"])
            (Elem (id_of button) (blank "button")
               [edit (set_classList ["bi"; "bi-arrow-up"]) icon]))) in
  let* b := body in
  let* b := deref b in
  appendChild b button ;;
  addEventListener Window "scroll" (OnScroll (id_of button)) ;;
  addEventListener (Node (id_of button)) "click" OnScrollTopClick ;;
  addEventListener (Node (id_of button)) "mouseenter" OnMouseEnter ;;
  addEventListener (Node (id_of button)) "mouseleave" OnMouseLeave.

(** 6. Auto-hide alerts *)
Definition initAutoHideAlerts : M unit :=
  let* alerts := querySelectorAll sel_alerts in
  forEach alerts (fun alert =>
    let* _ := setTimeout (AutoHide alert) 5000 in
    ret tt).

(** 7. Character counters *)
Definition initCharacterCounters : M unit :=
  let* metaDesc := getElementById (lit "id_meta_description") in
  let* charCount := getElementById (lit "meta-char-count") in
  match metaDesc, charCount with
  | Some m, Some c =>
      let* n := value_length m in
      set_textContent c (length_text n) ;;
      addEventListener (Node m) "input" (OnMetaInput c)
  | _, _ => ret tt
  end.

(** 1. The [DOMContentLoaded] listener *)
Definition main : M unit :=
  console_log (lit "Blog CMS JavaScript loaded") ;;
  initSearchEnhancement ;;
  initCommentSystem ;;
  initImagePreview ;;
  initScrollToTop ;;
  initAutoHideAlerts ;;
  initCharacterCounters.

(** [initCommentSystem] run [n] times in a row. *)
Fixpoint initCommentSystem_times (n : nat) : M unit :=
  match n with
  | O => ret tt
  | S n' => initCommentSystem ;; initCommentSystem_times n'
  end.

(** *** Auxiliary notions *)

(** The effect of [update i f] on an ancestor and on an entry. *)
Definition upd_pair (i : node_id) (f : element -> element)
    (p : node_id * element) : node_id * element :=
  (fst p, if Nat.eqb (fst p) i then f (snd p) else snd p).

Definition upd_entry (i : node_id) (f : element -> element) (x : entry) : entry :=
  Entry (ent_id x)
    (if Nat.eqb (ent_id x) i then f (ent_elem x) else ent_elem x)
    (List.map (upd_pair i f) (ent_ancestors x)).

(** The listeners [initSearchEnhancement] registers for one search
    input. *)
Definition search_listeners (root : node) (input : node_id) : list listener :=
  Listener (Node input) "input" OnSearchInput ::
  match closest_in input sel_form root with
  | Some f => [Listener (Node f) "submit" (OnSearchSubmit input)]
  | None => []
  end.

(** The search inputs of the document [root] whose closest form is
    [form]: the inputs whose submit listener is put on [form]. *)
Definition search_inputs_of (form : node_id) (root : node) : list node_id :=
  List.filter (fun i => bool_decide (closest_in i sel_form root = Some form))
    (select sel_search_inputs (elements_in [] root)).

(** The submit listeners on [form], in registration order: what a
    submit event dispatched at the form runs. *)
Definition submit_listeners (form : node_id) (w : world) : list listener :=
  List.filter
    (fun x => target_eqb (on x) (Node form) && String.eqb (type x) "submit")
    (listeners w).

(** The value of the element [i] is empty once trimmed. *)
Definition blank_query (w : world) (i : node_id) : bool :=
  match trim (value (element_at i w)) with
  | [] => true
  | _ :: _ => false
  end.


(** What the page looks like to [initCharacterCounters] once the
    initializers before it have run on [w]: the elements found by
    their [id] and the data of the elements of [w] are those of [w]. *)
Definition same_lookups (w x : world) : Prop :=
  (next_node w <= next_node x)%nat /\
  (forall s, List.find (has_id s) (elements_in [] (document x)) =
             List.find (has_id s) (elements_in [] (document w))) /\
  (forall j, In j (ids (document w)) ->
             entry_of j (document x) = entry_of j (document w)).


(** The timers [initAutoHideAlerts] adds for the alerts [l], the first
    with handle [k], at time [t0]. *)
Fixpoint alert_timers (k t0 : nat) (l : list node_id) : list timer :=
  match l with
  | [] => []
  | a :: l' => Timer k (t0 + 5000) (AutoHide a) :: alert_timers (S k) t0 l'
  end.

(** An element with class [alert] and without class [alert-permanent]. *)
Definition dismissible (x : entry) : bool :=
  has_class "alert" (ent_elem x) && negb (has_class "alert-permanent" (ent_elem x)).

(** The button [initScrollToTop] builds, [i] being the identity of the
    next node created. *)
Definition scroll_button (i : node_id) : node :=
  Elem i
    (set_cssText scroll_button_css
       (set_attr "aria-label" (lit "Scroll to top")
          (set_classList ["btn"; "btn-primary"; "btn-scroll-top"] (blank "button"))))
    [Elem (S i) (set_classList ["bi"; "bi-arrow-up"] (blank "i")) []].

(** *** The document as the comment counters see it *)

(** Put [c] right after the child [t] of a list of children. *)
Fixpoint insert_after_list (t : node_id) (c : node) (l : list node) : list node :=
  match l with
  | [] => []
  | k :: l' =>
      if Nat.eqb (id_of k) t then k :: c :: l'
      else k :: insert_after_list t c l'
  end.

(** Put [c] right after the node [t], wherever it is below [n]. *)
Fixpoint insert_after (t : node_id) (c : node) (n : node) : node :=
  match n with
  | Text _ _ => n
  | Elem i e kids =>
      if existsb (fun k => Nat.eqb (id_of k) t) kids
      then Elem i e (insert_after_list t c kids)
      else Elem i e (List.map (insert_after t c) kids)
  end.

(** The next element sibling of [t] has the class [char-counter]. *)
Definition counted (t : node_id) (n : node) : bool :=
  match following t n with
  | Some l =>
      match first_element l with
      | Some (_, e) => has_class "char-counter" e
      | None => false
      end
  | None => false
  end.

(** The counter element [attach_counter] builds, [i] being the identity
    of the next node created. *)
Definition counter_node (i : node_id) (maxLength : jsstring) : node :=
  Elem i
    (set_classList ["char-counter"; "text-muted"; "d-block"; "text-end"] (blank "small"))
    [Text (S i) (lit "0/" ++ maxLength)].

(** The identities of the text nodes of a subtree. *)
Fixpoint text_ids (n : node) : list node_id :=
  match n with
  | Text i _ => [i]
  | Elem _ _ kids => List.flat_map text_ids kids
  end.

Fixpoint distinct (l : list node_id) : bool :=
  match l with
  | [] => true
  | i :: l' => negb (existsb (Nat.eqb i) l') && distinct l'
  end.

(** A document as a browser builds it: no two nodes share an identity,
    the identities of new nodes are not in use, and the root is the
    [html] element. *)
Definition well_formed (w : world) : bool :=
  distinct (ids (document w))
  && forallb (fun i => Nat.ltb i (next_node w)) (ids (document w))
  && match document w with
     | Elem _ e _ => String.eqb (tagName e) "html"
     | Text _ _ => false
     end.

(** *** Sample pages *)

Section Samples.

Local Open Scope nat_scope.

Definition el (tag : string) (classes : list string)
    (attributes : list (string * jsstring)) : element :=
  {| tagName := tag; attrs := list_to_map attributes; classList := classes;
     style := ∅; value := []; files := []; isContentEditable := false |}.

Definition with_value (v : jsstring) (e : element) : element :=
  {| tagName := tagName e; attrs := attrs e; classList := classList e;
     style := style e; value := v; files := files e;
     isContentEditable := isContentEditable e |}.

Definition with_files (fs : list file) (e : element) : element :=
  {| tagName := tagName e; attrs := attrs e; classList := classList e;
     style := style e; value := value e; files := fs;
     isContentEditable := isContentEditable e |}.

(** The elements that can take focus on the sample pages: those that
    are not disabled and not inside an element hidden by the class
    [d-none]. *)
Definition shown (root : node) (i : node_id) : bool :=
  match entry_of i root with
  | Some x =>
      negb (bool_decide (is_Some (attrs (ent_elem x) !! "disabled")))
      && negb (has_class "d-none" (ent_elem x))
      && forallb (fun a => negb (has_class "d-none" (snd a))) (ent_ancestors x)
  | None => false
  end.

Definition page_of (root : node) (next : node_id) (global : framework) : world :=
  {| document := root; next_node := next; activeElement := None; listeners := [];
     now := 0; next_timer := 1; timers := []; prevented := false; scrollY := 0%Z;
     console := []; object_urls := []; next_url := 0; bootstrap := global;
     closed := []; focusable := shown |}.



(** A post page: the navbar search form, two alerts, a comment with its
    reply form, the comment form, an image input and the meta
    description with its counter. *)
Definition post_document : node :=
  Elem 0 (el "html" [] [])
    [Elem 1 (el "body" [] [])
       [Elem 2 (el "nav" ["navbar"] [])
          [Elem 3 (el "form" [] [])
             [Elem 4 (with_value (lit "  ")
                        (el "input" [] [("type", lit "search"); ("name", lit "q")])) []]];
        Elem 5 (el "div" ["alert"; "alert-success"] []) [Text 6 (lit "Saved")];
        Elem 7 (el "div" ["alert"; "alert-permanent"] []) [];
        Elem 8 (el "div" ["comment"] [])
          [Elem 9 (el "button" ["reply-btn"] [("data-comment-id", lit "42")]) [];
           Elem 10 (el "form" ["d-none"] [("id", lit "reply-form-42")])
             [Elem 11 (el "input" [] [("name", lit "content")]) []]];
        Elem 12 (el "form" [] [])
          [Elem 13 (el "textarea" [] [("name", lit "content"); ("maxlength", lit "500")]) [];
           Text 14 (lit " ");
           Elem 15 (el "button" [] []) []];
        Elem 16 (with_files [File (lit "notes.txt") (lit "text/plain")]
                   (el "input" [] [("type", lit "file"); ("accept", lit "image/*")])) [];
        Elem 17 (with_value (lit "hello")
                   (el "textarea" [] [("id", lit "id_meta_description")])) [];
        Elem 18 (el "span" [] [("id", lit "meta-char-count")]) []]].

Definition post_page (global : framework) : world := page_of post_document 19 global.

(** A search form with two fields: a query typed into the first, and a
    second one that is empty and disabled. *)
Definition two_queries_document : node :=
  Elem 0 (el "html" [] [])
    [Elem 1 (el "body" [] [])
       [Elem 2 (el "form" [] [])
          [Elem 3 (with_value (lit "django") (el "input" [] [("type", lit "search")])) [];
           Elem 4 (el "input" [] [("name", lit "q"); ("disabled", lit "")]) []]]].

Definition two_queries_page : world := page_of two_queries_document 5 NoGlobal.

(** A page whose meta description is shown in a [div], with its
    counter. *)
Definition shown_meta_document : node :=
  Elem 0 (el "html" [] [])
    [Elem 1 (el "body" [] [])
       [Elem 2 (el "div" [] [("id", lit "id_meta_description")])
          [Text 3 (lit "About this post")];
        Elem 4 (el "span" [] [("id", lit "meta-char-count")]) []]].

Definition shown_meta_page : world := page_of shown_meta_document 5 NoGlobal.

End Samples.

(** *** Reading text back *)

(** The text of a subtree: the data of its text nodes in document
    order. *)
Fixpoint text_of (n : node) : jsstring :=
  match n with
  | Text _ s => s
  | Elem _ _ kids => List.flat_map text_of kids
  end.

(** [el.textContent] of the node [i] of the document. *)
Definition textContent (i : node_id) (w : world) : option jsstring :=
  text_of <$> find_node i (document w).

(** [tagName] of a field in which the user types. *)
Definition is_field (e : element) : bool :=
  String.eqb (tagName e) "input" || String.eqb (tagName e) "textarea"
  || String.eqb (tagName e) "select" || isContentEditable e.

(** The [id] the click listener of the reply button [btn] looks for:
    ['reply-form-' + this.dataset.commentId]. *)
Definition reply_form_id (btn : node_id) (w : world) : jsstring :=
  lit "reply-form-"
    ++ default (lit "undefined") (attrs (element_at btn w) !! "data-comment-id").

(** [document.body] as a function of the document. *)
Definition body_in (root : node) : option node_id :=
  ent_id <$>
    List.find (fun x => String.eqb (tagName (ent_elem x)) "body")
      (List.flat_map (fun k => match k with
                               | Elem i e _ => [Entry i e []]
                               | Text _ _ => []
                               end) (children_of root)).

End Page.

(** * Properties *)

(** ** The relative-time formatter *)

Module TimeAgoProps.

Import TimeAgo.

Example timeAgo_one_minute toLocale :
  timeAgo toLocale 1700000060000 (Some 1700000000000) = lit "1 minute ago".
Proof. reflexivity. Qed.

Example timeAgo_future toLocale :
  timeAgo toLocale 1700000000000 (Some 1700000999000) = lit "just now".
Proof. reflexivity. Qed.

Example timeAgo_invalid toLocale :
  timeAgo toLocale 1700000000000 NaN = toLocale NaN.
Proof. reflexivity. Qed.

(** The differences the formatter computes from a known distance. *)
Lemma timeAgo_distance toLocale now past :
  timeAgo toLocale now (Some past) =
    let d := now - past in
    if d / 1000 <? 60 then lit "just now"
    else if d / 1000 / 60 <? 60 then phrase (Some (d / 1000 / 60)) "minute"
    else if d / 1000 / 60 / 60 <? 24 then phrase (Some (d / 1000 / 60 / 60)) "hour"
    else if d / 1000 / 60 / 60 / 24 <? 7
         then phrase (Some (d / 1000 / 60 / 60 / 24)) "day"
    else toLocale (Some past).
Proof. reflexivity. Qed.

(** C1. A date 30 seconds before now reads "just now", 5 minutes
    "5 minutes ago", 2 hours "2 hours ago", 3 days "3 days ago", and a
    date 10 days before now is printed by [toLocaleDateString], the
    calendar date of the host locale, not as a relative phrase. *)
Theorem timeAgo_fixed_deltas (toLocale : number -> jsstring) (past : Z) :
  timeAgo toLocale (past + 30 * 1000) (Some past) = lit "just now" /\
  timeAgo toLocale (past + 5 * 60 * 1000) (Some past) = lit "5 minutes ago" /\
  timeAgo toLocale (past + 2 * 60 * 60 * 1000) (Some past) = lit "2 hours ago" /\
  timeAgo toLocale (past + 3 * 24 * 60 * 60 * 1000) (Some past) = lit "3 days ago" /\
  timeAgo toLocale (past + 10 * 24 * 60 * 60 * 1000) (Some past) = toLocale (Some past).
Proof.
  repeat split; rewrite timeAgo_distance;
    match goal with
    | |- context [past + ?k - past] =>
        replace (past + k - past) with k by lia
    end; reflexivity.
Qed.

End TimeAgoProps.

(** ** The clipboard helper *)

Module ClipboardProps.

Import JS Clipboard.

Example copy_denied :
  let b := Browser [] (lit "old") 0 (fun _ => Some (DOMException "NotAllowedError")) in
  copyToClipboard (lit "text") b =
    (Fulfilled,
     Browser [Error (lit "Failed to copy:") (DOMException "NotAllowedError")]
       (lit "old") 1 (denied b)).
Proof. reflexivity. Qed.

(** C3. Whatever the text and whatever the clipboard does, the promise
    of [copyToClipboard] is fulfilled.  When the write fails, the error
    is logged once with [console.error], the clipboard is left as it
    was and [writeText] has been called exactly once: nothing is
    retried and nothing reaches the caller. *)
Theorem copyToClipboard_never_rejects (text : jsstring) (b : browser) :
  copyToClipboard text b =
    (Fulfilled,
     match denied b (writes b) with
     | Some err =>
         {| console := console b ++ [Error (lit "Failed to copy:") err];
            clipboard := clipboard b;
            writes := S (writes b); denied := denied b |}
     | None =>
         {| console := console b ++ [Log (lit "Copied to clipboard")];
            clipboard := text;
            writes := S (writes b); denied := denied b |}
     end).
Proof.
  unfold copyToClipboard, async, try_catch, bind, writeText.
  destruct (denied b (writes b)); reflexivity.
Qed.

End ClipboardProps.

(** ** The debounce closure *)

Module DebounceProps.

Import Debounce.

Section WithArgs.

Context {A : Type}.
Implicit Types (s : state A) (tm : timer A) (cs : list (nat * A)).

Lemma earliest_In (l : list (timer A)) tm :
  earliest l = Some tm -> In tm l /\ Forall (fun x => (due tm <= due x)%nat) l.
Proof.
  revert tm. induction l as [|x l IH]; intros tm; simpl; [discriminate|].
  destruct (earliest l) as [tm'|] eqn:E.
  - destruct (IH tm' eq_refl) as [Hin Hall].
    destruct (Nat.ltb_spec (due tm') (due x)); intros [= <-].
    + split; [now right|]. constructor; [lia|assumption].
    + split; [now left|]. constructor; [lia|].
      eapply List.Forall_impl; [|exact Hall]. simpl. intros; lia.
  - intros [= <-]. split; [now left|].
    destruct l as [|y l]; [constructor; [lia|constructor]|].
    simpl in E. destruct (earliest l); [destruct (Nat.ltb _ _)|]; discriminate.
Qed.

Lemma earliest_None (l : list (timer A)) : earliest l = None -> l = [].
Proof.
  destruct l as [|x l]; [reflexivity|]. simpl.
  destruct (earliest l) as [tm'|]; [destruct (Nat.ltb _ _)|]; discriminate.
Qed.

Lemma pending_clearTimeout h s :
  pending (clearTimeout h s) =
    match h with
    | Some k => List.filter (fun tm => negb (Nat.eqb (handle tm) k)) (pending s)
    | None => pending s
    end.
Proof. destruct h; reflexivity. Qed.

Lemma length_filter_le {X} (p : X -> bool) (l : list X) :
  (length (List.filter p l) <= length l)%nat.
Proof. induction l; simpl; [lia|]. destruct (p a); simpl; lia. Qed.

Lemma length_filter_lt {X} (p : X -> bool) (l : list X) x :
  In x l -> p x = false -> (length (List.filter p l) < length l)%nat.
Proof.
  induction l as [|y l IH]; simpl; [tauto|]. intros [->|Hin] Hp.
  - rewrite Hp. pose proof (length_filter_le p l). lia.
  - specialize (IH Hin Hp). destruct (p y); simpl; lia.
Qed.

(** Firing a pending timer shortens the queue. *)
Lemma fire_shrinks tm s :
  In tm (pending s) -> (length (pending (fire tm s)) < length (pending s))%nat.
Proof.
  intros Hin. unfold fire, later, func. simpl.
  rewrite pending_clearTimeout. simpl.
  assert (length (List.filter (fun x => negb (Nat.eqb (handle x) (handle tm))) (pending s))
          < length (pending s))%nat as Hlt.
  { eapply length_filter_lt; [exact Hin|]. now rewrite Nat.eqb_refl. }
  destruct (timeout s); [|exact Hlt].
  eapply Nat.le_lt_trans; [apply length_filter_le|exact Hlt].
Qed.

Lemma run_timers_settles n t s :
  (length (pending s) <= n)%nat ->
  Forall (fun tm => (t < due tm)%nat) (pending (run_timers n t s)).
Proof.
  revert s. induction n as [|n IH]; intros s Hn; simpl.
  - destruct (pending s); [constructor|simpl in Hn; lia].
  - destruct (earliest (pending s)) as [tm|] eqn:E.
    + destruct (earliest_In _ _ E) as [Hin Hall].
      destruct (Nat.leb_spec (due tm) t).
      * apply IH. pose proof (fire_shrinks tm s Hin). lia.
      * eapply List.Forall_impl; [|exact Hall]. simpl. intros; lia.
    + rewrite (earliest_None _ E). constructor.
Qed.

(** The event loop has enough steps: once time has passed until [t], no
    pending timer is due at [t] or before. *)
Lemma advance_settles t s :
  Forall (fun tm => (t < due tm)%nat) (pending (advance t s)).
Proof. unfold advance. simpl. now apply run_timers_settles. Qed.

(** Time passes until a call that comes before the pending timer is
    due: nothing fires. *)
Lemma advance_armed t s :
  armed_after t s ->
  advance t s =
    {| clock := t; fresh := fresh s; pending := pending s;
       timeout := timeout s; invoked := invoked s |}.
Proof.
  intros [Hc [Hp|(h & d & a & Hp & _ & Hd)]]; unfold advance; rewrite Hp; simpl.
  - rewrite Hp. f_equal. lia.
  - rewrite Hp. simpl. destruct (Nat.leb_spec d t); [lia|].
    rewrite Hp. f_equal. lia.
Qed.





End WithArgs.

Example debounce_three_calls :
  invoked (advance 1000
             (calls 100 [(0, "a"); (50, "b"); (120, "c")]%nat (debounce 0)))
  = [(220, "c")]%nat.
Proof. reflexivity. Qed.

Example debounce_two_bursts :
  invoked (advance 1000
             (calls 100 [(0, "a"); (50, "b"); (400, "c"); (450, "d")]%nat (debounce 0)))
  = [(150, "b"); (550, "d")]%nat.
Proof. reflexivity. Qed.




End DebounceProps.

(** ** Blank strings *)

Module JSStringProps.

Lemma trimStart_nil (s : jsstring) :
  trimStart s = [] <-> forallb is_space s = true.
Proof.
  induction s as [|c s IH]; simpl; [tauto|].
  destruct (is_space c); simpl; [exact IH|].
  split; discriminate.
Qed.

Lemma trimStart_head (s : jsstring) c r :
  trimStart s = c :: r -> is_space c = false.
Proof.
  induction s as [|d s IH]; simpl; [discriminate|].
  destruct (is_space d) eqn:E; [exact IH|]. now intros [= <- _].
Qed.

(** [trim] leaves nothing exactly when every code unit is white space. *)
Lemma trim_nil (s : jsstring) :
  trim s = [] <-> forallb is_space s = true.
Proof.
  unfold trim, trimEnd. rewrite <- trimStart_nil.
  split.
  - intros H. apply (f_equal (@List.rev N)) in H. rewrite List.rev_involutive in H.
    simpl in H. apply trimStart_nil in H. rewrite forallb_forall in H.
    destruct (trimStart s) as [|c r] eqn:E; [reflexivity|].
    pose proof (trimStart_head _ _ _ E) as Hc.
    rewrite (H c) in Hc; [discriminate|]. rewrite <- in_rev. now left.
  - intros ->. reflexivity.
Qed.

Example trim_padded : trim (lit "  django tips ") = lit "django tips".
Proof. reflexivity. Qed.

Example trim_blank : trim (9 :: 160 :: 8232 :: lit "  ")%N = [].
Proof. reflexivity. Qed.

End JSStringProps.

(** ** The page *)

Module PageProps.

Import JS JS.Notations Page.

(** *** Evaluation of computations *)

Lemma forEach_app {S X} (l1 l2 : list X) (body : X -> JS.M S unit) s :
  forEach (l1 ++ l2) body s =
    match forEach l1 body s with
    | (inl _, s') => forEach l2 body s'
    | (inr e, s') => (inr e, s')
    end.
Proof.
  revert s. induction l1 as [|x l1 IH]; intros s; simpl; [reflexivity|].
  unfold bind. destruct (body x s) as [[[]|e] s']; [apply IH|reflexivity].
Qed.

(** Induction on trees, with the hypothesis for all the children. *)
Lemma node_induction (P : node -> Prop) :
  (forall i s, P (Text i s)) ->
  (forall i e kids, Forall P kids -> P (Elem i e kids)) ->
  forall n, P n.
Proof.
  intros HT HE. fix IH 1. intros [i s|i e kids]; [apply HT|].
  apply HE. induction kids as [|k kids IHk]; constructor; [apply IH|exact IHk].
Qed.

(** *** The search form: blank queries *)

Section WithNearLimit.

Variable near_limit : nat -> jsstring -> bool.

(** The submit listener, as a function of the query. *)
Lemma run_OnSearchSubmit input this e w :
  run_handler near_limit (OnSearchSubmit input) this e w =
    match trim (value (element_at input w)) with
    | [] => (inl tt,
             if focusable w (document w) input
             then with_activeElement (Some input) (with_prevented true w)
             else with_prevented true w)
    | _ => (inl tt, w)
    end.
Proof.
  unfold run_handler, bind, prop, gets, focus, preventDefault, modify.
  destruct (trim (value (element_at input w))); reflexivity.
Qed.

Lemma forEach_search_inputs (l : list node_id) : forall w,
  forEach l (fun input =>
    addEventListener (Node input) "input" OnSearchInput ;;
    let* form := closest input sel_form in
    match form with
    | Some f => addEventListener (Node f) "submit" (OnSearchSubmit input)
    | None => ret tt
    end) w =
  (inl tt,
   with_listeners
     (listeners w ++ List.flat_map (search_listeners (document w)) l) w).
Proof.
  induction l as [|i l IH]; intros w; simpl.
  - unfold ret, with_listeners. rewrite List.app_nil_r. now destruct w.
  - unfold bind, addEventListener, modify, closest, gets, ret in *. simpl.
    unfold search_listeners at 1.
    destruct (closest_in i sel_form (document w)) as [f|];
      rewrite IH; unfold with_listeners; simpl;
      rewrite <- !List.app_assoc; reflexivity.
Qed.

(** What [initSearchEnhancement] does. *)
Lemma run_initSearchEnhancement w :
  initSearchEnhancement w =
    (inl tt,
     with_listeners
       (listeners w
          ++ List.flat_map (search_listeners (document w))
               (select sel_search_inputs (elements_in [] (document w)))
          ++ [Listener Document "keydown" OnSlashKey]) w).
Proof.
  unfold initSearchEnhancement, bind at 1, querySelectorAll, gets.
  unfold bind. rewrite forEach_search_inputs.
  unfold addEventListener, modify, with_listeners. simpl.
  now rewrite <- List.app_assoc.
Qed.

(** The submit listeners that [initSearchEnhancement] puts on a form
    are those of its search inputs, in document order. *)
Lemma submit_listeners_of form root (l : list node_id) :
  List.filter
    (fun x => target_eqb (on x) (Node form) && String.eqb (type x) "submit")
    (List.flat_map (search_listeners root) l
       ++ [Listener Document "keydown" OnSlashKey]) =
  List.map (fun i => Listener (Node form) "submit" (OnSearchSubmit i))
    (List.filter (fun i => bool_decide (closest_in i sel_form root = Some form)) l).
Proof.
  induction l as [|i l IH]; [reflexivity|].
  cbn [List.flat_map]. rewrite <- List.app_assoc, List.filter_app, IH.
  cbn [List.filter]. unfold search_listeners.
  cbn [List.filter on type target_eqb]. rewrite andb_false_r.
  destruct (closest_in i sel_form root) as [f|];
    [|rewrite bool_decide_eq_false_2 by discriminate; reflexivity].
  cbn [List.filter on type target_eqb]. rewrite andb_true_r.
  destruct (Nat.eqb_spec f form) as [->|Hne].
  - rewrite bool_decide_eq_true_2 by reflexivity. reflexivity.
  - rewrite bool_decide_eq_false_2 by congruence. reflexivity.
Qed.

Lemma blank_query_document w w' :
  document w' = document w -> blank_query w' = blank_query w.
Proof.
  intros H. unfold blank_query, element_at. now rewrite H.
Qed.

(** The submit listeners of the search inputs, run one after the
    other: each blank input has the event prevented and takes the
    focus if it can. *)
Lemma run_submit_listeners form e (inputs : list node_id) : forall w1,
  exists w2,
    forEach
      (List.map (fun i => Listener (Node form) "submit" (OnSearchSubmit i)) inputs)
      (fun x => try_catch (run_handler near_limit (run x) (Node form) e) report) w1
      = (inl tt, w2) /\
    document w2 = document w1 /\
    prevented w2 = prevented w1 || existsb (blank_query w1) inputs /\
    activeElement w2 =
      match last (List.filter (focusable w1 (document w1))
                    (List.filter (blank_query w1) inputs)) with
      | Some i => Some i
      | None => activeElement w1
      end /\
    (List.filter (blank_query w1) inputs = [] -> w2 = w1).
Proof.
  induction inputs as [|i l IH]; intros w1.
  - exists w1. simpl. rewrite orb_false_r. repeat split.
  - cbn [List.map forEach run]. unfold bind at 1. unfold try_catch at 1.
    rewrite run_OnSearchSubmit. cbn [List.filter existsb].
    assert (blank_query w1 i = match trim (value (element_at i w1)) with
                               | [] => true
                               | _ :: _ => false
                               end) as Hb by reflexivity.
    destruct (trim (value (element_at i w1))) as [|c r]; rewrite Hb;
      cbv beta iota.
    + cbn [List.filter].
      destruct (focusable w1 (document w1) i) eqn:Hf.
      * destruct (IH (with_activeElement (Some i) (with_prevented true w1)))
          as (w2 & Hrun & Hd & Hp & Ha & _).
        rewrite (blank_query_document
                   w1 (with_activeElement (Some i) (with_prevented true w1)) eq_refl)
          in Hp, Ha.
        cbn [document focusable prevented activeElement with_activeElement
               with_prevented] in Hd, Hp, Ha.
        exists w2. split; [exact Hrun|]. split; [exact Hd|].
        split; [rewrite Hp; now rewrite orb_true_r|]. split; [|discriminate].
        rewrite Ha, last_cons.
        now destruct (last (List.filter (focusable w1 (document w1))
                              (List.filter (blank_query w1) l))).
      * destruct (IH (with_prevented true w1)) as (w2 & Hrun & Hd & Hp & Ha & _).
        rewrite (blank_query_document w1 (with_prevented true w1) eq_refl) in Hp, Ha.
        cbn [document focusable prevented activeElement with_prevented] in Hd, Hp, Ha.
        exists w2. split; [exact Hrun|]. split; [exact Hd|].
        split; [rewrite Hp; now rewrite orb_true_r|]. split; [|discriminate].
        exact Ha.
    + destruct (IH w1) as (w2 & Hrun & Hd & Hp & Ha & Hsame).
      exists w2. repeat split; assumption.
Qed.

(** C8. Take a form whose submit listeners are those that
    [initSearchEnhancement] has put on it, one for each search input
    whose closest form it is.  Submitting the form is prevented
    exactly when the value of at least one of these inputs is empty
    once trimmed.  Each blank input that can take focus takes it in
    turn, so the focus ends on the last of them and stays where it was
    when there is none.  When no input is blank the listeners change
    nothing: queries that are not blank never block the submission. *)
Theorem search_submit_prevented_iff_blank
    (form : node_id) (e : event) (w w0 : world) :
  submit_listeners form w = [] ->
  submit_listeners form w0 = submit_listeners form (snd (initSearchEnhancement w)) ->
  let blank := List.filter (blank_query w0) (search_inputs_of form (document w)) in
  exists w',
    dispatch near_limit (Node form) "submit" e w0 = (inl tt, w') /\
    document w' = document w0 /\
    (prevented w' = true <-> blank <> []) /\
    activeElement w' =
      match last (List.filter (focusable w0 (document w0)) blank) with
      | Some i => Some i
      | None => activeElement w0
      end /\
    (blank = [] -> w' = with_prevented false w0).
Proof.
  intros Hnone Hls blank.
  unfold dispatch, bind at 1, modify. unfold bind at 1, gets.
  cbn [listeners with_prevented]. fold (submit_listeners form w0).
  rewrite Hls. unfold submit_listeners at 1. rewrite run_initSearchEnhancement.
  cbn [snd listeners with_listeners]. rewrite List.filter_app.
  fold (submit_listeners form w). rewrite Hnone, List.app_nil_l.
  rewrite submit_listeners_of.
  destruct (run_submit_listeners form e (search_inputs_of form (document w))
              (with_prevented false w0)) as (w' & Hrun & Hd & Hp & Ha & Hsame).
  exists w'. split; [exact Hrun|]. split; [exact Hd|].
  rewrite (blank_query_document w0 (with_prevented false w0) eq_refl) in *.
  cbn [prevented document focusable activeElement with_prevented] in Hp, Ha.
  fold blank in Ha, Hsame. repeat split.
  - intros Ht Hb. rewrite Hp in Ht. unfold blank in Hb.
    destruct (existsb (blank_query w0) (search_inputs_of form (document w))) eqn:E;
      [|discriminate].
    apply List.existsb_exists in E. destruct E as (i & Hi & Hbi).
    assert (In i []) as [].
    rewrite <- Hb. apply List.filter_In. now split.
  - intros Hb. rewrite Hp. simpl. apply List.existsb_exists.
    destruct blank as [|i r] eqn:E; [congruence|].
    assert (In i blank) as Hi by (rewrite E; now left).
    unfold blank in Hi. apply List.filter_In in Hi. exists i. exact Hi.
  - exact Ha.
  - exact Hsame.
Qed.

(** *** The image preview: nothing to show *)

(** C10. A change event whose target has no file selected, or whose
    first file has a type that does not start with [image/], leaves the
    whole page as it was: the document is the same, no node and no
    object URL has been created. *)
Theorem image_change_without_image_is_noop
    (input tgt : node_id) (e : event) (w : world) :
  event_target e = Node tgt ->
  match files (element_at tgt w) with
  | [] => True
  | f :: _ => starts_with (lit "image/") (file_type f) = false
  end ->
  run_handler near_limit OnImageChange (Node input) e w = (inl tt, w).
Proof.
  intros Ht Hf. unfold run_handler, bind, this_element, prop, gets, ret.
  rewrite Ht. destruct (files (element_at tgt w)) as [|f fs]; [reflexivity|].
  rewrite Hf. reflexivity.
Qed.

(** *** Updating an element in place *)

Lemma flat_map_map_ext {X Y Z'} (g : X -> list Y) (g' : X -> list Z') (h : X -> X)
    (u : Z' -> Y) (l : list X) :
  Forall (fun k => g (h k) = List.map u (g' k)) l ->
  List.flat_map g (List.map h l) = List.map u (List.flat_map g' l).
Proof.
  induction 1 as [|k l Hk _ IH]; simpl; [reflexivity|].
  now rewrite List.map_app, Hk, IH.
Qed.

Lemma elements_in_update i f n : forall anc,
  elements_in (List.map (upd_pair i f) anc) (update i f n) =
    List.map (upd_entry i f) (elements_in anc n).
Proof.
  induction n as [j s|j e kids IH] using node_induction; intros anc; simpl;
    [reflexivity|].
  unfold upd_entry at 1. simpl. f_equal.
  apply flat_map_map_ext.
  eapply List.Forall_impl; [|exact IH]. simpl. intros k Hk.
  apply (Hk ((j, e) :: anc)).
Qed.

Lemma find_map_id {X} (p : X -> bool) (g : X -> X) (l : list X) :
  (forall x, p (g x) = p x) ->
  List.find p (List.map g l) = option_map g (List.find p l).
Proof.
  intros Hp. induction l as [|x l IH]; simpl; [reflexivity|].
  rewrite Hp. destruct (p x); [reflexivity|exact IH].
Qed.

Lemma entry_of_update i f j n :
  entry_of j (update i f n) = option_map (upd_entry i f) (entry_of j n).
Proof.
  unfold entry_of.
  pose proof (elements_in_update i f n []) as H. simpl in H. rewrite H.
  now apply find_map_id.
Qed.

Lemma entry_of_id i n x : entry_of i n = Some x -> ent_id x = i.
Proof.
  intros H. apply List.find_some in H. now apply Nat.eqb_eq.
Qed.

(** Writing [f] on an element of the document is read back. *)
Lemma element_at_set i f w x :
  entry_of i (document w) = Some x ->
  element_at i (with_document (update i f) w) = f (ent_elem x).
Proof.
  intros H. unfold element_at. simpl. rewrite entry_of_update, H. simpl.
  now rewrite (entry_of_id _ _ _ H), Nat.eqb_refl.
Qed.

(** *** The scroll-to-top button *)

(** C7. After the scroll listener has run, the button (an element of
    the document) has the inline style [display: block] if and only if
    [window.scrollY] is greater than 300, and [display: none]
    otherwise. *)
Theorem scroll_shows_button_iff_past_300
    (button : node_id) (this : target) (e : event) (w : world) :
  is_Some (entry_of button (document w)) ->
  exists w',
    run_handler near_limit (OnScroll button) this e w = (inl tt, w') /\
    (style (element_at button w') !! "display" = Some (lit "block")
       <-> scrollY w > 300) /\
    (~ scrollY w > 300 ->
       style (element_at button w') !! "display" = Some (lit "none")).
Proof.
  intros [x Hx]. unfold run_handler, bind, gets.
  destruct (Z.gtb_spec (scrollY w) 300) as [Hy|Hy];
    (eexists; split; [reflexivity|]);
    rewrite (element_at_set _ _ _ _ Hx); simpl; rewrite lookup_insert_eq.
  - split; [split; [lia|reflexivity]|lia].
  - split; [split; [discriminate|lia]|reflexivity].
Qed.

(** *** Alerts *)

Lemma matches_sel_alerts x : matches sel_alerts x = dismissible x.
Proof.
  unfold matches, sel_alerts, matches_complex, dismissible. simpl.
  destruct (has_class "alert" (ent_elem x)),
           (has_class "alert-permanent" (ent_elem x)); reflexivity.
Qed.

Lemma forEach_setTimeout (l : list node_id) : forall w,
  forEach l (fun alert => let* _ := setTimeout (AutoHide alert) 5000 in ret tt) w =
    (inl tt,
     with_timers (next_timer w + length l)
       (timers w ++ alert_timers (next_timer w) (now w) l) w).
Proof.
  induction l as [|a l IH]; intros w; simpl.
  - unfold ret. f_equal. destruct w; unfold with_timers; simpl.
    now rewrite Nat.add_0_r, List.app_nil_r.
  - unfold bind at 1. unfold bind at 1. unfold setTimeout at 1. unfold ret at 1.
    rewrite IH. f_equal. unfold with_timers; simpl. f_equal.
    + lia.
    + now rewrite <- List.app_assoc.
Qed.

Lemma alert_timers_spec k t0 l :
  List.map (fun tm => (action tm, due tm)) (alert_timers k t0 l) =
    List.map (fun a => (AutoHide a, (t0 + 5000)%nat)) l.
Proof.
  revert k. induction l as [|a l IH]; intros k; simpl; [reflexivity|].
  now rewrite IH.
Qed.

(** What [initAutoHideAlerts] does. *)
Lemma run_initAutoHideAlerts w :
  initAutoHideAlerts w =
    let alerts := select sel_alerts (elements_in [] (document w)) in
    (inl tt,
     with_timers (next_timer w + length alerts)
       (timers w ++ alert_timers (next_timer w) (now w) alerts) w).
Proof.
  unfold initAutoHideAlerts, bind, querySelectorAll, gets.
  apply forEach_setTimeout.
Qed.

(** C4. [initAutoHideAlerts] leaves the document alone and adds one
    timer for each element that has the class [alert] and not the class
    [alert-permanent], in document order and no other timer; each runs
    the dismissal of its element and is due 5000 ms from now. *)
Theorem alerts_dismissed_after_5_seconds (w : world) :
  exists w' new,
    initAutoHideAlerts w = (inl tt, w') /\
    document w' = document w /\
    timers w' = timers w ++ new /\
    List.map (fun tm => (action tm, due tm)) new =
      List.map (fun x => (AutoHide (ent_id x), (now w + 5000)%nat))
        (List.filter dismissible (elements_in [] (document w))).
Proof.
  rewrite run_initAutoHideAlerts. simpl.
  eexists. eexists. split; [reflexivity|]. split; [reflexivity|].
  split; [reflexivity|].
  rewrite alert_timers_spec. unfold select. rewrite List.map_map.
  f_equal. apply List.filter_ext. exact matches_sel_alerts.
Qed.

(** The dismissal callback when Bootstrap is loaded: [close()] on the
    instance when there is one, and the fade with the removal after
    300 ms when there is none. *)
Lemma auto_hide_with_bootstrap w instance alert :
  bootstrap w = Loaded instance ->
  run_callback (AutoHide alert) w =
    (inl tt,
     if instance alert then with_closed (closed w ++ [alert]) w
     else
       let w1 :=
         with_document
           (update alert (set_style "opacity" (lit "0")))
           (with_document
              (update alert (set_style "transition" (lit "opacity 0.3s"))) w) in
       with_timers (S (next_timer w))
         (timers w ++ [Timer (next_timer w) (now w + 300) (RemoveAlert alert)]) w1).
Proof.
  intros H. unfold run_callback, bind, gets. rewrite H.
  destruct (instance alert); reflexivity.
Qed.

(** The dismissal callback when the global [bootstrap] is not declared:
    reading it throws before any check. *)
Lemma auto_hide_without_bootstrap w alert :
  bootstrap w = NoGlobal ->
  run_callback (AutoHide alert) w =
    (inr (ReferenceError "bootstrap is not defined"), w).
Proof.
  intros H. unfold run_callback, bind, gets. now rewrite H.
Qed.

(** C5. On the sample post page without Bootstrap,
    [initAutoHideAlerts] schedules the dismissal of the alert 5; when
    the timer fires, the callback throws a [ReferenceError] and the
    page is as before: the alert is neither faded nor removed. *)
Theorem auto_hide_throws_without_bootstrap :
  exists w,
    initAutoHideAlerts (post_page NoGlobal) = (inl tt, w) /\
    List.map action (timers w) = [AutoHide 5%nat] /\
    run_callback (AutoHide 5%nat) w =
      (inr (ReferenceError "bootstrap is not defined"), w).
Proof.
  eexists. split; [reflexivity|]. split; reflexivity.
Qed.

(** *** Missing elements *)



End WithNearLimit.

(** *** Instances on the sample pages *)

Lemma search_submit_prevented_iff_blank_witness :
  let w := post_page NoGlobal in
  let w0 := snd (main w) in
  let blank := List.filter (blank_query w0) (search_inputs_of 3%nat (document w)) in
  exists w',
    dispatch (fun _ _ => false) (Node 3%nat) "submit" (Event [] (Node 3%nat)) w0
      = (inl tt, w') /\
    document w' = document w0 /\
    (prevented w' = true <-> blank <> []) /\
    activeElement w' =
      match last (List.filter (focusable w0 (document w0)) blank) with
      | Some i => Some i
      | None => activeElement w0
      end /\
    (blank = [] -> w' = with_prevented false w0).
Proof.
  apply (search_submit_prevented_iff_blank (fun _ _ => false) 3%nat
           (Event [] (Node 3%nat)) (post_page NoGlobal));
    vm_compute; reflexivity.
Defined.

(** C8, a form with two search inputs: the query typed into the first
    is not blank, and yet the submission is prevented, by the listener
    of the second, which is empty; being disabled, that one does not
    take the focus either. *)
Lemma search_submit_blocked_by_other_input :
  let w := two_queries_page in
  let w0 := snd (initSearchEnhancement w) in
  let w' := snd (dispatch (fun _ _ => false) (Node 2%nat) "submit"
                   (Event [] (Node 2%nat)) w0) in
  In 3%nat (select sel_search_inputs (elements_in [] (document w))) /\
  closest_in 3%nat sel_form (document w) = Some 2%nat /\
  trim (value (element_at 3%nat w0)) <> [] /\
  prevented w' = true /\
  In 4%nat (select sel_search_inputs (elements_in [] (document w))) /\
  closest_in 4%nat sel_form (document w) = Some 2%nat /\
  trim (value (element_at 4%nat w0)) = [] /\
  activeElement w' <> Some 4%nat.
Proof.
  vm_compute. repeat split; try discriminate; tauto.
Qed.

Lemma image_change_without_image_is_noop_witness :
  run_handler (fun _ _ => false) OnImageChange (Node 16%nat)
    (Event [] (Node 16%nat)) (post_page NoGlobal)
  = (inl tt, post_page NoGlobal).
Proof.
  apply (image_change_without_image_is_noop (fun _ _ => false) 16%nat 16%nat);
    reflexivity.
Defined.

Lemma scroll_shows_button_iff_past_300_witness :
  let w := with_scrollY 500 (snd (initScrollToTop (post_page NoGlobal))) in
  exists w',
    run_handler (fun _ _ => false) (OnScroll 19%nat) Window (Event [] Window) w
      = (inl tt, w') /\
    (style (element_at 19%nat w') !! "display" = Some (lit "block")
       <-> scrollY w > 300) /\
    (~ scrollY w > 300 ->
       style (element_at 19%nat w') !! "display" = Some (lit "none")).
Proof.
  apply (scroll_shows_button_iff_past_300 (fun _ _ => false)).
  eexists. reflexivity.
Defined.


(** *** The sample post page at work *)

Example post_page_loads :
  let w := snd (main (post_page NoGlobal)) in
  fst (main (post_page NoGlobal)) = inl tt /\
  List.map action (timers w) = [AutoHide 5%nat] /\
  ids (document w) =
    [0; 1; 2; 3; 4; 5; 6; 7; 8; 9; 10; 11; 12; 13; 19; 20; 14; 15; 16; 17; 18; 23;
     21; 22]%nat.
Proof. vm_compute. repeat split. Qed.

Example reply_click_shows_form :
  let r := run_handler (fun _ _ => false) OnReplyClick (Node 9%nat)
             (Event [] (Node 9%nat)) (post_page NoGlobal) in
  fst r = inl tt /\ activeElement (snd r) = Some 11%nat /\
  classList (element_at 10%nat (snd r)) = [].
Proof. vm_compute. repeat split. Qed.

Example blank_query_is_not_submitted :
  let r := dispatch (fun _ _ => false) (Node 3%nat) "submit" (Event [] (Node 3%nat))
             (snd (main (post_page NoGlobal))) in
  fst r = inl tt /\ prevented (snd r) = true /\ activeElement (snd r) = Some 4%nat.
Proof. vm_compute. repeat split. Qed.

Example scrolling_down_shows_button :
  let w := snd (main (post_page NoGlobal)) in
  let r := dispatch (fun _ _ => false) Window "scroll" (Event [] Window)
             (with_scrollY 301 w) in
  style (element_at 21%nat w) !! "display" = Some (lit "none") /\
  style (element_at 21%nat (snd r)) !! "display" = Some (lit "block").
Proof. vm_compute. repeat split. Qed.

Example typing_updates_counter :
  let w := with_document (update 13%nat (with_value (lit "hello world")))
             (snd (main (post_page NoGlobal))) in
  let r := dispatch (fun _ _ => false) (Node 13%nat) "input" (Event [] (Node 13%nat)) w in
  option_map children_of (find_node 19%nat (document (snd r)))
  = Some [Text 24%nat (lit "11/500")].
Proof. vm_compute. reflexivity. Qed.

(** An attribute selector on [type] matches whatever the case of the
    value, one on [name] only the value as written. *)
Example type_matches_in_any_case :
  matches_simple (AttrIs "type" "search") (el "input" [] [("type", lit "Search")]) = true /\
  matches_simple (AttrIs "name" "q") (el "input" [] [("name", lit "Q")]) = false /\
  matches_simple (AttrHas "accept" "image") (el "input" [] [("accept", lit "IMAGE/*")])
    = true.
Proof. vm_compute. repeat split. Qed.

Example image_selected_is_previewed :
  let w := with_document
             (update 16%nat (with_files [File (lit "cat.png") (lit "image/png")]))
             (post_page NoGlobal) in
  let r := run_handler (fun _ _ => false) OnImageChange (Node 16%nat)
             (Event [] (Node 16%nat)) w in
  fst r = inl tt /\
  ids (document (snd r)) = ids (document w) ++ [19; 20; 21; 22]%nat /\
  object_urls (snd r) = [lit "blob:0"] /\
  listeners (snd r) = [Listener (Node 20%nat) "load" OnPreviewLoad].
Proof. vm_compute. repeat split. Qed.

End PageProps.

(** ** The comment counters *)

Module CounterProps.

Import JS JS.Notations Page PageProps.

Local Open Scope nat_scope.

(** *** Searching lists of children *)

Lemma first_some_None {X Y} (f : X -> option Y) l :
  (forall x, In x l -> f x = None) -> first_some f l = None.
Proof.
  induction l as [|x l IH]; intros H; simpl; [reflexivity|].
  rewrite (H x) by now left. apply IH. intros y Hy. apply H. now right.
Qed.

Lemma first_some_app {X Y} (f : X -> option Y) b x a :
  (forall y, In y b -> f y = None) ->
  first_some f (b ++ x :: a) =
    match f x with
    | Some r => Some r
    | None => first_some f a
    end.
Proof.
  induction b as [|y b IH]; intros H; simpl; [reflexivity|].
  rewrite (H y) by now left. apply IH. intros z Hz. apply H. now right.
Qed.

Lemma find_flat_map_None {X Y} (p : Y -> bool) (g : X -> list Y) l :
  (forall x, In x l -> List.find p (g x) = None) ->
  List.find p (List.flat_map g l) = None.
Proof.
  intros H. destruct (List.find p (List.flat_map g l)) as [y|] eqn:E; [|reflexivity].
  apply List.find_some in E. destruct E as [Hin Hp].
  apply List.in_flat_map in Hin. destruct Hin as (x & Hx & Hy).
  pose proof (List.find_none _ _ (H x Hx) y Hy) as Hn. congruence.
Qed.

Lemma find_app {Y} (p : Y -> bool) l1 l2 :
  List.find p (l1 ++ l2) =
    match List.find p l1 with
    | Some y => Some y
    | None => List.find p l2
    end.
Proof.
  induction l1 as [|y l1 IH]; simpl; [reflexivity|]. now destruct (p y).
Qed.

Lemma find_flat_map_app {X Y} (p : Y -> bool) (g : X -> list Y) b x a :
  (forall y, In y b -> List.find p (g y) = None) ->
  List.find p (List.flat_map g (b ++ x :: a)) =
    match List.find p (g x) with
    | Some r => Some r
    | None => List.find p (List.flat_map g a)
    end.
Proof.
  intros H. rewrite List.flat_map_app, find_app, (find_flat_map_None _ _ _ H).
  simpl. apply find_app.
Qed.

Lemma map_fixes {X} (h : X -> X) b x a :
  (forall y, In y b -> h y = y) -> (forall y, In y a -> h y = y) ->
  List.map h (b ++ x :: a) = b ++ h x :: a.
Proof.
  intros Hb Ha. rewrite List.map_app. simpl. f_equal; [|f_equal].
  - rewrite <- (List.map_id b) at 2. now apply List.map_ext_in.
  - rewrite <- (List.map_id a) at 2. now apply List.map_ext_in.
Qed.

Lemma existsb_id_false t (l : list node) :
  (forall k, In k l -> id_of k <> t) ->
  existsb (fun k => Nat.eqb (id_of k) t) l = false.
Proof.
  intros H. induction l as [|k l IH]; simpl; [reflexivity|].
  rewrite (proj2 (Nat.eqb_neq _ _)) by (apply H; now left).
  apply IH. intros k' Hk'. apply H. now right.
Qed.

Lemma existsb_id_true t (l : list node) k :
  In k l -> id_of k = t -> existsb (fun k => Nat.eqb (id_of k) t) l = true.
Proof.
  intros Hin Hid. apply List.existsb_exists. exists k.
  split; [exact Hin|now apply Nat.eqb_eq].
Qed.

(** *** Identities *)

Lemma id_of_in_ids n : In (id_of n) (ids n).
Proof. destruct n; simpl; now left. Qed.

Lemma ids_of_child k kids j :
  In k kids -> In j (ids k) -> In j (List.flat_map ids kids).
Proof. intros Hk Hj. apply List.in_flat_map. now exists k. Qed.

Lemma entries_ids n : forall anc x,
  In x (elements_in anc n) -> In (ent_id x) (ids n).
Proof.
  induction n as [j s|j e kids IH] using node_induction; intros anc x; simpl;
    [tauto|].
  intros [<-|Hin]; [now left|]. right.
  apply List.in_flat_map in Hin. destruct Hin as (k & Hk & Hx).
  rewrite List.Forall_forall in IH.
  eapply ids_of_child; [exact Hk|]. eapply IH; eassumption.
Qed.

Lemma text_ids_ids n j : In j (text_ids n) -> In j (ids n).
Proof.
  induction n as [i s|i e kids IH] using node_induction; simpl; [tauto|].
  intros Hin. right.
  apply List.in_flat_map in Hin. destruct Hin as (k & Hk & Hx).
  rewrite List.Forall_forall in IH.
  eapply ids_of_child; [exact Hk|]. now apply IH.
Qed.

(** What is not in a subtree is not found there, and changes nothing
    there. *)
Lemma entry_outside t n anc :
  ~ In t (ids n) ->
  List.find (fun x => Nat.eqb (ent_id x) t) (elements_in anc n) = None.
Proof.
  intros H.
  destruct (List.find _ _) as [x|] eqn:E; [|reflexivity].
  apply List.find_some in E. destruct E as [Hin Hid].
  apply Nat.eqb_eq in Hid. subst t. apply entries_ids in Hin. tauto.
Qed.

Lemma after_outside t l :
  (forall k, In k l -> id_of k <> t) -> after t l = None.
Proof.
  induction l as [|k l IH]; intros H; simpl; [reflexivity|].
  rewrite (proj2 (Nat.eqb_neq _ _)) by (apply H; now left).
  apply IH. intros k' Hk'. apply H. now right.
Qed.

Lemma root_ids_outside t (kids : list node) :
  ~ In t (List.flat_map ids kids) -> forall k, In k kids -> id_of k <> t.
Proof.
  intros H k Hk <-. apply H. eapply ids_of_child; [exact Hk|apply id_of_in_ids].
Qed.

Lemma child_outside t (kids : list node) k :
  ~ In t (List.flat_map ids kids) -> In k kids -> ~ In t (ids k).
Proof. intros H Hk Hin. apply H. eapply ids_of_child; eassumption. Qed.

Lemma following_outside t n : ~ In t (ids n) -> following t n = None.
Proof.
  induction n as [j s|j e kids IH] using node_induction; simpl; [reflexivity|].
  intros H. assert (~ In t (List.flat_map ids kids)) as Hk by tauto.
  rewrite after_outside by now apply root_ids_outside.
  apply first_some_None. intros k Hin. rewrite List.Forall_forall in IH.
  apply IH; [exact Hin|]. eapply child_outside; eassumption.
Qed.

Lemma parent_of_outside t n : ~ In t (ids n) -> parent_of t n = None.
Proof.
  induction n as [j s|j e kids IH] using node_induction; simpl; [reflexivity|].
  intros H. assert (~ In t (List.flat_map ids kids)) as Hk by tauto.
  rewrite existsb_id_false by now apply root_ids_outside.
  apply first_some_None. intros k Hin. rewrite List.Forall_forall in IH.
  apply IH; [exact Hin|]. eapply child_outside; eassumption.
Qed.

Lemma find_node_outside p n : ~ In p (ids n) -> find_node p n = None.
Proof.
  induction n as [j s|j e kids IH] using node_induction; simpl; intros H.
  - rewrite (proj2 (Nat.eqb_neq _ _)) by tauto. reflexivity.
  - rewrite (proj2 (Nat.eqb_neq _ _)) by tauto.
    assert (~ In p (List.flat_map ids kids)) as Hk by tauto.
    apply first_some_None. intros k Hin. rewrite List.Forall_forall in IH.
    apply IH; [exact Hin|]. eapply child_outside; eassumption.
Qed.

Lemma alter_children_outside p g n :
  ~ In p (ids n) -> alter_children p g n = n.
Proof.
  induction n as [j s|j e kids IH] using node_induction; simpl; [reflexivity|].
  intros H. rewrite (proj2 (Nat.eqb_neq _ _)) by tauto. f_equal.
  assert (~ In p (List.flat_map ids kids)) as Hk by tauto.
  rewrite <- (List.map_id kids) at 2. apply List.map_ext_in.
  intros k Hin. rewrite List.Forall_forall in IH.
  apply IH; [exact Hin|]. eapply child_outside; eassumption.
Qed.

Lemma insert_after_outside t c n :
  ~ In t (ids n) -> insert_after t c n = n.
Proof.
  induction n as [j s|j e kids IH] using node_induction; simpl; [reflexivity|].
  intros H. assert (~ In t (List.flat_map ids kids)) as Hk by tauto.
  rewrite existsb_id_false by now apply root_ids_outside. f_equal.
  rewrite <- (List.map_id kids) at 2. apply List.map_ext_in.
  intros k Hin. rewrite List.Forall_forall in IH.
  apply IH; [exact Hin|]. eapply child_outside; eassumption.
Qed.

(** *** Documents without shared identities *)

Lemma ListNoDup_app {X} (l k : list X) :
  List.NoDup (l ++ k) ->
  List.NoDup l /\ (forall x, In x l -> ~ In x k) /\ List.NoDup k.
Proof.
  intros H. apply NoDup_ListNoDup in H. apply NoDup_app in H.
  destruct H as (H1 & H2 & H3).
  repeat split; try now apply NoDup_ListNoDup.
  intros x Hx Hk. apply (H2 x); now apply list_elem_of_In.
Qed.

Lemma NoDup_kids i (b a : list node) k :
  List.NoDup (i :: List.flat_map ids (b ++ k :: a)) ->
  List.NoDup (ids k) /\ ~ In i (ids k) /\
  (forall j, In j (ids k) -> ~ In j (List.flat_map ids b)) /\
  (forall j, In j (ids k) -> ~ In j (List.flat_map ids a)) /\
  (forall j, In j (List.flat_map ids b) -> ~ In j (List.flat_map ids a)).
Proof.
  intros H. apply (proj1 (List.NoDup_cons_iff _ _)) in H. destruct H as [Hi H].
  rewrite List.flat_map_app in H, Hi. simpl in H, Hi.
  apply ListNoDup_app in H. destruct H as (_ & Hdis & H).
  apply ListNoDup_app in H. destruct H as (Hk & Hdis2 & _).
  split; [exact Hk|]. split.
  { intros Hin. apply Hi. apply List.in_or_app. right. apply List.in_or_app. now left. }
  split; [|split].
  - intros j Hj Hb. apply (Hdis j Hb). apply List.in_or_app. now left.
  - intros j Hj Ha. now apply (Hdis2 j).
  - intros j Hb Ha. apply (Hdis j Hb). apply List.in_or_app. now right.
Qed.

Lemma after_app t b k a :
  (forall x, In x b -> id_of x <> t) -> id_of k = t ->
  after t (b ++ k :: a) = Some a.
Proof.
  intros Hb Hk. induction b as [|x b IH]; simpl.
  - now rewrite (proj2 (Nat.eqb_eq _ _) Hk).
  - rewrite (proj2 (Nat.eqb_neq _ _)) by (apply Hb; now left).
    apply IH. intros y Hy. apply Hb. now right.
Qed.

Lemma insert_after_list_app t c b k a :
  (forall x, In x b -> id_of x <> t) -> id_of k = t ->
  insert_after_list t c (b ++ k :: a) = b ++ k :: c :: a.
Proof.
  intros Hb Hk. induction b as [|x b IH]; simpl.
  - now rewrite (proj2 (Nat.eqb_eq _ _) Hk).
  - rewrite (proj2 (Nat.eqb_neq _ _)) by (apply Hb; now left).
    f_equal. apply IH. intros y Hy. apply Hb. now right.
Qed.

Lemma put_before_last c l : put_before c None l = l ++ [c].
Proof. induction l as [|k l IH]; simpl; [reflexivity|now rewrite IH]. Qed.

Lemma put_before_app c r b a :
  (forall x, In x b -> id_of x <> id_of r) ->
  put_before c (Some (id_of r)) (b ++ r :: a) = b ++ c :: r :: a.
Proof.
  intros Hb. induction b as [|x b IH]; simpl.
  - now rewrite Nat.eqb_refl.
  - rewrite (proj2 (Nat.eqb_neq _ _)) by (apply Hb; now left).
    f_equal. apply IH. intros y Hy. apply Hb. now right.
Qed.

(** In a document without shared identities, a node [t] below the root
    has a parent, the parent is found by its identity, the next sibling
    of [t] is a child of that parent, and inserting before that sibling
    puts the new node right after [t]. *)
Lemma insertion_point t n :
  List.NoDup (ids n) -> In t (ids n) -> id_of n <> t ->
  exists p pn l,
    parent_of t n = Some p /\
    find_node p n = Some pn /\
    following t n = Some l /\
    (forall k, head l = Some k ->
       existsb (fun x => Nat.eqb (id_of x) (id_of k)) (children_of pn) = true) /\
    (forall c,
       alter_children p (put_before c (id_of <$> head l)) n = insert_after t c n) /\
    In p (ids n).
Proof.
  induction n as [i s|i e kids IH] using node_induction; simpl.
  { intros _ [->|[]] H. now destruct H. }
  intros Hnd [->|Hin] Hroot; [now destruct Hroot|].
  apply List.in_flat_map in Hin. destruct Hin as (k0 & Hk0 & Ht).
  destruct (List.in_split _ _ Hk0) as (b & a & ->).
  destruct (NoDup_kids _ _ _ _ Hnd) as (Hndk & Hik & Hkb & Hka & Hba).
  assert (forall x, In x b -> ~ In t (ids x)) as Hbt.
  { intros x Hx Hin. apply (Hkb t Ht). eapply ids_of_child; eassumption. }
  assert (forall x, In x a -> ~ In t (ids x)) as Hat.
  { intros x Hx Hin. apply (Hka t Ht). eapply ids_of_child; eassumption. }
  assert (forall x, In x b -> id_of x <> t) as Hbr.
  { intros x Hx <-. apply (Hbt x Hx), id_of_in_ids. }
  assert (forall x, In x a -> id_of x <> t) as Har.
  { intros x Hx <-. apply (Hat x Hx), id_of_in_ids. }
  destruct (Nat.eq_dec (id_of k0) t) as [Hid|Hid].
  - (* [t] is the child [k0] *)
    exists i, (Elem i e (b ++ k0 :: a)), a.
    rewrite (existsb_id_true t _ k0 Hk0 Hid), Nat.eqb_refl, (after_app _ _ _ _ Hbr Hid).
    repeat split; try reflexivity; [| |now left].
    + intros k Hk. simpl. eapply existsb_id_true; [|reflexivity].
      apply List.in_or_app. right. right. destruct a; [discriminate|].
      inversion Hk. now left.
    + intros c. f_equal. rewrite (insert_after_list_app _ _ _ _ _ Hbr Hid).
      destruct a as [|r a]; simpl.
      * rewrite put_before_last, <- List.app_assoc. reflexivity.
      * change (b ++ k0 :: r :: a) with (b ++ [k0] ++ r :: a).
        change (b ++ k0 :: c :: r :: a) with (b ++ [k0] ++ c :: r :: a).
        rewrite !List.app_assoc. apply put_before_app.
        intros x Hx Heq. apply List.in_app_or in Hx.
        assert (In (id_of r) (List.flat_map ids (r :: a))) as Hr.
        { simpl. apply List.in_or_app. left. apply id_of_in_ids. }
        destruct Hx as [Hx|[<-|[]]].
        -- apply (Hba (id_of r)); [|exact Hr]. rewrite <- Heq.
           eapply ids_of_child; [exact Hx|apply id_of_in_ids].
        -- apply (Hka (id_of r)); [|exact Hr]. rewrite <- Heq. apply id_of_in_ids.
  - (* [t] is below the child [k0] *)
    rewrite List.Forall_forall in IH.
    destruct (IH k0 Hk0 Hndk Ht Hid) as (p & pn & l & Hp & Hf & Hl & Hc & Ha & Hpin).
    assert (forall x, In x b -> ~ In p (ids x)) as Hbp.
    { intros x Hx Hin. apply (Hkb p Hpin). eapply ids_of_child; eassumption. }
    assert (forall x, In x a -> ~ In p (ids x)) as Hap.
    { intros x Hx Hin. apply (Hka p Hpin). eapply ids_of_child; eassumption. }
    exists p, pn, l.
    assert (existsb (fun k => Nat.eqb (id_of k) t) (b ++ k0 :: a) = false) as Hex.
    { apply existsb_id_false. intros x Hx. apply List.in_app_or in Hx.
      destruct Hx as [Hx|[<-|Hx]]; auto. }
    rewrite Hex.
    rewrite (first_some_app (parent_of t)), Hp
      by (intros; apply parent_of_outside; auto).
    rewrite (proj2 (Nat.eqb_neq i p)) by (intros ->; tauto).
    rewrite (first_some_app (find_node p)), Hf
      by (intros; apply find_node_outside; auto).
    rewrite after_outside
      by (intros x Hx; apply List.in_app_or in Hx; destruct Hx as [Hx|[<-|Hx]]; auto).
    rewrite (first_some_app (following t)), Hl
      by (intros; apply following_outside; auto).
    repeat split; try reflexivity; [exact Hc| |].
    + intros c. f_equal.
      rewrite !map_fixes, Ha;
        auto using alter_children_outside, insert_after_outside.
    + right. eapply ids_of_child; eassumption.
Qed.

(** *** Inserting after a node *)

Lemma id_of_insert_after t c n : id_of (insert_after t c n) = id_of n.
Proof.
  destruct n as [i s|i e kids]; simpl; [reflexivity|].
  now destruct (existsb _ kids).
Qed.

Lemma first_element_insert_after t c l :
  first_element (List.map (insert_after t c) l) = first_element l.
Proof.
  induction l as [|k l IH]; simpl; [reflexivity|].
  destruct k as [i s|i e kids]; simpl; [exact IH|].
  now destruct (existsb _ kids).
Qed.

(** The identities after an insertion: those of the new node and those
    that were there. *)
Lemma ids_insert_after t c n :
  List.NoDup (ids n) -> In t (ids n) -> id_of n <> t ->
  Permutation (ids (insert_after t c n)) (ids c ++ ids n).
Proof.
  induction n as [i s|i e kids IH] using node_induction; simpl.
  { intros _ [->|[]] H. now destruct H. }
  intros Hnd [->|Hin] Hroot; [now destruct Hroot|].
  apply List.in_flat_map in Hin. destruct Hin as (k0 & Hk0 & Ht).
  destruct (List.in_split _ _ Hk0) as (b & a & ->).
  destruct (NoDup_kids _ _ _ _ Hnd) as (Hndk & Hik & Hkb & Hka & Hba).
  assert (forall x, In x b -> ~ In t (ids x)) as Hbt.
  { intros x Hx Hin. apply (Hkb t Ht). eapply ids_of_child; eassumption. }
  assert (forall x, In x a -> ~ In t (ids x)) as Hat.
  { intros x Hx Hin. apply (Hka t Ht). eapply ids_of_child; eassumption. }
  assert (forall x, In x b -> id_of x <> t) as Hbr.
  { intros x Hx <-. apply (Hbt x Hx), id_of_in_ids. }
  assert (forall x, In x a -> id_of x <> t) as Har.
  { intros x Hx <-. apply (Hat x Hx), id_of_in_ids. }
  assert (forall l1 l2 l3 : list node_id,
            Permutation (i :: l1 ++ l2 ++ ids c ++ l3) (ids c ++ i :: l1 ++ l2 ++ l3))
    as Hperm.
  { intros l1 l2 l3. apply Permutation_cons_app.
    rewrite (List.app_assoc l1 l2 (ids c ++ l3)), (List.app_assoc l1 l2 l3).
    apply Permutation_app_swap_app. }
  destruct (Nat.eq_dec (id_of k0) t) as [Hid|Hid].
  - rewrite (existsb_id_true t _ k0 Hk0 Hid). simpl.
    rewrite (insert_after_list_app _ _ _ _ _ Hbr Hid).
    rewrite !List.flat_map_app. simpl. apply Hperm.
  - rewrite existsb_id_false.
    2:{ intros x Hx. apply List.in_app_or in Hx.
        destruct Hx as [Hx|[<-|Hx]]; auto. }
    simpl. rewrite map_fixes by auto using insert_after_outside.
    rewrite !List.flat_map_app. simpl.
    rewrite List.Forall_forall in IH.
    rewrite (IH k0 Hk0 Hndk Ht Hid), <- List.app_assoc.
    apply (Hperm (List.flat_map ids b) [] (ids k0 ++ List.flat_map ids a)).
Qed.

Lemma after_insert_after_list t c l :
  after t (insert_after_list t c l) = option_map (cons c) (after t l).
Proof.
  induction l as [|k l IH]; simpl; [reflexivity|].
  destruct (Nat.eqb (id_of k) t) eqn:E; simpl; rewrite E; [reflexivity|exact IH].
Qed.

Lemma after_map_insert_after t' t c l :
  after t' (List.map (insert_after t c) l) =
    option_map (List.map (insert_after t c)) (after t' l).
Proof.
  induction l as [|k l IH]; simpl; [reflexivity|].
  rewrite id_of_insert_after. now destruct (Nat.eqb (id_of k) t').
Qed.

Lemma after_None_existsb t l :
  existsb (fun k => Nat.eqb (id_of k) t) l = false -> after t l = None.
Proof.
  induction l as [|k l IH]; simpl; [reflexivity|].
  destruct (Nat.eqb (id_of k) t); [discriminate|exact IH].
Qed.

Lemma first_some_map {X Y Z'} (f : X -> option Y) (h : X -> X) (g : Y -> Z') l :
  Forall (fun k => option_map g (f (h k)) = option_map g (f k)) l ->
  option_map g (first_some f (List.map h l)) = option_map g (first_some f l).
Proof.
  induction 1 as [|k l Hk _ IH]; simpl; [reflexivity|].
  destruct (f (h k)), (f k); simpl in Hk |- *; try discriminate; auto.
Qed.

Lemma first_some_map_eq {X Y} (f : X -> option Y) (h : X -> X) (g : Y -> Y) l :
  Forall (fun k => f (h k) = option_map g (f k)) l ->
  first_some f (List.map h l) = option_map g (first_some f l).
Proof.
  induction 1 as [|k l Hk _ IH]; simpl; [reflexivity|].
  rewrite Hk. destruct (f k); simpl; auto.
Qed.

(** The new node is the next sibling of [t]. *)
Lemma following_insert_after t c n :
  following t (insert_after t c n) = option_map (cons c) (following t n).
Proof.
  induction n as [i s|i e kids IH] using node_induction; simpl; [reflexivity|].
  destruct (existsb (fun k => Nat.eqb (id_of k) t) kids) eqn:E; simpl.
  - rewrite after_insert_after_list.
    destruct (after t kids) as [r|] eqn:Ea; simpl; [reflexivity|].
    exfalso. apply List.existsb_exists in E. destruct E as (k & Hk & Hid).
    apply Nat.eqb_eq in Hid.
    destruct (List.in_split _ _ Hk) as (b & a & ->).
    clear IH Hk. induction b as [|x b IHb]; simpl in Ea.
    + rewrite (proj2 (Nat.eqb_eq _ _) Hid) in Ea. discriminate.
    + destruct (Nat.eqb (id_of x) t); [discriminate|auto].
  - rewrite after_map_insert_after, (after_None_existsb _ _ E). simpl.
    now apply first_some_map_eq.
Qed.

Lemma first_element_insert_after_list t c l :
  ~ In t (List.flat_map text_ids l) ->
  first_element (insert_after_list t c l) = first_element l.
Proof.
  induction l as [|k l IH]; simpl; [reflexivity|]. intros H.
  destruct (Nat.eqb (id_of k) t) eqn:E.
  - destruct k as [i s|i e kids]; [|reflexivity].
    exfalso. apply H. apply List.in_or_app. left. simpl in *.
    left. now apply Nat.eqb_eq.
  - destruct k as [i s|i e kids]; [|reflexivity]. simpl.
    apply IH. intros Hin. apply H. apply List.in_or_app. now right.
Qed.

Lemma after_other_insert_after_list t' t c l :
  t' <> t -> id_of c <> t' -> ~ In t (List.flat_map text_ids l) ->
  option_map first_element (after t' (insert_after_list t c l)) =
    option_map first_element (after t' l).
Proof.
  intros Hne Hc. induction l as [|k l IH]; simpl; [reflexivity|]. intros H.
  assert (~ In t (List.flat_map text_ids l)) as Hl.
  { intros Hin. apply H. apply List.in_or_app. now right. }
  destruct (Nat.eqb (id_of k) t) eqn:E; simpl.
  - apply Nat.eqb_eq in E.
    rewrite (proj2 (Nat.eqb_neq (id_of k) t')) by congruence.
    rewrite (proj2 (Nat.eqb_neq (id_of c) t')) by congruence. reflexivity.
  - destruct (Nat.eqb (id_of k) t'); simpl; [|now apply IH].
    f_equal. now apply first_element_insert_after_list.
Qed.

Lemma first_some_insert_after_list {Y} (f : node -> option Y) t c l :
  f c = None -> first_some f (insert_after_list t c l) = first_some f l.
Proof.
  intros Hc. induction l as [|k l IH]; simpl; [reflexivity|].
  destruct (Nat.eqb (id_of k) t); simpl; [now rewrite Hc|now rewrite IH].
Qed.

(** The next element sibling of any other node is the same. *)
Lemma following_other_insert_after t' t c n :
  t' <> t -> ~ In t' (ids c) -> ~ In t (text_ids n) ->
  option_map first_element (following t' (insert_after t c n)) =
    option_map first_element (following t' n).
Proof.
  intros Hne Hc.
  assert (id_of c <> t') as Hc' by (intros <-; apply Hc, id_of_in_ids).
  induction n as [i s|i e kids IH] using node_induction; simpl; [reflexivity|].
  intros Ht.
  destruct (existsb (fun k => Nat.eqb (id_of k) t) kids) eqn:E; simpl.
  - pose proof (after_other_insert_after_list t' t c kids Hne Hc' Ht) as Ha.
    rewrite (first_some_insert_after_list (following t'))
      by now apply following_outside.
    destruct (after t' (insert_after_list t c kids)), (after t' kids);
      simpl in Ha |- *; try discriminate; auto.
  - rewrite after_map_insert_after.
    destruct (after t' kids) as [r|]; simpl.
    + f_equal. apply first_element_insert_after.
    + apply first_some_map.
      rewrite List.Forall_forall in IH |- *. intros k Hk. apply IH; [exact Hk|].
      intros Hin. apply Ht. apply List.in_flat_map. now exists k.
Qed.

Lemma filter_flat_map_insert_after_list {Y} (q : Y -> bool) (g : node -> list Y) t c l :
  List.filter q (g c) = [] ->
  List.filter q (List.flat_map g (insert_after_list t c l)) =
    List.filter q (List.flat_map g l).
Proof.
  intros Hc. induction l as [|k l IH]; simpl; [reflexivity|].
  destruct (Nat.eqb (id_of k) t); simpl.
  - now rewrite !List.filter_app, Hc.
  - now rewrite !List.filter_app, IH.
Qed.

Lemma filter_flat_map_map {X Y} (q : Y -> bool) (g : X -> list Y) (h : X -> X) l :
  Forall (fun k => List.filter q (g (h k)) = List.filter q (g k)) l ->
  List.filter q (List.flat_map g (List.map h l)) = List.filter q (List.flat_map g l).
Proof.
  induction 1 as [|k l Hk _ IH]; simpl; [reflexivity|].
  now rewrite !List.filter_app, Hk, IH.
Qed.

(** A query that the new node does not answer has the same answers. *)
Lemma filter_elements_insert_after (q : entry -> bool) t c n :
  (forall anc, List.filter q (elements_in anc c) = []) ->
  forall anc,
    List.filter q (elements_in anc (insert_after t c n)) =
      List.filter q (elements_in anc n).
Proof.
  intros Hc.
  induction n as [i s|i e kids IH] using node_induction; intros anc; simpl;
    [reflexivity|].
  destruct (existsb (fun k => Nat.eqb (id_of k) t) kids); simpl.
  - destruct (q (Entry i e anc)); [f_equal|];
      now apply filter_flat_map_insert_after_list.
  - assert (List.filter q (List.flat_map (elements_in ((i, e) :: anc))
                             (List.map (insert_after t c) kids)) =
            List.filter q (List.flat_map (elements_in ((i, e) :: anc)) kids)) as H.
    { apply filter_flat_map_map. eapply List.Forall_impl; [|exact IH].
      simpl. intros k Hk. apply Hk. }
    destruct (q (Entry i e anc)); [f_equal|]; exact H.
Qed.

(** *** Looking a sibling up *)

Lemma after_suffix t l r : after t l = Some r -> exists b k, l = b ++ k :: r.
Proof.
  induction l as [|x l IH]; simpl; [discriminate|].
  destruct (Nat.eqb (id_of x) t).
  - intros [= <-]. now exists [], x.
  - intros H. destruct (IH H) as (b & k & ->). now exists (x :: b), k.
Qed.

Lemma first_element_split l i e :
  first_element l = Some (i, e) ->
  exists l1 kids l2, l = l1 ++ Elem i e kids :: l2.
Proof.
  induction l as [|x l IH]; simpl; [discriminate|].
  destruct x as [j s|j e' kids].
  - intros H. destruct (IH H) as (l1 & kk & l2 & ->).
    now exists (Text j s :: l1), kk, l2.
  - intros [= <- <-]. now exists [], kids, l.
Qed.

Lemma first_some_Some {X Y} (f : X -> option Y) l y :
  first_some f l = Some y ->
  exists b x a, l = b ++ x :: a /\ f x = Some y /\ forall z, In z b -> f z = None.
Proof.
  induction l as [|x l IH]; simpl; [discriminate|].
  destruct (f x) as [y'|] eqn:E.
  - intros [= <-]. exists [], x, l. repeat split; [exact E|intros z []].
  - intros H. destruct (IH H) as (b & x' & a & -> & Hx & Hb).
    exists (x :: b), x', a. repeat split; [exact Hx|].
    intros z [<-|Hz]; auto.
Qed.

(** A child element is found by its identity. *)
Lemma child_lookup i0 e0 (b a : list node) i e kids anc :
  List.NoDup (ids (Elem i0 e0 (b ++ Elem i e kids :: a))) ->
  List.find (fun x => Nat.eqb (ent_id x) i)
    (elements_in anc (Elem i0 e0 (b ++ Elem i e kids :: a))) =
    Some (Entry i e ((i0, e0) :: anc)).
Proof.
  simpl. intros Hnd.
  destruct (NoDup_kids _ _ _ _ Hnd) as (_ & Hik & Hkb & _ & _).
  simpl in Hik, Hkb.
  rewrite (proj2 (Nat.eqb_neq i0 i)) by (intros ->; apply Hik; now left).
  rewrite find_flat_map_app.
  - simpl. now rewrite Nat.eqb_refl.
  - intros y Hy. apply entry_outside. intros Hin.
    apply (Hkb i); [now left|]. eapply ids_of_child; eassumption.
Qed.

(** The next element sibling, looked up by its identity, is the element
    that follows. *)
Lemma sibling_lookup t n : forall l i e anc,
  List.NoDup (ids n) -> following t n = Some l -> first_element l = Some (i, e) ->
  exists anc',
    List.find (fun x => Nat.eqb (ent_id x) i) (elements_in anc n) =
      Some (Entry i e anc').
Proof.
  induction n as [i0 s|i0 e0 kids IH] using node_induction;
    intros l i e anc Hnd; [discriminate|].
  cbn [following].
  destruct (after t kids) as [r|] eqn:Ea.
  - intros [= <-] Hfe.
    destruct (after_suffix _ _ _ Ea) as (b & k & ->).
    destruct (first_element_split _ _ _ Hfe) as (l1 & kk & l2 & ->).
    exists ((i0, e0) :: anc).
    replace (b ++ k :: l1 ++ Elem i e kk :: l2)
      with ((b ++ k :: l1) ++ Elem i e kk :: l2) in *
      by (rewrite <- List.app_assoc; reflexivity).
    now apply child_lookup.
  - intros Hfs Hfe.
    destruct (first_some_Some _ _ _ Hfs) as (b & k0 & a & -> & Hk0 & _).
    destruct (NoDup_kids _ _ _ _ Hnd) as (Hndk & Hik & Hkb & _ & _).
    rewrite List.Forall_forall in IH.
    destruct (IH k0 (List.in_elt _ _ _) l i e ((i0, e0) :: anc) Hndk Hk0 Hfe)
      as [anc' Hfind].
    exists anc'. simpl.
    assert (In i (ids k0)) as Hi.
    { apply List.find_some in Hfind. destruct Hfind as [Hin _].
      now apply entries_ids in Hin. }
    rewrite (proj2 (Nat.eqb_neq i0 i)) by (intros ->; tauto).
    rewrite find_flat_map_app, Hfind; [reflexivity|].
    intros y Hy. apply entry_outside. intros Hin.
    apply (Hkb i Hi). eapply ids_of_child; eassumption.
Qed.

(** Only the root has the identity of the root. *)
Lemma entry_at_root i e kids anc x :
  List.NoDup (ids (Elem i e kids)) ->
  In x (elements_in anc (Elem i e kids)) -> ent_id x = i -> x = Entry i e anc.
Proof.
  simpl. intros Hnd [<-|Hin] Hid; [reflexivity|]. exfalso.
  apply (proj1 (List.NoDup_cons_iff _ _)) in Hnd. destruct Hnd as [Hi _].
  apply Hi. apply List.in_flat_map in Hin. destruct Hin as (k & Hk & Hx).
  apply entries_ids in Hx. rewrite Hid in Hx. eapply ids_of_child; eassumption.
Qed.

(** No text node has the identity of an element. *)
Lemma element_not_text n : forall anc x,
  List.NoDup (ids n) -> In x (elements_in anc n) -> ~ In (ent_id x) (text_ids n).
Proof.
  induction n as [i s|i e kids IH] using node_induction; intros anc x Hnd;
    [intros []|].
  simpl. intros [<-|Hin] Htxt.
  - simpl in Htxt. apply (proj1 (List.NoDup_cons_iff _ _)) in Hnd.
    destruct Hnd as [Hi _]. apply Hi.
    apply List.in_flat_map in Htxt. destruct Htxt as (k & Hk & Hx).
    eapply ids_of_child; [exact Hk|]. now apply text_ids_ids.
  - apply List.in_flat_map in Hin. destruct Hin as (k & Hk & Hx).
    destruct (List.in_split _ _ Hk) as (b & a & ->).
    destruct (NoDup_kids _ _ _ _ Hnd) as (Hndk & _ & Hkb & Hka & _).
    pose proof (entries_ids _ _ _ Hx) as Hxk.
    rewrite List.flat_map_app in Htxt. simpl in Htxt.
    apply List.in_app_or in Htxt. destruct Htxt as [Hb|Hr].
    + apply (Hkb _ Hxk). apply List.in_flat_map in Hb.
      destruct Hb as (k' & Hk' & Hj). eapply ids_of_child; [exact Hk'|].
      now apply text_ids_ids.
    + apply List.in_app_or in Hr. destruct Hr as [Hr|Ha].
      * rewrite List.Forall_forall in IH. now apply (IH k Hk _ x Hndk Hx).
      * apply (Hka _ Hxk). apply List.in_flat_map in Ha.
        destruct Ha as (k' & Hk' & Hj). eapply ids_of_child; [exact Hk'|].
        now apply text_ids_ids.
Qed.

Lemma distinct_NoDup l : distinct l = true -> List.NoDup l.
Proof.
  induction l as [|i l IH]; simpl; [constructor|].
  intros H. apply andb_prop in H. destruct H as [Hi Hl].
  constructor; [|now apply IH].
  intros Hin. apply negb_true_iff in Hi.
  assert (existsb (Nat.eqb i) l = true) as Hex; [|congruence].
  apply List.existsb_exists. exists i. split; [exact Hin|apply Nat.eqb_refl].
Qed.

Lemma NoDup_distinct l : List.NoDup l -> distinct l = true.
Proof.
  induction 1 as [|i l Hi _ IH]; simpl; [reflexivity|].
  rewrite IH, andb_true_r. apply negb_true_iff.
  destruct (existsb (Nat.eqb i) l) eqn:E; [|reflexivity].
  apply List.existsb_exists in E. destruct E as (j & Hj & Heq).
  apply Nat.eqb_eq in Heq. subst j. tauto.
Qed.

(** *** Attaching the counters *)

Lemma well_formed_spec w :
  well_formed w = true ->
  List.NoDup (ids (document w)) /\
  (forall i, In i (ids (document w)) -> i < next_node w) /\
  exists i e kids, document w = Elem i e kids /\ tagName e = "html"%string.
Proof.
  unfold well_formed. intros H.
  apply andb_prop in H. destruct H as [H Hroot].
  apply andb_prop in H. destruct H as [Hd Hb].
  split; [now apply distinct_NoDup|]. split.
  - intros i Hi. rewrite List.forallb_forall in Hb. now apply Nat.ltb_lt, Hb.
  - destruct (document w) as [|i e kids]; [discriminate|].
    exists i, e, kids. split; [reflexivity|now apply String.eqb_eq].
Qed.

Lemma matches_textarea x :
  matches sel_content_textarea x = true -> tagName (ent_elem x) = "textarea"%string.
Proof.
  unfold matches, sel_content_textarea, matches_complex, matches_compound.
  cbn [existsb subject context forallb matches_simple].
  destruct (String.eqb_spec "textarea" (tagName (ent_elem x))); [auto|discriminate].
Qed.

(** A comment textarea is an element below the root. *)
Lemma textarea_below_root t w :
  well_formed w = true ->
  In t (select sel_content_textarea (elements_in [] (document w))) ->
  In t (ids (document w)) /\ id_of (document w) <> t /\
  ~ In t (text_ids (document w)).
Proof.
  intros Hwf Hin. destruct (well_formed_spec w Hwf) as (Hnd & _ & i & e & kids & Hdoc & Htag).
  unfold select in Hin. apply List.in_map_iff in Hin.
  destruct Hin as (x & <- & Hx). apply List.filter_In in Hx. destruct Hx as [Hx Hm].
  split; [eapply entries_ids; exact Hx|]. split.
  - rewrite Hdoc in *. simpl. intros Heq.
    rewrite (entry_at_root _ _ _ _ _ Hnd Hx (eq_sym Heq)) in Hm.
    apply matches_textarea in Hm. simpl in Hm. congruence.
  - now apply (element_not_text _ [] x).
Qed.

Lemma counter_is_no_textarea i m anc :
  List.filter (matches sel_content_textarea) (elements_in anc (counter_node i m)) = [].
Proof. reflexivity. Qed.

(** What the body of the loop does for a comment textarea. *)
Lemma run_attach_counter t w :
  well_formed w = true ->
  In t (select sel_content_textarea (elements_in [] (document w))) ->
  attach_counter t w =
    (inl tt,
     let m := maxLength_of (element_at t w) in
     with_listeners (listeners w ++ [Listener (Node t) "input" (OnCommentInput m)])
       (if counted t (document w) then w
        else with_document (insert_after t (counter_node (next_node w) m))
               (with_next_node (S (S (next_node w))) w))).
Proof.
  intros Hwf Hin.
  destruct (well_formed_spec w Hwf) as (Hnd & _ & _).
  destruct (textarea_below_root t w Hwf Hin) as (Hids & Hroot & _).
  set (m := maxLength_of (element_at t w)).
  destruct (insertion_point t _ Hnd Hids Hroot)
    as (p & pn & l & Hp & Hf & Hl & Hc & Ha & _).
  assert (forall c w0,
            document w0 = document w ->
            insertBefore p c
              match following t (document w) with
              | Some (k :: _) => Some (id_of k)
              | _ => None
              end w0 =
            (inl tt, with_document (fun _ => insert_after t c (document w)) w0))
    as Hins.
  { intros c w0 Hdoc. unfold insertBefore, modify. rewrite Hl, Hdoc, Hf.
    specialize (Ha c).
    destruct l as [|k l']; simpl in Ha |- *.
    - unfold with_document. now rewrite Hdoc, Ha.
    - rewrite (Hc k eq_refl). unfold with_document. now rewrite Hdoc, Ha. }
  unfold attach_counter, bind, prop, nextElementSibling, createElement,
    with_textContent, text_nodes, parentNode, deref, nextSibling,
    addEventListener, modify, ret, throw, gets.
  cbn beta iota. fold m. rewrite Hl. unfold counted. rewrite Hl.
  destruct (first_element l) as [[i e]|] eqn:Hfe; cbn.
  - destruct (sibling_lookup _ _ _ _ _ [] Hnd Hl Hfe) as [anc' Hfind].
    unfold element_at at 1. unfold entry_of. rewrite Hfind. cbn.
    destruct (has_class "char-counter" e); cbn; [reflexivity|].
    rewrite Hp. cbn. rewrite Hins by reflexivity. reflexivity.
  - rewrite Hp. cbn. rewrite Hins by reflexivity. reflexivity.
Qed.

Lemma counted_alt t n :
  counted t n =
    match option_map first_element (following t n) with
    | Some (Some (_, e)) => has_class "char-counter" e
    | _ => false
    end.
Proof. unfold counted. now destruct (following t n). Qed.

Lemma root_insert_after t c i e kids :
  exists kids', insert_after t c (Elem i e kids) = Elem i e kids'.
Proof. simpl. destruct (existsb _ kids); eexists; reflexivity. Qed.

Lemma well_formed_intro w :
  List.NoDup (ids (document w)) ->
  (forall i, In i (ids (document w)) -> i < next_node w) ->
  (exists i e kids, document w = Elem i e kids /\ tagName e = "html"%string) ->
  well_formed w = true.
Proof.
  intros Hnd Hb (i & e & kids & Hdoc & Htag). unfold well_formed.
  rewrite (NoDup_distinct _ Hnd). simpl. apply andb_true_intro. split.
  - apply List.forallb_forall. intros j Hj. now apply Nat.ltb_lt, Hb.
  - rewrite Hdoc. now apply String.eqb_eq.
Qed.

(** The document after a counter has been put after the textarea [t]. *)
Lemma counter_inserted t m w :
  well_formed w = true ->
  In t (select sel_content_textarea (elements_in [] (document w))) ->
  let w' := with_document (insert_after t (counter_node (next_node w) m))
              (with_next_node (S (S (next_node w))) w) in
  well_formed w' = true /\
  select sel_content_textarea (elements_in [] (document w')) =
    select sel_content_textarea (elements_in [] (document w)) /\
  counted t (document w') = true /\
  (forall t', In t' (ids (document w)) -> t' <> t ->
     counted t' (document w') = counted t' (document w)).
Proof.
  intros Hwf Hin w'.
  destruct (well_formed_spec w Hwf) as (Hnd & Hb & i & e & kids & Hdoc & Htag).
  destruct (textarea_below_root t w Hwf Hin) as (Hids & Hroot & Htxt).
  set (c := counter_node (next_node w) m) in *.
  assert (forall j, In j (ids c) -> ~ In j (ids (document w))) as Hfresh.
  { intros j [<-|[<-|[]]] Hj; apply Hb in Hj; lia. }
  pose proof (ids_insert_after t c _ Hnd Hids Hroot) as Hperm.
  split; [|split; [|split]].
  - apply well_formed_intro; subst w'; simpl.
    + eapply Permutation_NoDup; [symmetry; exact Hperm|].
      apply List.NoDup_app; [|exact Hnd|exact Hfresh].
      simpl. repeat constructor; simpl; [lia|tauto].
    + intros j Hj. eapply Permutation_in in Hj; [|exact Hperm].
      apply List.in_app_or in Hj. destruct Hj as [[<-|[<-|[]]]|Hj]; try lia.
      apply Hb in Hj. lia.
    + rewrite Hdoc. destruct (root_insert_after t c i e kids) as [kids' ->].
      now exists i, e, kids'.
  - subst w'. simpl. unfold select. f_equal.
    apply filter_elements_insert_after. intros anc. apply counter_is_no_textarea.
  - subst w'. simpl. unfold counted. rewrite following_insert_after.
    destruct (insertion_point t _ Hnd Hids Hroot) as (_ & _ & l & _ & _ & -> & _).
    reflexivity.
  - intros t' Ht' Hne. subst w'. simpl. rewrite !counted_alt.
    rewrite following_other_insert_after; [reflexivity|exact Hne| |exact Htxt].
    intros Hc. now apply (Hfresh t').
Qed.

Lemma select_in_ids sel n t :
  In t (select sel (elements_in [] n)) -> In t (ids n).
Proof.
  unfold select. intros Hin. apply List.in_map_iff in Hin.
  destruct Hin as (x & <- & Hx). apply List.filter_In in Hx.
  eapply entries_ids. exact (proj1 Hx).
Qed.

(** The loop over the comment textareas: it returns normally, the
    document stays well formed with the same textareas, and every
    textarea it has visited is followed by a counter. *)
Lemma attach_counters ts : forall w,
  well_formed w = true ->
  (forall t, In t ts -> In t (select sel_content_textarea (elements_in [] (document w)))) ->
  exists w',
    forEach ts attach_counter w = (inl tt, w') /\
    well_formed w' = true /\
    select sel_content_textarea (elements_in [] (document w')) =
      select sel_content_textarea (elements_in [] (document w)) /\
    (forall t, In t (select sel_content_textarea (elements_in [] (document w))) ->
       In t ts \/ counted t (document w) = true -> counted t (document w') = true).
Proof.
  induction ts as [|t ts IH]; intros w Hwf Hts; simpl.
  - exists w. repeat split; auto. intros t _ [[]|H]; exact H.
  - unfold bind at 1. rewrite run_attach_counter by (auto; apply Hts; now left).
    set (m := maxLength_of (element_at t w)).
    destruct (counter_inserted t m w Hwf (Hts t (or_introl eq_refl)))
      as (Hwf' & Hsel' & Hct & Hother).
    match goal with |- context [forEach ts attach_counter ?s] => set (w1 := s) end.
    assert (well_formed w1 = true /\
            select sel_content_textarea (elements_in [] (document w1)) =
              select sel_content_textarea (elements_in [] (document w)) /\
            counted t (document w1) = true /\
            (forall t', In t' (ids (document w)) ->
               counted t' (document w) = true -> counted t' (document w1) = true))
      as (Hwf1 & Hsel1 & Hct1 & Hother1).
    { subst w1. simpl. destruct (counted t (document w)) eqn:E.
      - repeat split; auto.
      - repeat split; auto. intros t' Ht' Hc.
        destruct (Nat.eq_dec t' t) as [->|Hne]; [congruence|].
        change (counted t' (insert_after t (counter_node (next_node w) m) (document w)) = true).
        simpl in Hother. rewrite Hother; auto. }
    destruct (IH w1 Hwf1) as (w' & Hrun & Hwf2 & Hsel2 & Hall).
    { intros t' Ht'. rewrite Hsel1. apply Hts. now right. }
    exists w'. split; [exact Hrun|]. split; [exact Hwf2|].
    split; [now rewrite Hsel2|].
    intros t' Hin [[<-|Ht']|Hc]; apply Hall; rewrite ?Hsel1; auto.
    right. apply Hother1; [|exact Hc]. eapply select_in_ids; exact Hin.
Qed.

(** The loop over textareas that all have their counter changes
    neither the document nor the supply of identities. *)
Lemma attach_counters_again ts : forall w,
  well_formed w = true ->
  (forall t, In t ts ->
     In t (select sel_content_textarea (elements_in [] (document w))) /\
     counted t (document w) = true) ->
  exists w',
    forEach ts attach_counter w = (inl tt, w') /\
    document w' = document w /\ next_node w' = next_node w.
Proof.
  induction ts as [|t ts IH]; intros w Hwf Hts; simpl.
  - now exists w.
  - destruct (Hts t (or_introl eq_refl)) as [Hin Hc].
    unfold bind at 1. rewrite run_attach_counter by auto. rewrite Hc. simpl.
    match goal with |- context [forEach ts attach_counter ?s] => set (w1 := s) end.
    destruct (IH w1) as (w' & Hrun & Hdoc & Hnext).
    + exact Hwf.
    + intros t' Ht'. apply Hts. now right.
    + exists w'. split; [exact Hrun|]. split; [exact Hdoc|exact Hnext].
Qed.

Lemma forEach_reply_buttons (l : list node_id) : forall w,
  forEach l (fun btn => addEventListener (Node btn) "click" OnReplyClick) w =
    (inl tt,
     with_listeners
       (listeners w ++ List.map (fun btn => Listener (Node btn) "click" OnReplyClick) l) w).
Proof.
  induction l as [|b l IH]; intros w; simpl.
  - unfold ret, with_listeners. rewrite List.app_nil_r. now destruct w.
  - unfold bind, addEventListener at 1, modify. rewrite IH. simpl.
    unfold with_listeners. simpl. now rewrite <- List.app_assoc.
Qed.

(** [initCommentSystem] is its loop over the comment textareas, run
    after the listeners of the reply buttons have been registered. *)
Lemma run_initCommentSystem w :
  initCommentSystem w =
    forEach (select sel_content_textarea (elements_in [] (document w)))
      attach_counter
      (with_listeners
         (listeners w ++
          List.map (fun btn => Listener (Node btn) "click" OnReplyClick)
            (select sel_reply_btn (elements_in [] (document w)))) w).
Proof.
  unfold initCommentSystem, bind at 1, querySelectorAll at 1, gets.
  unfold bind at 1. rewrite forEach_reply_buttons.
  unfold bind, querySelectorAll, gets. reflexivity.
Qed.

(** Once every textarea has its counter, the initializer changes
    neither the document nor the supply of identities, however often
    it runs. *)
Lemma initCommentSystem_stable n : forall w,
  well_formed w = true ->
  (forall t, In t (select sel_content_textarea (elements_in [] (document w))) ->
     counted t (document w) = true) ->
  exists w',
    initCommentSystem_times n w = (inl tt, w') /\
    document w' = document w /\ next_node w' = next_node w.
Proof.
  induction n as [|n IH]; intros w Hwf Hall; simpl.
  - now exists w.
  - unfold bind. rewrite run_initCommentSystem.
    match goal with
    | |- context [forEach ?ts attach_counter ?s] =>
        destruct (attach_counters_again ts s) as (w1 & -> & Hdoc & Hnext)
    end; [exact Hwf|simpl; auto|].
    simpl in Hdoc, Hnext.
    destruct (IH w1) as (w' & Hrun & Hdoc' & Hnext').
    + unfold well_formed in *. now rewrite Hdoc, Hnext.
    + rewrite Hdoc. exact Hall.
    + exists w'. split; [exact Hrun|]. split; congruence.
Qed.

(** C9. On a well-formed document, [initCommentSystem] returns
    normally and leaves every comment textarea followed by a
    [char-counter] element; the loop body creates a counter for a
    textarea exactly when its next element sibling is not one already.
    Run again any number of times, the initializer creates no node:
    the document stays the same, so no textarea ever gets a second
    counter. *)
Theorem comment_counters_attached_once (w : world) :
  well_formed w = true ->
  exists w1,
    initCommentSystem w = (inl tt, w1) /\
    (forall t, In t (select sel_content_textarea (elements_in [] (document w1))) ->
       counted t (document w1) = true) /\
    (forall n, exists wn,
       initCommentSystem_times n w1 = (inl tt, wn) /\
       document wn = document w1 /\ next_node wn = next_node w1) /\
    (forall t, In t (select sel_content_textarea (elements_in [] (document w))) ->
       exists w',
         attach_counter t w = (inl tt, w') /\
         document w' =
           (if counted t (document w) then document w
            else insert_after t
                   (counter_node (next_node w) (maxLength_of (element_at t w)))
                   (document w))).
Proof.
  intros Hwf. rewrite run_initCommentSystem.
  match goal with
  | |- context [forEach ?ts attach_counter ?s] =>
      destruct (attach_counters ts s) as (w1 & -> & Hwf1 & Hsel1 & Hall1)
  end; [exact Hwf|auto|].
  simpl in Hsel1, Hall1.
  assert (forall t, In t (select sel_content_textarea (elements_in [] (document w1))) ->
            counted t (document w1) = true) as Hcounted.
  { intros t Ht. rewrite Hsel1 in Ht. apply Hall1; auto. }
  exists w1. split; [reflexivity|]. split; [exact Hcounted|]. split.
  - intros n. now apply initCommentSystem_stable.
  - intros t Ht. rewrite (run_attach_counter t w Hwf Ht).
    eexists. split; [reflexivity|]. simpl.
    now destruct (counted t (document w)).
Qed.

Lemma comment_counters_attached_once_witness :
  exists w1,
    initCommentSystem (post_page NoGlobal) = (inl tt, w1) /\
    (forall t, In t (select sel_content_textarea (elements_in [] (document w1))) ->
       counted t (document w1) = true) /\
    (forall n, exists wn,
       initCommentSystem_times n w1 = (inl tt, wn) /\
       document wn = document w1 /\ next_node wn = next_node w1) /\
    (forall t, In t (select sel_content_textarea
                       (elements_in [] (document (post_page NoGlobal)))) ->
       exists w',
         attach_counter t (post_page NoGlobal) = (inl tt, w') /\
         document w' =
           (if counted t (document (post_page NoGlobal))
            then document (post_page NoGlobal)
            else insert_after t
                   (counter_node (next_node (post_page NoGlobal))
                      (maxLength_of (element_at t (post_page NoGlobal))))
                   (document (post_page NoGlobal)))).
Proof.
  apply (comment_counters_attached_once (post_page NoGlobal)). reflexivity.
Defined.

Example counters_on_post_page :
  let w1 := snd (initCommentSystem (post_page NoGlobal)) in
  let w3 := snd (initCommentSystem_times 2 w1) in
  ids (document w1) =
    [0; 1; 2; 3; 4; 5; 6; 7; 8; 9; 10; 11; 12; 13; 19; 20; 14; 15; 16; 17; 18] /\
  ids (document w3) = ids (document w1) /\
  length (listeners w3) = 6.
Proof. vm_compute. repeat split. Qed.

End CounterProps.

(** * Further properties *)

(** ** The relative-time formatter, by ranges *)

Module TimeAgoMore.

Import TimeAgo TimeAgoProps.

Local Ltac div_lia := Z.to_euclidean_division_equations; lia.

(** X1. A date less than a minute old, and any date in the future, is
    "just now". *)
Theorem timeAgo_recent_or_future (toLocale : number -> jsstring) (now past : Z) :
  now - past < 60000 ->
  timeAgo toLocale now (Some past) = lit "just now".
Proof.
  intros H. rewrite timeAgo_distance. cbv zeta.
  destruct (Z.ltb_spec ((now - past) / 1000) 60) as [_|Hge]; [reflexivity|].
  exfalso. div_lia.
Qed.

Lemma timeAgo_recent_or_future_witness :
  timeAgo (fun _ => lit "1/1/2030") 1000 (Some 5000) = lit "just now".
Proof. apply (timeAgo_recent_or_future (fun _ => lit "1/1/2030") 1000 5000). lia. Defined.

Lemma phrase_count n unit :
  phrase (Some n) unit =
    of_Z n ++ lit " " ++ lit unit ++ (if n >? 1 then lit "s ago" else lit " ago").
Proof. unfold phrase, gt, to_string. now destruct (n >? 1). Qed.

(** X2. Between a minute and a week the answer counts whole minutes,
    hours or days of the distance [d] in milliseconds: [d / 60000]
    minutes below an hour, [d / 3600000] hours below a day and
    [d / 86400000] days below a week, in the singular exactly when the
    count is 1. *)
Theorem timeAgo_counts_whole_units (toLocale : number -> jsstring) (now past : Z) :
  let d := now - past in
  (60000 <= d < 3600000 ->
     timeAgo toLocale now (Some past) =
       of_Z (d / 60000)
         ++ (if d <? 120000 then lit " minute ago" else lit " minutes ago")) /\
  (3600000 <= d < 86400000 ->
     timeAgo toLocale now (Some past) =
       of_Z (d / 3600000)
         ++ (if d <? 7200000 then lit " hour ago" else lit " hours ago")) /\
  (86400000 <= d < 604800000 ->
     timeAgo toLocale now (Some past) =
       of_Z (d / 86400000)
         ++ (if d <? 172800000 then lit " day ago" else lit " days ago")).
Proof.
  intros d. rewrite timeAgo_distance. fold d. cbv zeta.
  assert (d / 1000 / 60 = d / 60000) as Hm by (rewrite Z.div_div; [reflexivity|lia|lia]).
  assert (d / 1000 / 60 / 60 = d / 3600000) as Hh
    by (rewrite Hm, Z.div_div; [reflexivity|lia|lia]).
  assert (d / 1000 / 60 / 60 / 24 = d / 86400000) as Hd
    by (rewrite Hh, Z.div_div; [reflexivity|lia|lia]).
  rewrite Hd, Hh, Hm. rewrite !phrase_count.
  repeat split; intros Hr.
  - destruct (Z.ltb_spec (d / 1000) 60); [div_lia|].
    destruct (Z.ltb_spec (d / 60000) 60); [|div_lia].
    destruct (Z.ltb_spec d 120000), (Z.gtb_spec (d / 60000) 1); try div_lia; reflexivity.
  - destruct (Z.ltb_spec (d / 1000) 60); [div_lia|].
    destruct (Z.ltb_spec (d / 60000) 60); [div_lia|].
    destruct (Z.ltb_spec (d / 3600000) 24); [|div_lia].
    destruct (Z.ltb_spec d 7200000), (Z.gtb_spec (d / 3600000) 1); try div_lia; reflexivity.
  - destruct (Z.ltb_spec (d / 1000) 60); [div_lia|].
    destruct (Z.ltb_spec (d / 60000) 60); [div_lia|].
    destruct (Z.ltb_spec (d / 3600000) 24); [div_lia|].
    destruct (Z.ltb_spec (d / 86400000) 7); [|div_lia].
    destruct (Z.ltb_spec d 172800000), (Z.gtb_spec (d / 86400000) 1); try div_lia; reflexivity.
Qed.

Lemma timeAgo_counts_whole_units_witness :
  timeAgo (fun _ => lit "1/1/2030") 5400000 (Some 0) = lit "1 hour ago".
Proof.
  apply (proj1 (proj2 (timeAgo_counts_whole_units (fun _ => lit "1/1/2030") 5400000 0))).
  simpl. lia.
Defined.

(** X3. A date a week old or older, and a date that does not parse,
    are printed by [toLocaleDateString] and never as a relative
    phrase. *)
Theorem timeAgo_old_or_invalid (toLocale : number -> jsstring) (now : Z) (past : number) :
  match past with
  | Some p => 604800000 <= now - p
  | None => True
  end ->
  timeAgo toLocale now past = toLocale past.
Proof.
  destruct past as [p|]; [|reflexivity]. intros H.
  rewrite timeAgo_distance. cbv zeta.
  assert ((now - p) / 1000 / 60 = (now - p) / 60000) as Hm
    by (rewrite Z.div_div; [reflexivity|lia|lia]).
  assert ((now - p) / 1000 / 60 / 60 = (now - p) / 3600000) as Hh
    by (rewrite Hm, Z.div_div; [reflexivity|lia|lia]).
  assert ((now - p) / 1000 / 60 / 60 / 24 = (now - p) / 86400000) as Hd
    by (rewrite Hh, Z.div_div; [reflexivity|lia|lia]).
  rewrite Hd, Hh, Hm.
  destruct (Z.ltb_spec ((now - p) / 1000) 60); [div_lia|].
  destruct (Z.ltb_spec ((now - p) / 60000) 60); [div_lia|].
  destruct (Z.ltb_spec ((now - p) / 3600000) 24); [div_lia|].
  destruct (Z.ltb_spec ((now - p) / 86400000) 7); [div_lia|]. reflexivity.
Qed.

Lemma timeAgo_old_or_invalid_witness :
  timeAgo (fun _ => lit "1/1/2030") 604800000 (Some 0) = lit "1/1/2030".
Proof.
  apply (timeAgo_old_or_invalid (fun _ => lit "1/1/2030") 604800000 (Some 0)).
  simpl. lia.
Defined.

End TimeAgoMore.

(** ** The debounce closure, for any sequence of calls *)

Module DebounceMore.

Import Debounce DebounceProps.

Section WithArgs.

Context {A : Type}.
Implicit Types (s : state A) (cs : list (nat * A)).






(** X5. Whatever calls are made and however time passes, at most one
    timer of the closure is pending, and it is the one whose handle
    the variable [timeout] holds. *)
Theorem debounce_one_timer (wait : nat) s :
  reachable wait s ->
  pending s = [] \/
  exists h d a, pending s = [Timer h d a] /\ timeout s = Some h.
Proof.
  induction 1 as [t0|s a _ IH|s t _ IH].
  - now left.
  - right. unfold executedFunction, setTimeout, clearTimeout.
    destruct IH as [Hp|(h & d & a' & Hp & Ht)].
    + destruct (timeout s); simpl; rewrite Hp; simpl; eauto.
    + rewrite Ht. simpl. rewrite Hp. simpl. rewrite Nat.eqb_refl. simpl. eauto.
  - destruct IH as [Hp|(h & d & a' & Hp & Ht)].
    + left. unfold advance. rewrite Hp. simpl. exact Hp.
    + unfold advance. rewrite Hp. simpl.
      unfold fire, later, func, clearTimeout. simpl. rewrite Hp, Ht. simpl.
      rewrite Nat.eqb_refl. simpl.
      destruct (Nat.leb d t); simpl; [now left|right; eauto].
Qed.

End WithArgs.


Lemma debounce_one_timer_witness :
  let s := advance 60 (executedFunction 100 "b" (executedFunction 100 "a" (debounce 0))) in
  pending s = [] \/ exists h d a, pending s = [Timer h d a] /\ timeout s = Some h.
Proof.
  apply (debounce_one_timer 100). repeat constructor.
Defined.

End DebounceMore.

(** ** The threshold of the comment counter *)

Module NearLimitProps.

Import NearLimit.

(** What rounding does to an integer: the result is a multiple [q' * p]
    of a power of two [p] that divides 2^53, at most [p / 2] away. *)
Lemma round53_spec n :
  0 <= n < 2 ^ 101 ->
  exists p s q',
    round53 n = q' * p /\ 0 < p /\ p * s = 2 ^ 53 /\ 0 < s /\
    p * 2 ^ 52 <= Z.max n (2 ^ 52) /\
    n < (q' + 1) * p /\
    2 * (q' * p) <= 2 * n + p /\ 2 * n <= 2 * (q' * p) + p /\
    (p = 1 -> q' = n).
Proof.
  intros [Hn0 Hn]. unfold round53.
  destruct (Z.leb_spec (Z.log2 n - 52) 0) as [Hk|Hk].
  - exists 1, (2 ^ 53), n. assert (n < 2 ^ 53).
    { destruct (Z.eq_dec n 0) as [->|]; [reflexivity|].
      apply Z.log2_lt_pow2; lia. }
    repeat split; try lia.
  - set (k := Z.log2 n - 52) in *.
    assert (0 < n) as Hpos by (destruct (Z.eq_dec n 0) as [->|]; [discriminate Hk|lia]).
    assert (k <= 48) as Hk48.
    { assert (Z.log2 n < 101) by (apply Z.log2_lt_pow2; lia). lia. }
    assert (2 ^ k = 2 * 2 ^ (k - 1)) as Hp2.
    { rewrite <- Z.pow_succ_r by lia. f_equal. lia. }
    assert (0 < 2 ^ (k - 1)) as Hhalf by (apply Z.pow_pos_nonneg; lia).
    assert (2 ^ k * 2 ^ (53 - k) = 2 ^ 53) as Hs.
    { rewrite <- Z.pow_add_r by lia. f_equal. lia. }
    assert (0 < 2 ^ (53 - k)) as Hs0 by (apply Z.pow_pos_nonneg; lia).
    assert (2 ^ k * 2 ^ 52 <= n) as Hlow.
    { rewrite <- Z.pow_add_r by lia. replace (k + 52) with (Z.log2 n) by lia.
      apply Z.log2_spec. exact Hpos. }
    pose proof (Z.div_mod n (2 ^ k) ltac:(lia)) as Hdm.
    pose proof (Z.mod_pos_bound n (2 ^ k) ltac:(lia)) as Hr.
    set (q := n / 2 ^ k) in *. set (r := n mod 2 ^ k) in *.
    set (p := 2 ^ k) in *. set (h := 2 ^ (k - 1)) in *.
    exists p, (2 ^ (53 - k)).
    destruct ((h <? r) || ((r =? h) && Z.odd q)) eqn:Hup.
    + exists (q + 1). assert (h <= r) as Hhr.
      { apply orb_true_iff in Hup. destruct Hup as [Hup|Hup].
        - apply Z.ltb_lt in Hup. lia.
        - apply andb_true_iff in Hup. destruct Hup as [Hup _].
          apply Z.eqb_eq in Hup. lia. }
      repeat split; try lia.
    + exists q. assert (r <= h) as Hhr.
      { apply orb_false_iff in Hup. destruct Hup as [Hup _].
        apply Z.ltb_ge in Hup. exact Hup. }
      repeat split; try lia.
Qed.

(** For a limit below 2^48, [current > max * 0.9] in floating point
    says what it says of the integers: ten times [current] is more
    than nine times [max]. *)
Lemma exceeds_spec c m :
  0 <= c -> 0 <= m < 2 ^ 48 ->
  exceeds c m = (9 * m <? 10 * c).
Proof.
  intros Hc Hm. unfold exceeds.
  destruct (round53_spec (m * nine_tenths))
    as (p & s & q & -> & Hp & Hps & Hs & Hlow & Hq & Hhi & Hlo & Hone).
  { unfold nine_tenths. change (2 ^ 101) with 2535301200456458802993406410752.
    change (2 ^ 48) with 281474976710656 in Hm. lia. }
  unfold nine_tenths in *.
  change (2 ^ 53) with 9007199254740992 in *.
  change (2 ^ 52) with 4503599627370496 in *.
  change (2 ^ 48) with 281474976710656 in *.
  set (n := m * 8106479329266893) in *.
  assert (10 * n = 81064793292668930 * m) as Hn by (unfold n; lia).
  destruct (Z.ltb_spec (9 * m) (10 * c)) as [Hlt|Hge].
  - apply Z.ltb_lt. lia.
  - apply Z.ltb_ge.
    destruct (Z.eq_dec (10 * c) (9 * m)) as [Heq|Hne]; [|lia].
    assert (c * 9007199254740992 <= n) as Hcn by lia.
    rewrite <- Hps. rewrite <- Hps in Hcn.
    assert (c * s < q + 1) as Hcs.
    { apply (Z.mul_lt_mono_pos_r p); [exact Hp|]. lia. }
    nia.
Qed.

(** Above that bound the rounding of the product can decide: here ten
    times [current] is more than nine times the limit, and yet
    [current > max * 0.9] is false. *)
Example exceeds_rounds :
  exceeds 6649121865126561 7387913183473956 = false /\
  (9 * 7387913183473956 <? 10 * 6649121865126561) = true.
Proof. split; reflexivity. Qed.

Example near_limit_500 :
  near_limit (fun _ _ => false) 450 (JSString.lit "500") = false /\
  near_limit (fun _ _ => false) 451 (JSString.lit "500") = true.
Proof. split; reflexivity. Qed.

Lemma digits_from_nonneg s : forall acc m,
  (0 <= acc)%Z -> digits_from acc s = Some m -> (0 <= m)%Z.
Proof.
  induction s as [|c s IH]; intros acc m Hacc; simpl.
  - now intros [= <-].
  - destruct (is_digit c); [|discriminate]. apply IH. lia.
Qed.

(** For a limit written in digits and below 2^48, the comparison is
    that of the integers. *)
Lemma near_limit_spec other current maxLength m :
  digits maxLength = Some m -> (m < 2 ^ 48)%Z ->
  near_limit other current maxLength =
    (9 * m <? 10 * Z.of_nat current)%Z.
Proof.
  intros Hd Hm. unfold near_limit. rewrite Hd.
  assert (0 <= m)%Z as H0.
  { destruct maxLength; [discriminate|]. eapply digits_from_nonneg; [|exact Hd]. lia. }
  destruct (Z.ltb_spec m (2 ^ 53)) as [_|Hge].
  - apply exceeds_spec; lia.
  - change (2 ^ 53)%Z with 9007199254740992%Z in Hge.
    change (2 ^ 48)%Z with 281474976710656%Z in Hm. lia.
Qed.

End NearLimitProps.

(** ** Listeners and callbacks of the page *)

Module PageMore.

Import JS JS.Notations Page PageProps CounterProps JSStringProps NearLimitProps.

Section WithNearLimit.

Variable near_limit : nat -> jsstring -> bool.

(** *** The search shortcut *)

Lemma run_isInputFocused w :
  isInputFocused w =
    (inl match activeElement w with
         | Some a => is_field (element_at a w)
         | None => false
         end, w).
Proof.
  unfold isInputFocused, bind, gets, prop, ret.
  destruct (activeElement w); reflexivity.
Qed.

(** X6. The keydown listener leaves the page alone for every key other
    than [/] and whenever the focus is in an input, a textarea, a
    select or an editable element, so a slash can be typed into a
    field.  Otherwise it prevents the default action of the key, also
    when the page has no navbar search field, and calls [focus] on the
    first such field when there is one: the focus moves there if that
    field can take it, and stays where it was if not. *)
Theorem slash_key_focuses_search_unless_typing (e : event) (w : world) :
  let typing := match activeElement w with
                | Some a => is_field (element_at a w)
                | None => false
                end in
  (key e <> lit "/" \/ typing = true ->
     run_handler near_limit OnSlashKey Document e w = (inl tt, w)) /\
  (key e = lit "/" -> typing = false ->
     exists w',
       run_handler near_limit OnSlashKey Document e w = (inl tt, w') /\
       prevented w' = true /\ document w' = document w /\
       activeElement w' =
         match head (select sel_navbar_search (elements_in [] (document w))) with
         | Some i => if focusable w (document w) i then Some i else activeElement w
         | None => activeElement w
         end).
Proof.
  intros typing. split.
  - intros H. unfold run_handler, bind at 1. rewrite run_isInputFocused. fold typing.
    destruct H as [H| ->].
    + unfold jsstring_eqb. rewrite bool_decide_eq_false_2 by exact H. reflexivity.
    + now rewrite andb_false_r.
  - intros Hk Ht. unfold run_handler, bind at 1. rewrite run_isInputFocused. fold typing.
    rewrite Ht. unfold jsstring_eqb. rewrite bool_decide_eq_true_2 by exact Hk. simpl.
    unfold bind, preventDefault, modify, querySelector, gets, focus, modify.
    cbn [document with_prevented focusable].
    destruct (head (select sel_navbar_search (elements_in [] (document w)))) as [i|];
      [|eexists; repeat split].
    change (focusable (with_prevented true w) (document (with_prevented true w)) i)
      with (focusable w (document w) i).
    destruct (focusable w (document w) i); eexists; repeat split.
Qed.

(** X7. The submit listener of a search input blocks the submission
    exactly when the query is empty or made of white space only. *)
Theorem search_submit_blocks_white_space_only
    (input : node_id) (this : target) (e : event) (w : world) :
  prevented w = false ->
  prevented (snd (run_handler near_limit (OnSearchSubmit input) this e w)) = true
  <-> forallb is_space (value (element_at input w)) = true.
Proof.
  intros Hp. rewrite run_OnSearchSubmit, <- trim_nil.
  destruct (trim (value (element_at input w))); simpl;
    [destruct (focusable w (document w) input); simpl; tauto|].
  rewrite Hp. split; discriminate.
Qed.

End WithNearLimit.

Lemma slash_key_focuses_search_unless_typing_witness :
  exists w',
    run_handler (fun _ _ => false) OnSlashKey Document (Event (lit "/") Document)
      (post_page NoGlobal) = (inl tt, w') /\
    prevented w' = true /\ document w' = document (post_page NoGlobal) /\
    activeElement w' = Some 4%nat.
Proof.
  apply (proj2 (slash_key_focuses_search_unless_typing (fun _ _ => false)
                  (Event (lit "/") Document) (post_page NoGlobal)));
    reflexivity.
Defined.

Lemma search_submit_blocks_white_space_only_witness :
  prevented (snd (run_handler (fun _ _ => false) (OnSearchSubmit 4%nat) (Node 3%nat)
                    (Event [] (Node 3%nat)) (post_page NoGlobal))) = true
  <-> forallb is_space (value (element_at 4%nat (post_page NoGlobal))) = true.
Proof.
  apply (search_submit_blocks_white_space_only (fun _ _ => false)). reflexivity.
Defined.

(** *** The reply form *)

Lemma has_class_remove c d e :
  has_class c (remove_class d e) = has_class c e && negb (String.eqb c d).
Proof.
  unfold has_class, remove_class. simpl.
  induction (classList e) as [|x l IH]; simpl; [reflexivity|].
  destruct (String.eqb_spec d x) as [->|Hdx]; simpl.
  - rewrite IH. destruct (String.eqb_spec c x) as [->|]; simpl; [|reflexivity].
    now rewrite andb_false_r.
  - rewrite IH. destruct (String.eqb_spec c x) as [->|]; simpl; [|reflexivity].
    destruct (String.eqb_spec x d); [congruence|reflexivity].
Qed.

Lemma has_class_add c d e :
  has_class c (add_class d e) = has_class c e || String.eqb c d.
Proof.
  unfold add_class. destruct (has_class d e) eqn:Hd.
  - destruct (String.eqb_spec c d) as [->|]; [now rewrite Hd|now rewrite orb_false_r].
  - unfold has_class. simpl. rewrite List.existsb_app. simpl.
    now rewrite orb_false_r.
Qed.

Lemma has_class_toggle c d e :
  has_class c (toggle_class d e) =
    if String.eqb c d then negb (has_class d e) else has_class c e.
Proof.
  unfold toggle_class. destruct (has_class d e) eqn:Hd.
  - rewrite has_class_remove. destruct (String.eqb_spec c d) as [->|]; simpl.
    + now rewrite andb_false_r.
    + now rewrite andb_true_r.
  - rewrite has_class_add. destruct (String.eqb_spec c d) as [->|]; simpl.
    + now rewrite orb_true_r.
    + now rewrite orb_false_r.
Qed.

Lemma find_is_Some {X} (p : X -> bool) (l : list X) x :
  In x l -> p x = true -> is_Some (List.find p l).
Proof.
  intros Hin Hp. destruct (List.find p l) eqn:E; [eauto|].
  pose proof (List.find_none _ _ E x Hin). congruence.
Qed.

(** An element found by its [id] attribute is an element of the
    document. *)
Lemma getElementById_entry s w f :
  getElementById s w = (inl (Some f), w) -> is_Some (entry_of f (document w)).
Proof.
  unfold getElementById, gets. intros H. inversion H as [Hf].
  destruct (List.find (has_id s) (elements_in [] (document w))) as [x|] eqn:E;
    [|discriminate].
  simpl in Hf. inversion Hf; subst f.
  apply List.find_some in E. destruct E as [Hin _].
  eapply find_is_Some; [exact Hin|]. apply Nat.eqb_refl.
Qed.

(** Writing classes or styles changes no [id] attribute: the same
    element is found. *)
Lemma getElementById_update s i f w :
  (forall e, attrs (f e) = attrs e) ->
  getElementById s (with_document (update i f) w) =
    (fst (getElementById s w), with_document (update i f) w).
Proof.
  intros Hf. unfold getElementById, gets. simpl. f_equal. f_equal.
  pose proof (elements_in_update i f (document w) []) as H. simpl in H. rewrite H.
  rewrite find_map_id.
  - destruct (List.find (has_id s) (elements_in [] (document w))); reflexivity.
  - intros x. unfold has_id, upd_entry. simpl.
    destruct (Nat.eqb (ent_id x) i); [now rewrite Hf|reflexivity].
Qed.

Lemma element_at_update_attrs i f j w :
  (forall e, attrs (f e) = attrs e) ->
  attrs (element_at j (with_document (update i f) w)) = attrs (element_at j w).
Proof.
  intros Hf. unfold element_at. simpl. rewrite entry_of_update.
  destruct (entry_of j (document w)) as [x|]; simpl; [|reflexivity].
  destruct (Nat.eqb (ent_id x) i); [apply Hf|reflexivity].
Qed.

Lemma attrs_toggle_class c e : attrs (toggle_class c e) = attrs e.
Proof.
  unfold toggle_class, remove_class, add_class.
  destruct (has_class c e); reflexivity.
Qed.

Section ReplyForm.

Variable near_limit : nat -> jsstring -> bool.

(** X8. When the reply form of a button exists, a click flips whether
    the form has the class [d-none] and keeps every other class of
    the form; the form is found again by the next click, so a second
    click undoes the first.  A click that hides the form moves no
    focus. *)
Theorem reply_click_toggles_form (btn form : node_id) (e : event) (w : world) :
  getElementById (reply_form_id btn w) w = (inl (Some form), w) ->
  exists w',
    run_handler near_limit OnReplyClick (Node btn) e w = (inl tt, w') /\
    (forall c, has_class c (element_at form w') =
               if String.eqb c "d-none"
               then negb (has_class "d-none" (element_at form w))
               else has_class c (element_at form w)) /\
    (has_class "d-none" (element_at form w') = true ->
       activeElement w' = activeElement w) /\
    getElementById (reply_form_id btn w') w' = (inl (Some form), w').
Proof.
  intros H. destruct (getElementById_entry _ _ _ H) as [x Hx].
  set (w1 := with_document (update form (toggle_class "d-none")) w).
  assert (element_at form w1 = toggle_class "d-none" (element_at form w)) as He.
  { unfold w1. rewrite (element_at_set _ _ _ _ Hx). unfold element_at. now rewrite Hx. }
  assert (getElementById (reply_form_id btn w1) w1 = (inl (Some form), w1)) as Hg.
  { unfold reply_form_id, w1.
    rewrite element_at_update_attrs by apply attrs_toggle_class.
    rewrite getElementById_update by apply attrs_toggle_class.
    fold (reply_form_id btn w). now rewrite H. }
  unfold run_handler, bind at 1, this_element, ret.
  unfold bind at 1, prop at 1, gets at 1. unfold bind at 1. fold (reply_form_id btn w).
  rewrite H. unfold bind at 1, set at 1, modify. fold w1.
  unfold bind at 1, prop at 1, gets at 1. rewrite He.
  destruct (has_class "d-none" (toggle_class "d-none" (element_at form w))) eqn:Hh;
    simpl.
  - exists w1. split; [reflexivity|]. split; [|split].
    + intros c. rewrite He. apply has_class_toggle.
    + reflexivity.
    + exact Hg.
  - unfold bind, querySelectorIn, gets, focus, modify.
    destruct (head (select sel_content_input (descendants form (document w1))))
      as [i|]; [destruct (focusable w1 (document w1) i)|].
    + eexists. split; [reflexivity|]. split; [|split].
      * intros c. change (element_at form (with_activeElement (Some i) w1))
          with (element_at form w1). rewrite He. apply has_class_toggle.
      * change (element_at form (with_activeElement (Some i) w1))
          with (element_at form w1). rewrite He, Hh. discriminate.
      * change (reply_form_id btn (with_activeElement (Some i) w1))
          with (reply_form_id btn w1).
        unfold getElementById, gets in Hg |- *. inversion Hg as [Hg'].
        change (document (with_activeElement (Some i) w1)) with (document w1).
        reflexivity.
    + exists w1. split; [reflexivity|]. split; [|split].
      * intros c. rewrite He. apply has_class_toggle.
      * reflexivity.
      * exact Hg.
    + exists w1. split; [reflexivity|]. split; [|split].
      * intros c. rewrite He. apply has_class_toggle.
      * reflexivity.
      * exact Hg.
Qed.

End ReplyForm.

Lemma reply_click_toggles_form_witness :
  exists w',
    run_handler (fun _ _ => false) OnReplyClick (Node 9%nat) (Event [] (Node 9%nat))
      (post_page NoGlobal) = (inl tt, w') /\
    (forall c, has_class c (element_at 10%nat w') =
               if String.eqb c "d-none"
               then negb (has_class "d-none" (element_at 10%nat (post_page NoGlobal)))
               else has_class c (element_at 10%nat (post_page NoGlobal))) /\
    (has_class "d-none" (element_at 10%nat w') = true ->
       activeElement w' = activeElement (post_page NoGlobal)) /\
    getElementById (reply_form_id 9%nat w') w' = (inl (Some 10%nat), w').
Proof.
  apply (reply_click_toggles_form (fun _ _ => false) 9%nat 10%nat
           (Event [] (Node 9%nat)) (post_page NoGlobal)).
  reflexivity.
Defined.

(** *** Alerts without a Bootstrap instance *)

Lemma ids_update i f n : ids (update i f n) = ids n.
Proof.
  induction n as [j s|j e kids IH] using node_induction; simpl; [reflexivity|].
  f_equal. induction IH as [|k l Hk _ IHl]; simpl; [reflexivity|].
  now rewrite Hk, IHl.
Qed.

Lemma detach_ids a n :
  id_of n <> a ->
  ~ In a (ids (detach a n)) /\ (forall j, In j (ids (detach a n)) -> In j (ids n)).
Proof.
  induction n as [j s|j e kids IH] using node_induction; simpl.
  - intros H. split; [intros [Hj|[]]; congruence|tauto].
  - intros Hroot.
    assert (~ In a (List.flat_map ids
                      ((fix rest (l : list node) : list node :=
                          match l with
                          | [] => []
                          | k :: l' =>
                              if Nat.eqb (id_of k) a then rest l'
                              else detach a k :: rest l'
                          end) kids)) /\
            (forall j0,
               In j0 (List.flat_map ids
                        ((fix rest (l : list node) : list node :=
                            match l with
                            | [] => []
                            | k :: l' =>
                                if Nat.eqb (id_of k) a then rest l'
                                else detach a k :: rest l'
                            end) kids)) ->
               In j0 (List.flat_map ids kids))) as [Hn Hi].
    { induction IH as [|k l Hk _ IHl]; simpl; [tauto|].
      destruct IHl as [Hn Hi].
      destruct (Nat.eqb_spec (id_of k) a) as [Heq|Hne].
      - split; [exact Hn|]. intros j0 Hj0. apply List.in_or_app. right. now apply Hi.
      - destruct (Hk Hne) as [Hkn Hki]. split.
        + simpl. intros Hin. apply List.in_app_or in Hin. tauto.
        + simpl. intros j0 Hj0. apply List.in_app_or in Hj0.
          apply List.in_or_app. destruct Hj0; auto. }
    split.
    + intros [Hj|Hin]; [congruence|tauto].
    + intros j0 [Hj|Hin]; [now left|right; now apply Hi].
Qed.

(** X9. With Bootstrap loaded but without an instance for the alert,
    the dismissal callback fades the alert and schedules its removal
    300 ms later; once that second callback has run, the alert is no
    longer in the document and no node has been added. *)
Theorem alert_fades_and_is_removed
    (instance : node_id -> bool) (alert : node_id) (w : world) :
  bootstrap w = Loaded instance -> instance alert = false ->
  id_of (document w) <> alert ->
  exists w1 w2,
    run_callback (AutoHide alert) w = (inl tt, w1) /\
    timers w1 = timers w ++ [Timer (next_timer w) (now w + 300) (RemoveAlert alert)] /\
    (is_Some (entry_of alert (document w)) ->
       style (element_at alert w1) !! "opacity" = Some (lit "0")) /\
    run_callback (RemoveAlert alert) w1 = (inl tt, w2) /\
    ~ In alert (ids (document w2)) /\
    (forall j, In j (ids (document w2)) -> In j (ids (document w))).
Proof.
  intros Hb Hi Hroot. rewrite (auto_hide_with_bootstrap w instance alert Hb), Hi.
  eexists. eexists. split; [reflexivity|]. split; [reflexivity|]. split; [|split].
  - intros [x Hx]. unfold element_at. simpl. rewrite !entry_of_update, Hx. simpl.
    rewrite (entry_of_id _ _ _ Hx), ?Nat.eqb_refl. simpl.
    rewrite ?Nat.eqb_refl. simpl. apply lookup_insert_eq.
  - reflexivity.
  - simpl.
    assert (id_of (update alert (set_style "opacity" (lit "0"))
                     (update alert (set_style "transition" (lit "opacity 0.3s"))
                        (document w))) <> alert) as Hroot'.
    { destruct (document w); simpl in *; exact Hroot. }
    destruct (detach_ids alert _ Hroot') as [Hn Hincl].
    split; [exact Hn|]. intros j Hj. apply Hincl in Hj.
    now rewrite !ids_update in Hj.
Qed.

Lemma alert_fades_and_is_removed_witness :
  exists w1 w2,
    run_callback (AutoHide 5%nat) (post_page (Loaded (fun _ => false))) = (inl tt, w1) /\
    timers w1 = [Timer 1 300 (RemoveAlert 5%nat)] /\
    (is_Some (entry_of 5%nat (document (post_page (Loaded (fun _ => false))))) ->
       style (element_at 5%nat w1) !! "opacity" = Some (lit "0")) /\
    run_callback (RemoveAlert 5%nat) w1 = (inl tt, w2) /\
    ~ In 5%nat (ids (document w2)) /\
    (forall j, In j (ids (document w2)) ->
       In j (ids (document (post_page (Loaded (fun _ => false)))))).
Proof.
  apply (alert_fades_and_is_removed (fun _ => false) 5%nat
           (post_page (Loaded (fun _ => false)))).
  - reflexivity.
  - reflexivity.
  - simpl. lia.
Defined.

(** *** Hovering the scroll button *)

Section Hover.

Variable near_limit : nat -> jsstring -> bool.

(** X10. Hovering the scroll-to-top button makes it opaque and leaving
    it restores the inline style that [initScrollToTop] gave it
    (opacity 0.8); hovering never changes whether the button is
    displayed. *)
Theorem hover_restores_style (button : node_id) (e : event) (w : world) (x : entry) :
  entry_of button (document w) = Some x ->
  style (ent_elem x) !! "opacity" = Some (lit "0.8") ->
  exists w1 w2,
    run_handler near_limit OnMouseEnter (Node button) e w = (inl tt, w1) /\
    run_handler near_limit OnMouseLeave (Node button) e w1 = (inl tt, w2) /\
    style (element_at button w1) = <["opacity" := lit "1"]> (style (ent_elem x)) /\
    style (element_at button w2) = style (ent_elem x).
Proof.
  intros Hx Ho. unfold run_handler, bind, this_element, ret, set, modify.
  eexists. eexists. split; [reflexivity|]. split; [reflexivity|].
  assert (entry_of button
            (document (with_document (update button (set_style "opacity" (lit "1"))) w))
          = Some (upd_entry button (set_style "opacity" (lit "1")) x)) as Hx1.
  { simpl. now rewrite entry_of_update, Hx. }
  split.
  - now rewrite (element_at_set _ _ _ _ Hx).
  - rewrite (element_at_set _ _ _ _ Hx1). simpl.
    rewrite (entry_of_id _ _ _ Hx), Nat.eqb_refl. simpl.
    rewrite insert_insert_eq. now apply insert_id.
Qed.

End Hover.

Lemma hover_restores_style_witness :
  let w := snd (initScrollToTop (post_page NoGlobal)) in
  let x := default (Entry 0%nat (blank "") []) (entry_of 19%nat (document w)) in
  exists w1 w2,
    run_handler (fun _ _ => false) OnMouseEnter (Node 19%nat) (Event [] (Node 19%nat)) w
      = (inl tt, w1) /\
    run_handler (fun _ _ => false) OnMouseLeave (Node 19%nat) (Event [] (Node 19%nat)) w1
      = (inl tt, w2) /\
    style (element_at 19%nat w1) = <["opacity" := lit "1"]> (style (ent_elem x)) /\
    style (element_at 19%nat w2) = style (ent_elem x).
Proof.
  intros w x.
  apply (hover_restores_style (fun _ _ => false) 19%nat (Event [] (Node 19%nat)) w x).
  - vm_compute. reflexivity.
  - vm_compute. reflexivity.
Defined.

(** *** Text written into an element *)

Lemma first_some_None_inv {X Y} (f : X -> option Y) l :
  first_some f l = None -> forall x, In x l -> f x = None.
Proof.
  induction l as [|y l IH]; simpl; [tauto|].
  destruct (f y) eqn:E; [discriminate|]. intros H x [<-|Hx]; auto.
Qed.

Lemma find_node_None_ids c n : find_node c n = None -> ~ In c (ids n).
Proof.
  induction n as [j s|j e kids IH] using node_induction; simpl.
  - destruct (Nat.eqb_spec j c); [discriminate|]. tauto.
  - destruct (Nat.eqb_spec j c); [discriminate|]. intros H [Hj|Hin]; [congruence|].
    apply List.in_flat_map in Hin. destruct Hin as (k & Hk & Hc).
    rewrite List.Forall_forall in IH.
    apply (IH k Hk); [|exact Hc]. now apply (first_some_None_inv _ _ H).
Qed.

(** The children given to an element are the children it then has. *)
Lemma find_node_alter_children c g n : forall e kids,
  find_node c n = Some (Elem c e kids) ->
  find_node c (alter_children c g n) = Some (Elem c e (g kids)).
Proof.
  induction n as [j s|j e0 kids0 IH] using node_induction; intros e kids; simpl.
  - destruct (Nat.eqb j c); discriminate.
  - destruct (Nat.eqb_spec j c) as [->|Hne].
    + intros [= <- <-]. simpl. now rewrite Nat.eqb_refl.
    + intros H. simpl. rewrite (proj2 (Nat.eqb_neq j c) Hne).
      destruct (first_some_Some _ _ _ H) as (b & k & a & -> & Hk & Hb).
      rewrite List.Forall_forall in IH.
      rewrite List.map_app. simpl. rewrite first_some_app.
      * now rewrite (IH k (List.in_elt _ _ _) _ _ Hk).
      * intros y Hy. apply List.in_map_iff in Hy. destruct Hy as (z & <- & Hz).
        rewrite alter_children_outside; [now apply Hb|].
        apply find_node_None_ids. now apply Hb.
Qed.

Lemma find_flat_map_map {X Y} (p : Y -> bool) (g : X -> list Y) (h : X -> X) l :
  Forall (fun k => List.find p (g (h k)) = List.find p (g k)) l ->
  List.find p (List.flat_map g (List.map h l)) = List.find p (List.flat_map g l).
Proof.
  induction 1 as [|k l Hk _ IH]; simpl; [reflexivity|].
  now rewrite !find_app, Hk, IH.
Qed.

(** Changing the children of an element does not change the element
    itself. *)
Lemma entry_of_alter_children c g n :
  entry_of c (alter_children c g n) = entry_of c n.
Proof.
  unfold entry_of. generalize (@nil (node_id * element)).
  induction n as [j s|j e kids IH] using node_induction; intros anc; simpl;
    [reflexivity|].
  destruct (Nat.eqb_spec j c) as [->|Hne]; simpl.
  - now rewrite Nat.eqb_refl.
  - rewrite (proj2 (Nat.eqb_neq j c) Hne).
    apply find_flat_map_map. eapply List.Forall_impl; [|exact IH].
    simpl. intros k Hk. apply Hk.
Qed.

Lemma first_some_fmap {X Y} (f f' : X -> option Y) (h : X -> X) (g : Y -> Y) l :
  Forall (fun k => f' (h k) = g <$> f k) l ->
  first_some f' (List.map h l) = g <$> first_some f l.
Proof.
  induction 1 as [|k l Hk _ IH]; simpl; [reflexivity|].
  rewrite Hk. destruct (f k); simpl; auto.
Qed.

Lemma id_of_update i f n : id_of (update i f n) = id_of n.
Proof. now destruct n. Qed.

Lemma find_node_update c i f n :
  find_node c (update i f n) = update i f <$> find_node c n.
Proof.
  induction n as [j s|j e kids IH] using node_induction.
  - simpl. now destruct (Nat.eqb j c).
  - cbn [find_node update id_of]. destruct (Nat.eqb j c); [reflexivity|].
    now apply first_some_fmap.
Qed.

Lemma text_of_update i f n : text_of (update i f n) = text_of n.
Proof.
  induction n as [j s|j e kids IH] using node_induction; simpl; [reflexivity|].
  induction IH as [|k l Hk _ IHl]; simpl; [reflexivity|]. now rewrite Hk, IHl.
Qed.

(** Writing classes or styles leaves the text alone. *)
Lemma textContent_set c i f w :
  textContent c (with_document (update i f) w) = textContent c w.
Proof.
  unfold textContent. simpl. rewrite find_node_update.
  destruct (find_node c (document w)); simpl; [|reflexivity].
  now rewrite text_of_update.
Qed.

(** What [el.textContent = s] does to the document. *)
Lemma set_textContent_spec c s w :
  exists w1 ks,
    set_textContent c s w = (inl tt, w1) /\
    document w1 = alter_children c (fun _ => ks) (document w) /\
    List.flat_map text_of ks = s /\
    listeners w1 = listeners w.
Proof.
  unfold set_textContent, bind, text_nodes, modify, ret.
  destruct s as [|a s].
  - eexists. exists []. split; [reflexivity|]. simpl. repeat split.
  - eexists. eexists. split; [reflexivity|]. simpl.
    split; [reflexivity|]. split; [simpl; now rewrite List.app_nil_r|reflexivity].
Qed.

(** Text written into an element of the document is read back. *)
Lemma textContent_written c s w w1 e kids :
  find_node c (document w) = Some (Elem c e kids) ->
  set_textContent c s w = (inl tt, w1) ->
  textContent c w1 = Some s /\ element_at c w1 = element_at c w.
Proof.
  intros Hf Hs. destruct (set_textContent_spec c s w) as (w1' & ks & Hs' & Hdoc & Htxt & _).
  rewrite Hs in Hs'. inversion Hs'; subst w1'. split.
  - unfold textContent. rewrite Hdoc, (find_node_alter_children _ _ _ _ _ Hf).
    simpl. now rewrite Htxt.
  - unfold element_at. now rewrite Hdoc, entry_of_alter_children.
Qed.

Section Counters.

Variable near_limit : nat -> jsstring -> bool.

(** X11. When the element after a comment textarea is its counter, the
    input listener writes [current/max] into it, [current] being the
    length of the textarea's value and [max] the limit the listener
    was registered with.  For a limit written in digits and below
    2^48, the counter then has the class [text-danger] exactly when
    [current > max * 0.9] in floating point, which is when ten times
    [current] is more than nine times [max]. *)
Theorem comment_input_shows_count
    (other : nat -> jsstring -> bool)
    (textarea c : node_id) (maxLength : jsstring) (m : Z) (e : event) (w : world)
    (ec : element) (kids : list node) :
  nextElementSibling textarea w = (inl (Some c), w) ->
  has_class "char-counter" (element_at c w) = true ->
  find_node c (document w) = Some (Elem c ec kids) ->
  NearLimit.digits maxLength = Some m -> (m < 2 ^ 48)%Z ->
  let current := length (value (element_at textarea w)) in
  exists w',
    run_handler (NearLimit.near_limit other) (OnCommentInput maxLength)
      (Node textarea) e w = (inl tt, w') /\
    textContent c w' = Some (of_nat current ++ lit "/" ++ maxLength) /\
    has_class "text-danger" (element_at c w') = (9 * m <? 10 * Z.of_nat current)%Z.
Proof.
  intros Hn Hc Hf Hd Hm current.
  destruct (set_textContent_spec c (of_nat current ++ lit "/" ++ maxLength) w)
    as (w1 & ks & Hs & Hdoc & Htxt & _).
  destruct (textContent_written _ _ _ _ _ _ Hf Hs) as [Ht He].
  assert (is_Some (entry_of c (document w1))) as [x Hx].
  { rewrite Hdoc, entry_of_alter_children.
    unfold element_at in Hc. destruct (entry_of c (document w)); [eauto|discriminate]. }
  unfold run_handler, bind at 1, this_element, ret. unfold bind at 1. rewrite Hn.
  unfold bind at 1, prop at 1, gets at 1. rewrite Hc.
  unfold bind at 1, prop at 1, gets at 1. fold current.
  unfold bind at 1. rewrite Hs.
  rewrite (near_limit_spec other current maxLength m Hd Hm).
  destruct (9 * m <? 10 * Z.of_nat current)%Z; unfold set, modify;
    (eexists; split; [reflexivity|]); rewrite textContent_set, Ht;
    (split; [reflexivity|]); rewrite (element_at_set _ _ _ _ Hx).
  - rewrite has_class_add, String.eqb_refl. apply orb_true_r.
  - rewrite has_class_remove, String.eqb_refl. apply andb_false_r.
Qed.

Lemma run_value_length i w :
  has_string_value (element_at i w) = true ->
  value_length i w = (inl (Some (length (value (element_at i w)))), w).
Proof. intros H. unfold value_length, read_value. now rewrite H. Qed.

(** X12. When both [id_meta_description] and [meta-char-count] exist
    and the description is a form control with a string value (a
    textarea or an input, say), [initCharacterCounters] writes the
    length of the description into the counter and registers one input
    listener on the description; that listener writes the length again
    each time it runs. *)
Theorem meta_counter_shows_length
    (metaDesc charCount : node_id) (w : world) (ec : element) (kids : list node) :
  getElementById (lit "id_meta_description") w = (inl (Some metaDesc), w) ->
  getElementById (lit "meta-char-count") w = (inl (Some charCount), w) ->
  has_string_value (element_at metaDesc w) = true ->
  find_node charCount (document w) = Some (Elem charCount ec kids) ->
  (exists w',
     initCharacterCounters w = (inl tt, w') /\
     textContent charCount w' = Some (of_nat (length (value (element_at metaDesc w)))) /\
     listeners w' = listeners w ++ [Listener (Node metaDesc) "input" (OnMetaInput charCount)]) /\
  (forall e, exists w',
     run_handler near_limit (OnMetaInput charCount) (Node metaDesc) e w = (inl tt, w') /\
     textContent charCount w' = Some (of_nat (length (value (element_at metaDesc w))))).
Proof.
  intros Hm Hc Hv Hf.
  destruct (set_textContent_spec charCount
              (of_nat (length (value (element_at metaDesc w)))) w)
    as (w1 & ks & Hs & Hdoc & Htxt & Hl).
  destruct (textContent_written _ _ _ _ _ _ Hf Hs) as [Ht _].
  split.
  - unfold initCharacterCounters, bind at 1. rewrite Hm. unfold bind at 1. rewrite Hc.
    unfold bind at 1. rewrite (run_value_length _ _ Hv). cbn [length_text].
    unfold bind at 1. rewrite Hs.
    unfold addEventListener, modify. eexists. split; [reflexivity|].
    split; [exact Ht|]. simpl. now rewrite Hl.
  - intros e. unfold run_handler, bind at 1, this_element, ret.
    unfold bind at 1. rewrite (run_value_length _ _ Hv). cbn [length_text].
    rewrite Hs. now exists w1.
Qed.

End Counters.

Lemma comment_input_shows_count_witness :
  let w := with_document (update 13%nat (with_value (lit "hello world")))
             (snd (initCommentSystem (post_page NoGlobal))) in
  exists w',
    run_handler (NearLimit.near_limit (fun _ _ => false)) (OnCommentInput (lit "500"))
      (Node 13%nat) (Event [] (Node 13%nat)) w = (inl tt, w') /\
    textContent 19%nat w' = Some (lit "11/500") /\
    has_class "text-danger" (element_at 19%nat w') = (9 * 500 <? 10 * Z.of_nat 11)%Z.
Proof.
  intros w.
  eapply (comment_input_shows_count (fun _ _ => false) 13%nat 19%nat
            (lit "500") 500%Z (Event [] (Node 13%nat)) w).
  - reflexivity.
  - reflexivity.
  - vm_compute. reflexivity.
  - reflexivity.
  - reflexivity.
Defined.

Lemma meta_counter_shows_length_witness :
  exists w',
    initCharacterCounters (post_page NoGlobal) = (inl tt, w') /\
    textContent 18%nat w' = Some (lit "5") /\
    listeners w' = [Listener (Node 17%nat) "input" (OnMetaInput 18%nat)].
Proof.
  eapply (proj1 (meta_counter_shows_length (fun _ _ => false) 17%nat 18%nat
                   (post_page NoGlobal) _ _ eq_refl eq_refl eq_refl _)).
  Unshelve. all: try (vm_compute; reflexivity).
Defined.

(** *** Loading the page *)

Lemma run_body w : body w = (inl (body_in (document w)), w).
Proof. reflexivity. Qed.

(** What [initScrollToTop] does on a page with a body. *)
Lemma run_initScrollToTop w b :
  body_in (document w) = Some b ->
  initScrollToTop w =
    (inl tt,
     with_listeners
       (listeners w ++
        [Listener Window "scroll" (OnScroll (next_node w));
         Listener (Node (next_node w)) "click" OnScrollTopClick;
         Listener (Node (next_node w)) "mouseenter" OnMouseEnter;
         Listener (Node (next_node w)) "mouseleave" OnMouseLeave])
       (with_document (alter_children b (put_before (scroll_button (next_node w)) None))
          (with_next_node (S (S (next_node w))) w))).
Proof.
  intros Hb. unfold initScrollToTop, bind, createElement.
  rewrite run_body. simpl. rewrite Hb. simpl.
  unfold appendChild, addEventListener, modify, with_listeners. simpl.
  rewrite <- !List.app_assoc. reflexivity.
Qed.






(** *** The scroll-to-top button *)

Lemma body_in_split n b :
  body_in n = Some b ->
  exists i e l1 eb kb l2, n = Elem i e (l1 ++ Elem b eb kb :: l2).
Proof.
  unfold body_in. destruct n as [i s|i e kids]; simpl; [discriminate|].
  intros H. exists i, e.
  induction kids as [|k kids IH]; simpl in H; [discriminate|].
  destruct k as [j s|j ej kj]; simpl in H.
  - destruct (IH H) as (l1 & eb & kb & l2 & Heq). inversion Heq; subst kids.
    now exists (Text j s :: l1), eb, kb, l2.
  - destruct (String.eqb (tagName ej) "body").
    + simpl in H. inversion H; subst j. now exists [], ej, kj, kids.
    + destruct (IH H) as (l1 & eb & kb & l2 & Heq). inversion Heq; subst kids.
      now exists (Elem j ej kj :: l1), eb, kb, l2.
Qed.

(** X14. On a well-formed page with a body, [initScrollToTop] returns
    normally; the button it has created is then an element of the
    document, labelled "Scroll to top" and not displayed, and the
    page has four more listeners: scroll on the window, and click,
    mouseenter and mouseleave on the button. *)
Theorem scroll_button_installed (w : world) (b : node_id) :
  well_formed w = true ->
  body_in (document w) = Some b ->
  exists w' x,
    initScrollToTop w = (inl tt, w') /\
    entry_of (next_node w) (document w') = Some x /\
    tagName (ent_elem x) = "button"%string /\
    attrs (ent_elem x) !! "aria-label" = Some (lit "Scroll to top") /\
    style (ent_elem x) !! "display" = Some (lit "none") /\
    listeners w' =
      listeners w ++
      [Listener Window "scroll" (OnScroll (next_node w));
       Listener (Node (next_node w)) "click" OnScrollTopClick;
       Listener (Node (next_node w)) "mouseenter" OnMouseEnter;
       Listener (Node (next_node w)) "mouseleave" OnMouseLeave].
Proof.
  intros Hwf Hb. rewrite (run_initScrollToTop w b Hb).
  destruct (well_formed_spec w Hwf) as (Hnd & Hbound & _).
  destruct (body_in_split _ _ Hb) as (i & e & l1 & eb & kb & l2 & Hdoc).
  rewrite Hdoc in Hnd, Hbound.
  destruct (NoDup_kids _ _ _ _ Hnd) as (_ & Hik & Hkb & Hka & _).
  set (btn := next_node w) in *.
  assert (forall j, In j (ids (Elem i e (l1 ++ Elem b eb kb :: l2))) -> j <> btn) as Hfresh.
  { intros j Hj. apply Hbound in Hj. lia. }
  assert (forall k, In k l1 -> ~ In btn (ids k)) as Hl1.
  { intros k Hk Hin. apply (Hfresh btn); [|reflexivity]. right.
    eapply ids_of_child; [|exact Hin]. apply List.in_or_app. now left. }
  assert (forall k, In k kb -> ~ In btn (ids k)) as Hkb'.
  { intros k Hk Hin. apply (Hfresh btn); [|reflexivity]. right.
    eapply ids_of_child; [apply List.in_elt|]. simpl. right.
    eapply ids_of_child; eassumption. }
  eexists. exists (Entry btn
                     (set_cssText scroll_button_css
                        (set_attr "aria-label" (lit "Scroll to top")
                           (set_classList ["btn"; "btn-primary"; "btn-scroll-top"]
                              (blank "button"))))
                     [(b, eb); (i, e)]).
  split; [reflexivity|]. split; [|repeat split].
  cbn [document with_listeners with_document with_next_node]. rewrite Hdoc.
  cbn [alter_children].
  rewrite (proj2 (Nat.eqb_neq i b)) by (intros ->; apply Hik; now left).
  rewrite map_fixes.
  2:{ intros k Hk. apply alter_children_outside. intros Hin.
      apply (Hkb b); [now left|]. eapply ids_of_child; eassumption. }
  2:{ intros k Hk. apply alter_children_outside. intros Hin.
      apply (Hka b); [now left|]. eapply ids_of_child; eassumption. }
  cbn [alter_children]. rewrite Nat.eqb_refl, put_before_last.
  unfold entry_of. cbn [elements_in List.find ent_id].
  rewrite (proj2 (Nat.eqb_neq i btn)) by (apply Hfresh; now left).
  rewrite find_flat_map_app by (intros; apply entry_outside; auto).
  cbn [elements_in List.find ent_id].
  rewrite (proj2 (Nat.eqb_neq b btn)).
  2:{ apply Hfresh. right. eapply ids_of_child; [apply List.in_elt|now left]. }
  rewrite find_flat_map_app by (intros; apply entry_outside; auto).
  unfold scroll_button. cbn [elements_in List.find ent_id].
  now rewrite Nat.eqb_refl.
Qed.

Lemma scroll_button_installed_witness :
  exists w' x,
    initScrollToTop (post_page NoGlobal) = (inl tt, w') /\
    entry_of 19%nat (document w') = Some x /\
    tagName (ent_elem x) = "button"%string /\
    attrs (ent_elem x) !! "aria-label" = Some (lit "Scroll to top") /\
    style (ent_elem x) !! "display" = Some (lit "none") /\
    listeners w' =
      [Listener Window "scroll" (OnScroll 19%nat);
       Listener (Node 19%nat) "click" OnScrollTopClick;
       Listener (Node 19%nat) "mouseenter" OnMouseEnter;
       Listener (Node 19%nat) "mouseleave" OnMouseLeave].
Proof.
  apply (scroll_button_installed (post_page NoGlobal) 1%nat); reflexivity.
Defined.

End PageMore.

(** ** The image preview *)

Module PreviewProps.

Import JS JS.Notations Page PageProps CounterProps PageMore.

Local Open Scope nat_scope.

(** *** Appending a child *)

Lemma find_flat_map_Some {X Y} (p : Y -> bool) (g : X -> list Y) l y :
  List.find p (List.flat_map g l) = Some y ->
  exists b k a, l = b ++ k :: a /\ List.find p (g k) = Some y /\
                forall z, In z b -> List.find p (g z) = None.
Proof.
  induction l as [|x l IH]; simpl; [discriminate|].
  rewrite find_app. destruct (List.find p (g x)) as [y'|] eqn:E.
  - intros [= <-]. exists [], x, l. repeat split; [exact E|intros z []].
  - intros H. destruct (IH H) as (b & k & a & -> & Hk & Hb).
    exists (x :: b), k, a. repeat split; [exact Hk|].
    intros z [<-|Hz]; auto.
Qed.

(** Where no element has the identity [p], nothing is changed. *)
Lemma alter_children_no_entry p g n : forall anc,
  List.find (fun x => Nat.eqb (ent_id x) p) (elements_in anc n) = None ->
  alter_children p g n = n.
Proof.
  induction n as [j s|j e kids IH] using node_induction; intros anc; simpl;
    [reflexivity|].
  destruct (Nat.eqb j p); [discriminate|]. intros H. f_equal.
  rewrite <- (List.map_id kids) at 2. apply List.map_ext_in. intros k Hk.
  rewrite List.Forall_forall in IH. apply (IH k Hk ((j, e) :: anc)).
  destruct (List.find _ (elements_in ((j, e) :: anc) k)) as [y|] eqn:E; [|reflexivity].
  apply List.find_some in E. destruct E as [Hin Hp].
  assert (In y (List.flat_map (elements_in ((j, e) :: anc)) kids)) as Hy
    by (apply List.in_flat_map; now exists k).
  pose proof (List.find_none _ _ H y Hy). congruence.
Qed.

(** A node appended to an element of the document is then found by its
    identity, when that identity was not in use. *)
Lemma appended_lookup p i e kids n : forall anc,
  ~ In i (ids n) ->
  is_Some (List.find (fun x => Nat.eqb (ent_id x) p) (elements_in anc n)) ->
  exists anc',
    List.find (fun x => Nat.eqb (ent_id x) i)
      (elements_in anc (alter_children p (put_before (Elem i e kids) None) n))
    = Some (Entry i e anc').
Proof.
  induction n as [j s|j e0 kids0 IH] using node_induction; intros anc Hi [y Hy].
  - discriminate.
  - simpl in Hi, Hy. cbn [alter_children].
    assert (forall k, In k kids0 -> ~ In i (ids k)) as Hout.
    { intros k Hk Hin. apply Hi. right. eapply ids_of_child; eassumption. }
    destruct (Nat.eqb_spec j p) as [->|Hne].
    + exists ((p, e0) :: anc). rewrite put_before_last.
      cbn [elements_in List.find ent_id].
      rewrite (proj2 (Nat.eqb_neq p i)) by tauto.
      rewrite find_flat_map_app by (intros; apply entry_outside; auto).
      simpl. now rewrite Nat.eqb_refl.
    + destruct (find_flat_map_Some _ _ _ _ Hy) as (b & k & a & -> & Hk & Hb).
      rewrite List.Forall_forall in IH.
      destruct (IH k (List.in_elt _ _ _) ((j, e0) :: anc)) as [anc' Hfind];
        [apply Hout, List.in_elt|eauto|].
      exists anc'. cbn [elements_in List.find ent_id].
      rewrite (proj2 (Nat.eqb_neq j i)) by tauto.
      rewrite List.map_app. simpl. rewrite find_flat_map_app, Hfind; [reflexivity|].
      intros z Hz. apply List.in_map_iff in Hz. destruct Hz as (z' & <- & Hz').
      rewrite (alter_children_no_entry _ _ _ _ (Hb z' Hz')).
      apply entry_outside. apply Hout. apply List.in_or_app. now left.
Qed.

(** Appending a node does not change how other identities are found. *)
Lemma lookup_after_append i p c n :
  (forall anc, List.find (fun x => Nat.eqb (ent_id x) i) (elements_in anc c) = None) ->
  forall anc,
    List.find (fun x => Nat.eqb (ent_id x) i)
      (elements_in anc (alter_children p (put_before c None) n)) =
    List.find (fun x => Nat.eqb (ent_id x) i) (elements_in anc n).
Proof.
  intros Hc.
  induction n as [j s|j e kids IH] using node_induction; intros anc; [reflexivity|].
  cbn [alter_children]. destruct (Nat.eqb j p).
  - rewrite put_before_last. cbn [elements_in List.find ent_id].
    destruct (Nat.eqb j i); [reflexivity|].
    rewrite List.flat_map_app, find_app. simpl. rewrite List.app_nil_r, Hc.
    now destruct (List.find _ _).
  - cbn [elements_in List.find ent_id]. destruct (Nat.eqb j i); [reflexivity|].
    apply find_flat_map_map. eapply List.Forall_impl; [|exact IH].
    simpl. intros k Hk. apply Hk.
Qed.

(** The identities after the children of an element have been
    replaced: those that were there and those of the new children. *)
Lemma ids_alter_children p g (extra : list node_id) n :
  (forall l j, In j (List.flat_map ids (g l)) -> In j (List.flat_map ids l) \/ In j extra) ->
  forall j, In j (ids (alter_children p g n)) -> In j (ids n) \/ In j extra.
Proof.
  intros Hg.
  induction n as [i s|i e kids IH] using node_induction; intros j; [simpl; tauto|].
  cbn [alter_children]. destruct (Nat.eqb i p); simpl.
  - intros [Hj|Hj]; [tauto|]. apply Hg in Hj. tauto.
  - intros [Hj|Hj]; [tauto|].
    apply List.in_flat_map in Hj. destruct Hj as (k' & Hk' & Hj).
    apply List.in_map_iff in Hk'. destruct Hk' as (k & <- & Hk).
    rewrite List.Forall_forall in IH. destruct (IH k Hk j Hj) as [H|H]; [|tauto].
    left. right. eapply ids_of_child; eassumption.
Qed.

Lemma ids_append p c n j :
  In j (ids (alter_children p (put_before c None) n)) -> In j (ids n) \/ In j (ids c).
Proof.
  apply ids_alter_children. intros l j' Hj'. rewrite put_before_last in Hj'.
  rewrite List.flat_map_app in Hj'. simpl in Hj'. rewrite List.app_nil_r in Hj'.
  apply List.in_app_or in Hj'. tauto.
Qed.

Lemma ids_clear p n j :
  In j (ids (alter_children p (fun _ => []) n)) -> In j (ids n).
Proof.
  intros H. destruct (ids_alter_children p (fun _ => []) [] n) with (j := j);
    [simpl; tauto|exact H|assumption|contradiction].
Qed.

(** The parent of a node is an element of the document. *)
Lemma parent_is_element t n : forall p anc,
  parent_of t n = Some p ->
  is_Some (List.find (fun x => Nat.eqb (ent_id x) p) (elements_in anc n)).
Proof.
  induction n as [j s|j e kids IH] using node_induction; intros p anc;
    [discriminate|].
  simpl. destruct (existsb _ kids).
  - intros [= <-]. rewrite Nat.eqb_refl. eauto.
  - intros H. destruct (Nat.eqb j p); [eauto|].
    destruct (first_some_Some _ _ _ H) as (b & k & a & -> & Hk & _).
    rewrite List.Forall_forall in IH.
    destruct (IH k (List.in_elt _ _ _) p ((j, e) :: anc) Hk) as [y Hy].
    apply List.find_some in Hy. destruct Hy as [Hin Hp].
    destruct (List.find _ (List.flat_map _ _)) as [y'|] eqn:E; [eauto|].
    exfalso. pose proof (List.find_none _ _ E y) as Hn. rewrite Hn in Hp; [discriminate|].
    apply List.in_flat_map. exists k. split; [apply List.in_elt|exact Hin].
Qed.

(** The identities of the elements do not depend on the ancestors. *)
Lemma element_ids_anc n : forall anc anc',
  List.map ent_id (elements_in anc n) = List.map ent_id (elements_in anc' n).
Proof.
  induction n as [j s|j e kids IH] using node_induction; intros anc anc';
    [reflexivity|].
  simpl. f_equal. rewrite !List.flat_map_concat_map, !List.concat_map, !List.map_map.
  f_equal. apply List.map_ext_in. intros k Hk.
  rewrite List.Forall_forall in IH. now apply IH.
Qed.

Lemma entry_in_ids i anc n :
  is_Some (List.find (fun x => Nat.eqb (ent_id x) i) (elements_in anc n)) <->
  In i (List.map ent_id (elements_in [] n)).
Proof.
  rewrite (element_ids_anc n [] anc). split.
  - intros [x Hx]. apply List.find_some in Hx. destruct Hx as [Hin Hid].
    apply Nat.eqb_eq in Hid. subst i. now apply List.in_map.
  - intros Hin. apply List.in_map_iff in Hin. destruct Hin as (x & <- & Hx).
    eapply find_is_Some; [exact Hx|apply Nat.eqb_refl].
Qed.

(** The elements of a subtree found in the document are elements of
    the document. *)
Lemma find_node_elements p n : forall m i,
  find_node p n = Some m ->
  In i (List.map ent_id (elements_in [] m)) ->
  In i (List.map ent_id (elements_in [] n)).
Proof.
  induction n as [j s|j e kids IH] using node_induction; intros m i.
  - simpl. destruct (Nat.eqb j p); [|discriminate]. now intros [= <-].
  - cbn [find_node id_of]. destruct (Nat.eqb j p); [now intros [= <-]|].
    intros H Hi. destruct (first_some_Some _ _ _ H) as (b & k & a & -> & Hk & _).
    rewrite List.Forall_forall in IH.
    pose proof (IH k (List.in_elt _ _ _) m i Hk Hi) as Hin.
    simpl. right. rewrite List.flat_map_app, List.map_app. apply List.in_or_app. right.
    simpl. rewrite List.map_app. apply List.in_or_app. left.
    now rewrite (element_ids_anc k _ []).
Qed.

Lemma in_children_elements (kids : list node) x anc anc' :
  In x (List.flat_map (elements_in anc) kids) ->
  In (ent_id x) (List.map ent_id (List.flat_map (elements_in anc') kids)).
Proof.
  intros Hx. apply List.in_flat_map in Hx. destruct Hx as (k & Hk & Hx).
  assert (In (ent_id x) (List.map ent_id (elements_in anc' k))) as H
    by (rewrite (element_ids_anc k anc' anc); now apply List.in_map).
  apply List.in_map_iff in H. destruct H as (x' & Hid & Hx').
  apply List.in_map_iff. exists x'. split; [exact Hid|].
  apply List.in_flat_map. now exists k.
Qed.

(** What a query below an element finds is an element of the
    document. *)
Lemma descendants_are_elements p n i sel :
  In i (select sel (descendants p n)) -> is_Some (entry_of i n).
Proof.
  unfold select, descendants. intros Hin.
  apply List.in_map_iff in Hin. destruct Hin as (x & <- & Hx).
  apply List.filter_In in Hx. destruct Hx as [Hx _].
  destruct (entry_of p n) as [y|]; [|destruct Hx].
  destruct (find_node p n) as [[j s|j e kids]|] eqn:Hf; try destruct Hx.
  apply (entry_in_ids _ [] n). eapply find_node_elements; [exact Hf|].
  simpl. right. eapply in_children_elements. exact Hx.
Qed.

Lemma filter_fresh_url (url : jsstring) urls :
  ~ In url urls ->
  List.filter (fun u => negb (jsstring_eqb u url)) (urls ++ [url]) = urls.
Proof.
  intros H. rewrite List.filter_app. simpl. unfold jsstring_eqb.
  rewrite bool_decide_eq_true_2 by reflexivity. simpl. rewrite List.app_nil_r.
  induction urls as [|u urls IH]; simpl; [reflexivity|].
  rewrite bool_decide_eq_false_2 by (intros ->; apply H; now left).
  simpl. f_equal. apply IH. intros Hin. apply H. now right.
Qed.

(** The image put into the preview is found in the document that the
    change listener leaves. *)
Lemma preview_image_lookup root pv i eimg fileName :
  is_Some (entry_of pv root) -> ~ In i (ids root) ->
  (forall anc, List.find (fun x => Nat.eqb (ent_id x) i) (elements_in anc fileName) = None) ->
  exists x,
    entry_of i
      (alter_children pv (put_before fileName None)
         (alter_children pv (put_before (Elem i eimg []) None)
            (alter_children pv (fun _ => []) root))) = Some x /\
    ent_elem x = eimg.
Proof.
  intros Hpv Hi Hfn. unfold entry_of. rewrite (lookup_after_append _ _ _ _ Hfn).
  destruct (appended_lookup pv i eimg [] (alter_children pv (fun _ => []) root) [])
    as [anc' Hfind].
  - intros Hin. apply Hi. now apply ids_clear in Hin.
  - fold (entry_of pv (alter_children pv (fun _ => []) root)).
    now rewrite entry_of_alter_children.
  - rewrite Hfind. eauto.
Qed.



(** With distinct identities, an element of the document is the node
    that its identity finds. *)
Lemma entry_find_node i n : forall anc,
  List.NoDup (ids n) ->
  is_Some (List.find (fun x => Nat.eqb (ent_id x) i) (elements_in anc n)) ->
  exists e kids, find_node i n = Some (Elem i e kids).
Proof.
  induction n as [j s|j e kids IH] using node_induction; intros anc Hnd [x Hx];
    [discriminate|].
  simpl in Hx. cbn [find_node id_of].
  destruct (Nat.eqb_spec j i) as [->|Hne]; [eauto|].
  apply find_flat_map_Some in Hx. destruct Hx as (b & k & a & -> & Hk & Hb).
  destruct (NoDup_kids _ _ _ _ Hnd) as (Hndk & _ & Hkb & _ & _).
  rewrite List.Forall_forall in IH.
  destruct (IH k (List.in_elt _ _ _) _ Hndk (ex_intro _ x Hk)) as (e' & kids' & Hfn).
  rewrite first_some_app; [rewrite Hfn; eauto|].
  intros y Hy. apply find_node_outside. intros Hin. apply (Hkb i).
  - apply List.find_some in Hk. destruct Hk as [Hk Hid].
    apply Nat.eqb_eq in Hid. subst i. eapply entries_ids. exact Hk.
  - eapply ids_of_child; eassumption.
Qed.

(** A node appended to an element of the document is what its
    identity finds, when that identity was not in use. *)
Lemma find_node_appended p c n : forall anc,
  ~ In (id_of c) (ids n) ->
  is_Some (List.find (fun x => Nat.eqb (ent_id x) p) (elements_in anc n)) ->
  find_node (id_of c) (alter_children p (put_before c None) n) = Some c.
Proof.
  assert (find_node (id_of c) c = Some c) as Hc
    by (destruct c; simpl; now rewrite Nat.eqb_refl).
  induction n as [j s|j e kids IH] using node_induction; intros anc Hi [x Hx];
    [discriminate|].
  simpl in Hi, Hx. cbn [alter_children].
  assert (forall y, In y kids -> find_node (id_of c) y = None) as Hkids.
  { intros y Hy. apply find_node_outside. intros Hin. apply Hi. right.
    eapply ids_of_child; eassumption. }
  destruct (Nat.eqb j p).
  - rewrite put_before_last. cbn [find_node id_of].
    destruct (Nat.eqb_spec j (id_of c)) as [Hj|_]; [tauto|].
    rewrite first_some_app by exact Hkids. now rewrite Hc.
  - apply find_flat_map_Some in Hx. destruct Hx as (b & k & a & -> & Hk & Hb).
    cbn [find_node id_of].
    destruct (Nat.eqb_spec j (id_of c)) as [Hj|_]; [tauto|].
    rewrite List.map_app. simpl. rewrite List.Forall_forall in IH.
    rewrite first_some_app.
    + rewrite (IH k (List.in_elt _ _ _) ((j, e) :: anc)); [reflexivity| |eauto].
      intros Hin. apply Hi. right. eapply ids_of_child; [apply List.in_elt|exact Hin].
    + intros y Hy. apply List.in_map_iff in Hy. destruct Hy as (z & <- & Hz).
      rewrite (alter_children_no_entry _ _ _ _ (Hb z Hz)).
      apply Hkids. apply List.in_or_app. now left.
Qed.

Section Preview.

Variable near_limit : nat -> jsstring -> bool.

(** The second half of the change listener, from the creation of the
    image on, [pv] being the preview element. *)
Lemma run_fill_preview (pv : node_id) (f : file) (w : world) :
  is_Some (entry_of pv (document w)) ->
  (forall i, In i (ids (document w)) -> i < next_node w) ->
  let url := lit "blob:" ++ of_nat (next_url w) in
  exists w1,
    (let* img := createElement "img" in
     let* url := createObjectURL f in
     addEventListener (Node (id_of img)) "load" OnPreviewLoad ;;
     set_innerHTML pv [] ;;
     appendChild pv
       (edit (set_style "max-height" (lit "200px"))
          (edit (set_classList ["img-thumbnail"])
             (edit (set_attr "src" url) img))) ;;
     let* fileName := createElement "small" in
     let* fileName :=
       with_textContent (file_name f)
         (edit (set_classList ["d-block"; "text-muted"; "mt-1"]) fileName) in
     appendChild pv fileName) w = (inl tt, w1) /\
    object_urls w1 = object_urls w ++ [url] /\
    listeners w1 = listeners w ++ [Listener (Node (next_node w)) "load" OnPreviewLoad] /\
    attrs (element_at (next_node w) w1) !! "src" = Some url /\
    forall e0 kids0,
      find_node pv (document w) = Some (Elem pv e0 kids0) ->
      exists kids,
        find_node pv (document w1) =
          Some (Elem pv e0
                  [Elem (next_node w)
                     (set_style "max-height" (lit "200px")
                        (set_classList ["img-thumbnail"]
                           (set_attr "src" url (blank "img")))) [];
                   Elem (S (next_node w))
                     (set_classList ["d-block"; "text-muted"; "mt-1"] (blank "small"))
                     kids]) /\
        List.flat_map text_of kids = file_name f.
Proof.
  intros Hpv Hlt url.
  assert (~ In (next_node w) (ids (document w))) as Hfresh
    by (intros Hin; apply Hlt in Hin; lia).
  unfold bind, createElement, createObjectURL, addEventListener, set_innerHTML,
    appendChild, with_textContent, text_nodes, modify, ret, edit, id_of.
  fold url.
  destruct (file_name f) as [|c name]; eexists; (split; [reflexivity|]);
    (split; [reflexivity|]); (split; [reflexivity|]);
    unfold element_at;
    cbn [document next_node next_url object_urls listeners with_document
           with_next_node with_object_urls with_listeners]; split.
  - edestruct (preview_image_lookup (document w) pv (next_node w))
      as (x & -> & ->); [exact Hpv|exact Hfresh| |apply lookup_insert_eq].
    intros anc. cbn [elements_in List.flat_map List.find ent_id].
    destruct (Nat.eqb_spec (S (next_node w)) (next_node w)); [lia|reflexivity].
  - intros e0 kids0 Hfn. exists [].
    split; [|reflexivity].
    apply (find_node_alter_children pv (fun _ => [])) in Hfn.
    apply (find_node_alter_children pv
             (put_before
                (Elem (next_node w)
                   (set_style "max-height" (lit "200px")
                      (set_classList ["img-thumbnail"]
                         (set_attr "src" url (blank "img")))) []) None)) in Hfn.
    apply (find_node_alter_children pv
             (put_before
                (Elem (S (next_node w))
                   (set_classList ["d-block"; "text-muted"; "mt-1"] (blank "small"))
                   []) None)) in Hfn.
    exact Hfn.
  - edestruct (preview_image_lookup (document w) pv (next_node w))
      as (x & -> & ->); [exact Hpv|exact Hfresh| |apply lookup_insert_eq].
    intros anc. cbn [elements_in List.flat_map List.find ent_id app].
    destruct (Nat.eqb_spec (S (next_node w)) (next_node w)); [lia|reflexivity].
  - intros e0 kids0 Hfn. exists [Text (S (S (next_node w))) (c :: name)].
    split; [|apply List.app_nil_r].
    apply (find_node_alter_children pv (fun _ => [])) in Hfn.
    apply (find_node_alter_children pv
             (put_before
                (Elem (next_node w)
                   (set_style "max-height" (lit "200px")
                      (set_classList ["img-thumbnail"]
                         (set_attr "src" url (blank "img")))) []) None)) in Hfn.
    apply (find_node_alter_children pv
             (put_before
                (Elem (S (next_node w))
                   (set_classList ["d-block"; "text-muted"; "mt-1"] (blank "small"))
                   [Text (S (S (next_node w))) (c :: name)]) None)) in Hfn.
    exact Hfn.
Qed.

Lemma bind_ret_l {X Y} (x : X) (k : X -> M Y) (w : world) :
  (let* y := ret x in k y) w = k x w.
Proof. reflexivity. Qed.

Lemma bind_gets {X Y} (g : world -> X) (k : X -> M Y) (w : world) :
  (let* y := gets g in k y) w = k (g w) w.
Proof. reflexivity. Qed.

(** The load listener of the image revokes what its [src] holds. *)
Lemma run_OnPreviewLoad (img : node_id) (url : jsstring) (e : event) (w : world) :
  attrs (element_at img w) !! "src" = Some url ->
  run_handler near_limit OnPreviewLoad (Node img) e w =
    (inl tt,
     with_object_urls (next_url w)
       (List.filter (fun u => negb (jsstring_eqb u url)) (object_urls w)) w).
Proof.
  intros Hsrc. unfold run_handler, this_element. rewrite bind_ret_l.
  unfold prop. rewrite bind_gets. cbv beta. unfold jsstring in *. rewrite Hsrc. reflexivity.
Qed.

(** What the change listener does with an image file: the preview is
    the element of class [image-preview] below the parent of the input
    when there is one, and a new [div] otherwise. *)
Lemma run_image_change
    (input tgt p : node_id) (f : file) (rest : list file) (e : event) (w : world) :
  well_formed w = true ->
  event_target e = Node tgt ->
  files (element_at tgt w) = f :: rest ->
  starts_with (lit "image/") (file_type f) = true ->
  parent_of input (document w) = Some p ->
  let url := lit "blob:" ++ of_nat (next_url w) in
  let pv := match head (select sel_image_preview (descendants p (document w))) with
            | Some i => i
            | None => next_node w
            end in
  exists w1 img e0 kids,
    run_handler near_limit OnImageChange (Node input) e w = (inl tt, w1) /\
    object_urls w1 = object_urls w ++ [url] /\
    listeners w1 = listeners w ++ [Listener (Node img) "load" OnPreviewLoad] /\
    attrs (element_at img w1) !! "src" = Some url /\
    find_node pv (document w1) =
      Some (Elem pv e0
              [Elem img
                 (set_style "max-height" (lit "200px")
                    (set_classList ["img-thumbnail"]
                       (set_attr "src" url (blank "img")))) [];
               Elem (S img)
                 (set_classList ["d-block"; "text-muted"; "mt-1"] (blank "small"))
                 kids]) /\
    List.flat_map text_of kids = file_name f.
Proof.
  intros Hwf Ht Hf Hs Hp url pv.
  destruct (well_formed_spec w Hwf) as (Hnd & Hlt & _).
  unfold run_handler at 1. unfold this_element at 1. rewrite bind_ret_l, Ht.
  unfold this_element at 1. rewrite bind_ret_l.
  unfold prop at 1. rewrite bind_gets. cbv beta. rewrite Hf. cbv beta iota. rewrite Hs.
  unfold parentNode at 1. rewrite bind_gets. cbv beta. rewrite Hp.
  unfold deref at 1. rewrite bind_ret_l.
  unfold querySelectorIn at 1. rewrite bind_gets. cbv beta.
  subst pv.
  destruct (head (select sel_image_preview (descendants p (document w))))
    as [pv|] eqn:Hfound.
  - rewrite bind_ret_l.
    assert (is_Some (entry_of pv (document w))) as Hpv.
    { apply (descendants_are_elements p _ _ sel_image_preview).
      destruct (select sel_image_preview (descendants p (document w)));
        [discriminate|]. injection Hfound as ->. now left. }
    destruct (run_fill_preview pv f w Hpv Hlt) as (w1 & Hrun & Hurls & Hls & Hsrc & Hkids).
    destruct (entry_find_node pv (document w) [] Hnd Hpv) as (e0 & kids0 & Hfn).
    destruct (Hkids e0 kids0 Hfn) as (kids & Hfn1 & Htext).
    exists w1, (next_node w), e0, kids. repeat split; assumption.
  - pose (d := Elem (next_node w)
                 (set_classList ["image-preview"; "mt-2"] (blank "div")) []).
    pose (w0 := with_document (alter_children p (put_before d None))
                  (with_next_node (S (next_node w)) w)).
    assert (~ In (next_node w) (ids (document w))) as Hfresh
      by (intros Hin; apply Hlt in Hin; lia).
    pose proof (parent_is_element input (document w) p [] Hp) as Hparent.
    destruct (run_fill_preview (next_node w) f w0)
      as (w1 & Hrun & Hurls & Hls & Hsrc & Hkids).
    { destruct (appended_lookup p (next_node w)
                  (set_classList ["image-preview"; "mt-2"] (blank "div")) []
                  (document w) [] Hfresh Hparent) as [anc' Hfind].
      unfold entry_of, w0, d. cbn [document with_document with_next_node].
      rewrite Hfind. eauto. }
    { intros i Hi. cbn [w0 document next_node with_document with_next_node] in Hi |- *.
      apply ids_append in Hi. destruct Hi as [Hi|Hi].
      - apply Hlt in Hi. lia.
      - simpl in Hi. lia. }
    destruct (Hkids (set_classList ["image-preview"; "mt-2"] (blank "div")) [])
      as (kids & Hfn1 & Htext).
    { exact (find_node_appended p d (document w) [] Hfresh Hparent). }
    exists w1, (next_node w0), (set_classList ["image-preview"; "mt-2"] (blank "div")),
      kids.
    repeat split; assumption.
Qed.

(** X15. Selecting an image file gives the preview image an object
    URL of the file as its [src] and a load listener; when the image
    has loaded, the listener revokes that URL, so that the object URLs
    in use are those from before the selection. *)
Theorem image_url_revoked_on_load
    (input tgt p : node_id) (f : file) (rest : list file) (e e' : event) (w : world) :
  well_formed w = true ->
  event_target e = Node tgt ->
  files (element_at tgt w) = f :: rest ->
  starts_with (lit "image/") (file_type f) = true ->
  parent_of input (document w) = Some p ->
  ~ In (lit "blob:" ++ of_nat (next_url w)) (object_urls w) ->
  exists w1 img w2,
    run_handler near_limit OnImageChange (Node input) e w = (inl tt, w1) /\
    object_urls w1 = object_urls w ++ [lit "blob:" ++ of_nat (next_url w)] /\
    listeners w1 = listeners w ++ [Listener (Node img) "load" OnPreviewLoad] /\
    attrs (element_at img w1) !! "src" = Some (lit "blob:" ++ of_nat (next_url w)) /\
    run_handler near_limit OnPreviewLoad (Node img) e' w1 = (inl tt, w2) /\
    object_urls w2 = object_urls w.
Proof.
  intros Hwf Ht Hf Hs Hp Hu.
  destruct (run_image_change input tgt p f rest e w Hwf Ht Hf Hs Hp)
    as (w1 & img & _ & _ & Hrun & Hurls & Hls & Hsrc & _).
  exists w1, img. eexists.
  split; [exact Hrun|]. split; [exact Hurls|]. split; [exact Hls|].
  split; [exact Hsrc|]. split; [apply run_OnPreviewLoad; exact Hsrc|].
  cbn [object_urls with_object_urls]. rewrite Hurls. now apply filter_fresh_url.
Qed.

(** X16. Selecting an image file leaves the preview with exactly two
    children, whatever it held before: the image, with the object URL
    as its [src], the class [img-thumbnail] and a maximal height of 200
    pixels, and a [small] element whose text is the name of the file.
    The preview is the first element of class [image-preview] below
    the parent of the input, or a new element when there is none. *)
Theorem image_preview_replaced
    (input tgt p : node_id) (f : file) (rest : list file) (e : event) (w : world) :
  well_formed w = true ->
  event_target e = Node tgt ->
  files (element_at tgt w) = f :: rest ->
  starts_with (lit "image/") (file_type f) = true ->
  parent_of input (document w) = Some p ->
  let pv := match head (select sel_image_preview (descendants p (document w))) with
            | Some i => i
            | None => next_node w
            end in
  exists w1 img e0 kids,
    run_handler near_limit OnImageChange (Node input) e w = (inl tt, w1) /\
    find_node pv (document w1) =
      Some (Elem pv e0
              [Elem img
                 (set_style "max-height" (lit "200px")
                    (set_classList ["img-thumbnail"]
                       (set_attr "src" (lit "blob:" ++ of_nat (next_url w))
                          (blank "img")))) [];
               Elem (S img)
                 (set_classList ["d-block"; "text-muted"; "mt-1"] (blank "small"))
                 kids]) /\
    List.flat_map text_of kids = file_name f.
Proof.
  intros Hwf Ht Hf Hs Hp pv.
  destruct (run_image_change input tgt p f rest e w Hwf Ht Hf Hs Hp)
    as (w1 & img & e0 & kids & Hrun & _ & _ & _ & Hfn & Htext).
  exists w1, img, e0, kids. repeat split; assumption.
Qed.

End Preview.

Lemma image_url_revoked_on_load_witness :
  let w := with_document
             (update 16 (with_files [File (lit "cat.png") (lit "image/png")]))
             (post_page NoGlobal) in
  exists w1 img w2,
    run_handler (fun _ _ => false) OnImageChange (Node 16) (Event [] (Node 16)) w
      = (inl tt, w1) /\
    object_urls w1 = object_urls w ++ [lit "blob:" ++ of_nat (next_url w)] /\
    listeners w1 = listeners w ++ [Listener (Node img) "load" OnPreviewLoad] /\
    attrs (element_at img w1) !! "src" = Some (lit "blob:" ++ of_nat (next_url w)) /\
    run_handler (fun _ _ => false) OnPreviewLoad (Node img) (Event [] (Node 20)) w1
      = (inl tt, w2) /\
    object_urls w2 = object_urls w.
Proof.
  intros w.
  apply (image_url_revoked_on_load (fun _ _ => false) 16 16 1
           (File (lit "cat.png") (lit "image/png")) []
           (Event [] (Node 16)) (Event [] (Node 20)) w).
  - vm_compute. reflexivity.
  - reflexivity.
  - vm_compute. reflexivity.
  - vm_compute. reflexivity.
  - vm_compute. reflexivity.
  - simpl. tauto.
Defined.

Lemma image_preview_replaced_witness :
  let cat := File (lit "cat.png") (lit "image/png") in
  let w := snd (run_handler (fun _ _ => false) OnImageChange (Node 16)
                  (Event [] (Node 16))
                  (with_document (update 16 (with_files [cat])) (post_page NoGlobal))) in
  exists w1 img e0 kids,
    run_handler (fun _ _ => false) OnImageChange (Node 16) (Event [] (Node 16)) w
      = (inl tt, w1) /\
    find_node 19 (document w1) =
      Some (Elem 19 e0
              [Elem img
                 (set_style "max-height" (lit "200px")
                    (set_classList ["img-thumbnail"]
                       (set_attr "src" (lit "blob:" ++ of_nat (next_url w))
                          (blank "img")))) [];
               Elem (S img)
                 (set_classList ["d-block"; "text-muted"; "mt-1"] (blank "small"))
                 kids]) /\
    List.flat_map text_of kids = file_name cat.
Proof.
  intros cat w.
  apply (image_preview_replaced (fun _ _ => false) 16 16 1 cat []
           (Event [] (Node 16)) w).
  - vm_compute. reflexivity.
  - reflexivity.
  - vm_compute. reflexivity.
  - vm_compute. reflexivity.
  - vm_compute. reflexivity.
Defined.

End PreviewProps.

(** ** Loading the page *)

Module LoadProps.

Import JS JS.Notations Page PageProps CounterProps PageMore PreviewProps.

Local Open Scope nat_scope.







Lemma same_lookups_listeners w x l :
  same_lookups w x -> same_lookups w (with_listeners l x).
Proof. intros H. exact H. Qed.







Example page_load_throws_on_shown_meta :
  let r := main shown_meta_page in
  fst r = inr (TypeError "Cannot read properties of undefined") /\
  List.length (listeners (snd r)) = 5 /\
  textContent 4 (snd r) = Some [].
Proof. vm_compute. repeat split. Qed.

End LoadProps.
